(** * Cushion: a CouchDB-style document database on an ordered key-value store

    A shallow embedding of [src/cushion.ts], [src/utils.ts] and the query
    builder [ViewQuery], followed by the properties proved about them.

    Conventions of the embedding.
    - A JavaScript [number] is [Js.number]: NaN, the two infinities, or a
      finite rational.  Every operation the builder applies to numbers
      ([===], [>], [Math.max], [~~]) is exact on doubles, so no rounding is
      involved.  Negative zero is identified with zero: every branch the
      builder takes on [-0] is the branch it takes on [0].  As a key part
      the store keeps [-0] and [0] apart, and one double is one rational
      only in lowest terms: the statements about the rows that operations
      leave in a view are made for views whose keys are exact
      ([Kv.exact_part], [Spec.exact_keys]).
    - A JavaScript object used as a document is a finite map from field
      names to values ([gmap string JsValue]); [{...o, k: v}] is map
      insertion and [const {k, ...rest} = o] is map deletion.
    - The key-value store is a finite map from key tuples to a value and
      its versionstamp, with a commit counter from which versionstamps are
      produced.  [await] is sequential composition: one operation runs to
      completion before the next starts, so every statement is about calls
      made one after the other.
    - The store refuses an atomic operation of more than 1000 mutations by
      throwing.  [Kv.commit] describes the commits the store accepts, and
      [Kv.within_limits] says of a store that every commit of its log was
      one of them; the statements about the rows and back-references that
      operations leave behind are made for such runs.  The store's limits
      on the size in bytes of keys and values are outside the model, which
      has no byte sizes.
    - A map function is a total function from the document it receives to
      the list of its [emit] calls, in order. *)

From Stdlib Require Import ZArith QArith Qround Ascii String.
From stdpp Require Import base option list strings gmap fin_maps sorting.

Set Default Proof Using "Type".
Local Open Scope Z_scope.

(** ** JavaScript values *)

Module Js.

Inductive number : Type :=
| NaN
| PosInf
| NegInf
| Fin (q : Q).

Definition of_Z (z : Z) : number := Fin (inject_Z z).

(** [a === b] on numbers. *)
Definition strict_eq (a b : number) : bool :=
  match a, b with
  | PosInf, PosInf | NegInf, NegInf => true
  | Fin p, Fin q => Qeq_bool p q
  | _, _ => false
  end.

(** [a > b] on numbers. *)
Definition gt (a b : number) : bool :=
  match a, b with
  | NaN, _ | _, NaN => false
  | PosInf, PosInf => false
  | PosInf, _ => true
  | _, PosInf => false
  | NegInf, _ => false
  | Fin _, NegInf => true
  | Fin p, Fin q => negb (Qle_bool p q)
  end.

(** [a >= b] and [a < b] on numbers. *)
Definition ge (a b : number) : bool := gt a b || strict_eq a b.
Definition lt (a b : number) : bool := gt b a.

(** [Math.max(a, b)]: NaN if either argument is NaN. *)
Definition Math_max (a b : number) : number :=
  match a, b with
  | NaN, _ | _, NaN => NaN
  | _, _ => if gt b a then b else a
  end.

(** [a + b] on numbers. *)
Definition add (a b : number) : number :=
  match a, b with
  | NaN, _ | _, NaN => NaN
  | PosInf, NegInf | NegInf, PosInf => NaN
  | PosInf, _ | _, PosInf => PosInf
  | NegInf, _ | _, NegInf => NegInf
  | Fin p, Fin q => Fin (p + q)
  end.

(** Truncation of a rational toward zero. *)
Definition trunc (q : Q) : Z := Z.quot (Qnum q) (Zpos (Qden q)).

(** The abstract operation ToInt32 of ECMAScript: NaN and the infinities
    give 0; a finite number is truncated toward zero, reduced modulo
    2^32 and read as a signed 32-bit integer. *)
Definition ToInt32 (n : number) : Z :=
  match n with
  | NaN | PosInf | NegInf => 0
  | Fin q =>
      let int32bit := (trunc q) mod 2 ^ 32 in
      if 2 ^ 31 <=? int32bit then int32bit - 2 ^ 32 else int32bit
  end.

(** [~n]: bitwise NOT of ToInt32(n). *)
Definition bitnot (n : number) : number := of_Z (Z.lnot (ToInt32 n)).

(** [~~n], the source's truncation idiom. *)
Definition double_tilde (n : number) : number := bitnot (bitnot n).

(** [Math.PI] is the double 884279719003555 / 2^48. *)
Definition Math_PI : number := Fin (884279719003555 # 281474976710656).

#[warnings="-register-all"] Inductive JsValue : Type :=
| JUndefined
| JNull
| JBool (b : bool)
| JNum (n : number)
| JStr (s : string)
| JArr (l : list JsValue)
| JObj (o : list (string * JsValue)).

(** ToBoolean. *)
Definition truthy (v : JsValue) : bool :=
  match v with
  | JUndefined | JNull => false
  | JBool b => b
  | JNum NaN => false
  | JNum (Fin q) => negb (Qeq_bool q 0)
  | JNum _ => true
  | JStr s => negb (String.eqb s "")
  | JArr _ | JObj _ => true
  end.

(** [v ?? null]. *)
Definition or_null (v : JsValue) : JsValue :=
  match v with
  | JUndefined | JNull => JNull
  | _ => v
  end.

End Js.

Export Js.

(** Errors thrown by the library, named after what they report. *)
Inductive Error : Type :=
| UnexpectedRev       (* "Document must not include _rev" *)
| DuplicateDocument   (* "Document ... already exists; use replace()" *)
| RevisionConflict    (* "... has been modified elsewhere (rev conflict)" *)
| UndefinedView       (* "View ... not defined" *)
| InvalidGroupLevel   (* "Group level must be boolean or positive integer" *)
| NotImplemented.     (* "Not yet implemented: query by multiple keys" *)

Inductive Result (A : Type) : Type :=
| Ok (a : A)
| Err (e : Error).
Arguments Ok {A} a.
Arguments Err {A} e.

(** ** The key-value store (Deno.Kv)

    The store is an external collaborator; this is the contract the
    program relies on: tuple keys in a fixed total order, a versionstamp
    per entry assigned by the commit that wrote it, atomic commits guarded
    by versionstamp checks, and ordered listing by prefix or range. *)

Module Kv.

(** [Deno.KvKeyPart = Uint8Array | string | number | bigint | boolean]. *)
Inductive KeyPart : Type :=
| KBytes (bs : list N)
| KStr (s : string)
| KNum (n : number)
| KBigInt (z : Z)
| KBool (b : bool).

Definition Key : Type := list KeyPart.

#[global] Instance Q_eq_dec : EqDecision Q.
Proof. solve_decision. Defined.

#[global] Instance number_eq_dec : EqDecision number.
Proof. solve_decision. Defined.

#[global] Instance KeyPart_eq_dec : EqDecision KeyPart.
Proof. solve_decision. Defined.

#[global] Instance Q_countable : Countable Q :=
  inj_countable' (λ q, (Qnum q, Qden q)) (λ p, Qmake p.1 p.2)
    (λ q, match q with Qmake _ _ => eq_refl end).

Definition number_enc (n : number) : option (option (option Q)) :=
  match n with
  | NaN => None
  | PosInf => Some None
  | NegInf => Some (Some None)
  | Fin q => Some (Some (Some q))
  end.

Definition number_dec (e : option (option (option Q))) : number :=
  match e with
  | None => NaN
  | Some None => PosInf
  | Some (Some None) => NegInf
  | Some (Some (Some q)) => Fin q
  end.

#[global] Instance number_countable : Countable number :=
  inj_countable' number_enc number_dec
    (λ n, match n with NaN | PosInf | NegInf | Fin _ => eq_refl end).

Definition KeyPart_enc (p : KeyPart)
  : list N + (string + (number + (Z + bool))) :=
  match p with
  | KBytes bs => inl bs
  | KStr s => inr (inl s)
  | KNum n => inr (inr (inl n))
  | KBigInt z => inr (inr (inr (inl z)))
  | KBool b => inr (inr (inr (inr b)))
  end.

Definition KeyPart_dec (e : list N + (string + (number + (Z + bool))))
  : KeyPart :=
  match e with
  | inl bs => KBytes bs
  | inr (inl s) => KStr s
  | inr (inr (inl n)) => KNum n
  | inr (inr (inr (inl z))) => KBigInt z
  | inr (inr (inr (inr b))) => KBool b
  end.

#[global] Instance KeyPart_countable : Countable KeyPart :=
  inj_countable' KeyPart_enc KeyPart_dec
    (λ p, match p with
          | KBytes _ | KStr _ | KNum _ | KBigInt _ | KBool _ => eq_refl
          end).

(** *** Key order

    Parts of different types are ordered by type (byte strings, strings,
    big integers, numbers, booleans); tuples are ordered
    lexicographically, a proper prefix before its extensions. *)

Definition part_rank (p : KeyPart) : Z :=
  match p with
  | KBytes _ => 0
  | KStr _ => 1
  | KBigInt _ => 2
  | KNum _ => 3
  | KBool _ => 4
  end.

Fixpoint bytes_compare (a b : list N) : comparison :=
  match a, b with
  | [], [] => Eq
  | [], _ :: _ => Lt
  | _ :: _, [] => Gt
  | x :: a', y :: b' =>
      match N.compare x y with
      | Eq => bytes_compare a' b'
      | c => c
      end
  end.

Definition number_compare (a b : number) : comparison :=
  match a, b with
  | Fin p, Fin q => Qcompare p q
  | NegInf, NegInf | PosInf, PosInf | NaN, NaN => Eq
  | NegInf, _ => Lt
  | _, NegInf => Gt
  | Fin _, _ => Lt
  | _, Fin _ => Gt
  | PosInf, _ => Lt
  | _, PosInf => Gt
  end.

Definition part_compare (a b : KeyPart) : comparison :=
  match a, b with
  | KBytes x, KBytes y => bytes_compare x y
  | KStr x, KStr y => String.compare x y
  | KNum x, KNum y => number_compare x y
  | KBigInt x, KBigInt y => Z.compare x y
  | KBool x, KBool y => Bool.compare x y
  | _, _ => Z.compare (part_rank a) (part_rank b)
  end.

Fixpoint key_compare (a b : Key) : comparison :=
  match a, b with
  | [], [] => Eq
  | [], _ :: _ => Lt
  | _ :: _, [] => Gt
  | x :: a', y :: b' =>
      match part_compare x y with
      | Eq => key_compare a' b'
      | c => c
      end
  end.

Definition key_leb (a b : Key) : bool :=
  match key_compare a b with Gt => false | _ => true end.

Definition key_ltb (a b : Key) : bool :=
  match key_compare a b with Lt => true | _ => false end.

(** The key parts of which the store and this model keep the same keys.
    The store compares numbers by their bits: it tells [-0] from [0] and
    one NaN from another, where [KNum] has one zero and one NaN; and a
    double is one [Q] only in lowest terms.  A number part is exact when
    it is an infinity, or finite, in lowest terms and not zero. *)
Definition exact_part (p : KeyPart) : bool :=
  match p with
  | KNum (Fin q) => bool_decide (Qred q = q) && negb (Qeq_bool q 0)
  | KNum NaN => false
  | _ => true
  end.

(** *** Store *)

Definition Versionstamp : Type := string.

Inductive Mutation (V : Type) : Type :=
| MSet (k : Key) (v : V)
| MDelete (k : Key).
Arguments MSet {V} k v.
Arguments MDelete {V} k.

Definition mutation_key {V} (m : Mutation V) : Key :=
  match m with MSet k _ => k | MDelete k => k end.

(** [entries]: the live keys; [clock]: the number of commits so far;
    [commits]: the mutations of every successful commit, oldest first (a
    record of what was written, never read by the program). *)
Record Store (V : Type) : Type := mkStore {
  entries : gmap Key (V * Versionstamp);
  clock : N;
  commits : list (list (Mutation V))
}.
Arguments mkStore {V} _ _ _.
Arguments entries {V} _.
Arguments clock {V} _.
Arguments commits {V} _.

Definition empty_store {V} : Store V :=
  {| entries := ∅; clock := 0%N; commits := [] |}.

Definition hex_digit (n : N) : ascii :=
  match n with
  | 0 => "0" | 1 => "1" | 2 => "2" | 3 => "3" | 4 => "4" | 5 => "5"
  | 6 => "6" | 7 => "7" | 8 => "8" | 9 => "9" | 10 => "a" | 11 => "b"
  | 12 => "c" | 13 => "d" | 14 => "e" | _ => "f"
  end%N%char.

Fixpoint hex_fixed (digits : nat) (n : N) (acc : string) : string :=
  match digits with
  | O => acc
  | S d => hex_fixed d (n / 16)%N (String (hex_digit (n mod 16)%N) acc)
  end.

(** A versionstamp is the commit number as twenty hexadecimal digits. *)
Definition versionstamp_of (n : N) : Versionstamp := hex_fixed 20 n "".

Record Check : Type := mkCheck {
  check_key : Key;
  check_versionstamp : option Versionstamp   (* [null] is [None] *)
}.

(** [kv.atomic()] and its builder methods. *)
Record AtomicOperation (V : Type) : Type := mkAtomic {
  checks : list Check;
  mutations : list (Mutation V)
}.
Arguments mkAtomic {V} _ _.
Arguments checks {V} _.
Arguments mutations {V} _.

Definition atomic {V} : AtomicOperation V :=
  {| checks := []; mutations := [] |}.

Definition atomic_check {V} (c : Check) (a : AtomicOperation V)
  : AtomicOperation V :=
  {| checks := checks a ++ [c]; mutations := mutations a |}.

Definition atomic_set {V} (k : Key) (v : V) (a : AtomicOperation V)
  : AtomicOperation V :=
  {| checks := checks a; mutations := mutations a ++ [MSet k v] |}.

Definition atomic_delete {V} (k : Key) (a : AtomicOperation V)
  : AtomicOperation V :=
  {| checks := checks a; mutations := mutations a ++ [MDelete k] |}.

(** [kv.get(key)]: the value and versionstamp, [None] for [{value: null,
    versionstamp: null}]. *)
Definition kv_get {V} (k : Key) (kv : Store V) : option (V * Versionstamp) :=
  entries kv !! k.

Definition versionstamp_at {V} (k : Key) (kv : Store V)
  : option Versionstamp :=
  snd <$> entries kv !! k.

Definition check_passes {V} (kv : Store V) (c : Check) : bool :=
  bool_decide (versionstamp_at (check_key c) kv = check_versionstamp c).

Definition apply_mutation {V} (vs : Versionstamp)
    (es : gmap Key (V * Versionstamp)) (m : Mutation V)
  : gmap Key (V * Versionstamp) :=
  match m with
  | MSet k v => <[k := (v, vs)]> es
  | MDelete k => delete k es
  end.

Definition apply_mutations {V} (vs : Versionstamp) (ms : list (Mutation V))
    (es : gmap Key (V * Versionstamp)) : gmap Key (V * Versionstamp) :=
  foldl (apply_mutation vs) es ms.

(** [.commit()]: when every check passes the mutations are applied in
    order under one new versionstamp, which is returned; otherwise the
    store is left as it is and the result is [{ok: false}] ([None]). *)
Definition commit {V} (a : AtomicOperation V) (kv : Store V)
  : option Versionstamp * Store V :=
  if forallb (check_passes kv) (checks a) then
    let vs := versionstamp_of (clock kv + 1) in
    (Some vs,
     {| entries := apply_mutations vs (mutations a) (entries kv);
        clock := (clock kv + 1)%N;
        commits := commits kv ++ [mutations a] |})
  else (None, kv).

(** [kv.set(key, value)]. *)
Definition kv_set {V} (k : Key) (v : V) (kv : Store V) : Store V :=
  (commit (atomic_set k v atomic) kv).2.

(** The store accepts an atomic operation of at most 1000 mutations and
    throws on a larger one.  [within_limits]: every commit in the log of
    the store was one the store accepts. *)
Definition max_mutations : nat := 1000.

Definition accepted {V} (ms : list (Mutation V)) : bool :=
  (length ms <=? max_mutations)%nat.

Definition within_limits {V} (kv : Store V) : bool :=
  forallb accepted (commits kv).

Inductive KvListSelector : Type :=
| SelPrefix (p : Key)
| SelRange (start end_ : Key).

Record KvListOptions : Type := mkListOptions {
  reverse : bool;
  limit : option number
}.

(** A prefix selector matches the keys that extend the prefix properly; a
    range selector is closed at its start and open at its end. *)
Definition selects (sel : KvListSelector) (k : Key) : bool :=
  match sel with
  | SelPrefix p => bool_decide (p `prefix_of` k ∧ p ≠ k)
  | SelRange s e => key_leb s k && key_ltb k e
  end.

Definition entry_le {V} (a b : Key * V) : Prop := key_leb a.1 b.1 = true.

#[global] Instance entry_le_dec {V} (a b : Key * V) : Decision (entry_le a b).
Proof. unfold entry_le. apply _. Defined.

(** The iterator stops once [count >= limit]. *)
Fixpoint take_limit {A} (lim : number) (count : Z) (l : list A) : list A :=
  match l with
  | [] => []
  | x :: l' =>
      if ge (of_Z count) lim then [] else x :: take_limit lim (count + 1) l'
  end.

(** [kv.list(selector, options)], collected: for a limit that is absent,
    [Infinity] or at least 1, and a range whose start is not above its
    end (the store throws on the others). *)
Definition kv_list {V} (sel : KvListSelector) (opts : KvListOptions)
    (kv : Store V) : list (Key * (V * Versionstamp)) :=
  let selected :=
    merge_sort entry_le
      (filter (λ e, selects sel e.1 = true) (map_to_list (entries kv))) in
  let ordered := if reverse opts then rev selected else selected in
  match limit opts with
  | Some lim => take_limit lim 0 ordered
  | None => ordered
  end.

Definition no_options : KvListOptions := {| reverse := false; limit := None |}.

End Kv.

Export Kv.

(** ** Key layout ([utils.ts]) *)

Module Utils.

Definition getDocPrefix (namespace : string) : Key :=
  [KStr namespace; KStr "doc"].

Definition getViewRefPrefix (namespace viewName : string) : Key :=
  [KStr namespace; KStr "viewref"; KStr viewName].

Definition getDocumentKey (namespace id : string) : Key :=
  getDocPrefix namespace ++ [KStr id].

Definition getDesignKey (namespace id : string) : Key :=
  [KStr namespace; KStr "design"; KStr id].

Definition getViewKey (namespace viewName : string) : Key :=
  [KStr namespace; KStr "view"; KStr viewName].

Definition getViewRefKey (namespace viewName docId : string) : Key :=
  getViewRefPrefix namespace viewName ++ [KStr docId].

End Utils.

Export Utils.

(** ** The query builder *)

Module ViewQuery.

Inductive SortOrder : Type := DESCENDING | ASCENDING.

Definition SortOrder_eqb (a b : SortOrder) : bool :=
  match a, b with
  | DESCENDING, DESCENDING | ASCENDING, ASCENDING => true
  | _, _ => false
  end.

(** The private fields of the class; [#f] is written [_f]. *)
Record ViewQuery : Type := mkViewQuery {
  _viewName : string;
  _limit : number;
  _skip : number;
  _reduce : bool;
  _includeDocs : bool;
  _descending : bool;
  _key : option string;
  _keys : option (list string);
  _prefix : option (list KeyPart);
  _startKey : option (list KeyPart);
  _endKey : option (list KeyPart);
  _startKeyDocId : option string;
  _endKeyDocId : option string;
  _groupLevel : option number
}.

(** [ViewQuery.for(viewName)], with the field initialisers. *)
Definition for_ (viewName : string) : ViewQuery :=
  {| _viewName := viewName;
     _limit := PosInf;
     _skip := of_Z 0;
     _reduce := false;
     _includeDocs := false;
     _descending := false;
     _key := None;
     _keys := None;
     _prefix := None;
     _startKey := None;
     _endKey := None;
     _startKeyDocId := None;
     _endKeyDocId := None;
     _groupLevel := None |}.

Definition key (k : string) (q : ViewQuery) : ViewQuery :=
  {| _viewName := _viewName q; _limit := _limit q; _skip := _skip q;
     _reduce := _reduce q; _includeDocs := _includeDocs q;
     _descending := _descending q;
     _key := Some k;
     _keys := _keys q; _prefix := _prefix q;
     _startKey := _startKey q; _endKey := _endKey q;
     _startKeyDocId := _startKeyDocId q; _endKeyDocId := _endKeyDocId q;
     _groupLevel := _groupLevel q |}.

Definition keys (ks : list string) (q : ViewQuery) : ViewQuery :=
  {| _viewName := _viewName q; _limit := _limit q; _skip := _skip q;
     _reduce := _reduce q; _includeDocs := _includeDocs q;
     _descending := _descending q; _key := _key q;
     _keys := Some ks;
     _prefix := _prefix q;
     _startKey := _startKey q; _endKey := _endKey q;
     _startKeyDocId := _startKeyDocId q; _endKeyDocId := _endKeyDocId q;
     _groupLevel := _groupLevel q |}.

Definition prefix (p : list KeyPart) (q : ViewQuery) : ViewQuery :=
  {| _viewName := _viewName q; _limit := _limit q; _skip := _skip q;
     _reduce := _reduce q; _includeDocs := _includeDocs q;
     _descending := _descending q; _key := _key q; _keys := _keys q;
     _prefix := Some p;
     _startKey := _startKey q; _endKey := _endKey q;
     _startKeyDocId := _startKeyDocId q; _endKeyDocId := _endKeyDocId q;
     _groupLevel := _groupLevel q |}.

Definition range (startKey endKey : list KeyPart) (q : ViewQuery)
  : ViewQuery :=
  {| _viewName := _viewName q; _limit := _limit q; _skip := _skip q;
     _reduce := _reduce q; _includeDocs := _includeDocs q;
     _descending := _descending q; _key := _key q; _keys := _keys q;
     _prefix := _prefix q;
     _startKey := Some startKey; _endKey := Some endKey;
     _startKeyDocId := _startKeyDocId q; _endKeyDocId := _endKeyDocId q;
     _groupLevel := _groupLevel q |}.

Definition idRange (startId endId : string) (q : ViewQuery) : ViewQuery :=
  {| _viewName := _viewName q; _limit := _limit q; _skip := _skip q;
     _reduce := _reduce q; _includeDocs := _includeDocs q;
     _descending := _descending q; _key := _key q; _keys := _keys q;
     _prefix := _prefix q;
     _startKey := _startKey q; _endKey := _endKey q;
     _startKeyDocId := Some startId; _endKeyDocId := Some endId;
     _groupLevel := _groupLevel q |}.

(** [this.#skip = ~~Math.max(0, n)]. *)
Definition skip (n : number) (q : ViewQuery) : ViewQuery :=
  {| _viewName := _viewName q; _limit := _limit q;
     _skip := double_tilde (Math_max (of_Z 0) n);
     _reduce := _reduce q; _includeDocs := _includeDocs q;
     _descending := _descending q; _key := _key q; _keys := _keys q;
     _prefix := _prefix q;
     _startKey := _startKey q; _endKey := _endKey q;
     _startKeyDocId := _startKeyDocId q; _endKeyDocId := _endKeyDocId q;
     _groupLevel := _groupLevel q |}.

(** [this.#limit = ~~Math.max(0, n)]. *)
Definition limit (n : number) (q : ViewQuery) : ViewQuery :=
  {| _viewName := _viewName q;
     _limit := double_tilde (Math_max (of_Z 0) n);
     _skip := _skip q;
     _reduce := _reduce q; _includeDocs := _includeDocs q;
     _descending := _descending q; _key := _key q; _keys := _keys q;
     _prefix := _prefix q;
     _startKey := _startKey q; _endKey := _endKey q;
     _startKeyDocId := _startKeyDocId q; _endKeyDocId := _endKeyDocId q;
     _groupLevel := _groupLevel q |}.

(** [includeDocs(shouldInclude = true)]; the call without an argument is
    [includeDocs true]. *)
Definition includeDocs (shouldInclude : bool) (q : ViewQuery) : ViewQuery :=
  {| _viewName := _viewName q; _limit := _limit q; _skip := _skip q;
     _reduce := _reduce q;
     _includeDocs := shouldInclude;
     _descending := _descending q; _key := _key q; _keys := _keys q;
     _prefix := _prefix q;
     _startKey := _startKey q; _endKey := _endKey q;
     _startKeyDocId := _startKeyDocId q; _endKeyDocId := _endKeyDocId q;
     _groupLevel := _groupLevel q |}.

Definition order (direction : SortOrder) (q : ViewQuery) : ViewQuery :=
  {| _viewName := _viewName q; _limit := _limit q; _skip := _skip q;
     _reduce := _reduce q; _includeDocs := _includeDocs q;
     _descending := SortOrder_eqb direction DESCENDING;
     _key := _key q; _keys := _keys q; _prefix := _prefix q;
     _startKey := _startKey q; _endKey := _endKey q;
     _startKeyDocId := _startKeyDocId q; _endKeyDocId := _endKeyDocId q;
     _groupLevel := _groupLevel q |}.

(** [reduce(shouldReduce = true)]. *)
Definition reduce (shouldReduce : bool) (q : ViewQuery) : ViewQuery :=
  {| _viewName := _viewName q; _limit := _limit q; _skip := _skip q;
     _reduce := shouldReduce;
     _includeDocs := _includeDocs q;
     _descending := _descending q; _key := _key q; _keys := _keys q;
     _prefix := _prefix q;
     _startKey := _startKey q; _endKey := _endKey q;
     _startKeyDocId := _startKeyDocId q; _endKeyDocId := _endKeyDocId q;
     _groupLevel := _groupLevel q |}.

Definition set_group (r : bool) (g : option number) (q : ViewQuery)
  : ViewQuery :=
  {| _viewName := _viewName q; _limit := _limit q; _skip := _skip q;
     _reduce := r;
     _includeDocs := _includeDocs q;
     _descending := _descending q; _key := _key q; _keys := _keys q;
     _prefix := _prefix q;
     _startKey := _startKey q; _endKey := _endKey q;
     _startKeyDocId := _startKeyDocId q; _endKeyDocId := _endKeyDocId q;
     _groupLevel := g |}.

(** The argument of [group]: [boolean | number].  The call without an
    argument is [group (LBool true)] (default parameter). *)
Inductive Level : Type :=
| LBool (b : bool)
| LNum (n : number).

Definition group (level : Level) (q : ViewQuery) : Result ViewQuery :=
  match level with
  | LBool true => Ok (set_group true (Some (of_Z 0)) q)
  | LBool false => Ok (set_group (_reduce q) None q)
  | LNum n =>
      if strict_eq n (of_Z 0) then Ok (set_group true (Some (of_Z 0)) q)
      else if gt n (of_Z 0) then Ok (set_group true (Some (double_tilde n)) q)
      else Err InvalidGroupLevel
  end.

(** The shape variant of [ViewQueryParameters]. *)
Inductive Shape : Type :=
| Scan (groupLevel : option number)
| SKey (key : string)
| SKeys (keys : list string)
| SPrefix (prefix : list KeyPart)
| SRange (startKey endKey : list KeyPart)
         (startKeyDocId endKeyDocId : option string)
         (groupLevel : option number).

Record ViewQueryParameters : Type := mkParams {
  viewName : string;
  p_reduce : bool;
  p_includeDocs : bool;
  descending : bool;
  p_limit : number;
  p_skip : number;
  shape : Shape
}.

(** The [type] discriminant. *)
Definition type (p : ViewQueryParameters) : string :=
  match shape p with
  | Scan _ => "scan"
  | SKey _ => "key"
  | SKeys _ => "keys"
  | SPrefix _ => "prefix"
  | SRange _ _ _ _ _ => "range"
  end.

Definition params_with (q : ViewQuery) (s : Shape) : ViewQueryParameters :=
  {| viewName := _viewName q;
     p_reduce := _reduce q;
     p_includeDocs := _includeDocs q;
     descending := _descending q;
     p_limit := _limit q;
     p_skip := _skip q;
     shape := s |}.

Definition getParams (q : ViewQuery) : ViewQueryParameters :=
  match _key q with
  | Some k => params_with q (SKey k)
  | None =>
    match _keys q with
    | Some ks => params_with q (SKeys ks)
    | None =>
      match _prefix q with
      | Some p => params_with q (SPrefix p)
      | None =>
        match _startKey q, _endKey q with
        | Some s, Some e =>
            params_with q
              (SRange s e (_startKeyDocId q) (_endKeyDocId q) (_groupLevel q))
        | _, _ => params_with q (Scan (_groupLevel q))
        end
      end
    end
  end.

(** One call on a builder, and a fluent chain of calls; a chain stops at
    the first call that throws. *)
Inductive Call : Type :=
| CKey (k : string)
| CKeys (ks : list string)
| CPrefix (p : list KeyPart)
| CRange (s e : list KeyPart)
| CIdRange (s e : string)
| CSkip (n : number)
| CLimit (n : number)
| CIncludeDocs (b : bool)
| COrder (d : SortOrder)
| CReduce (b : bool)
| CGroup (l : Level).

Definition call (c : Call) (q : ViewQuery) : Result ViewQuery :=
  match c with
  | CKey k => Ok (key k q)
  | CKeys ks => Ok (keys ks q)
  | CPrefix p => Ok (prefix p q)
  | CRange s e => Ok (range s e q)
  | CIdRange s e => Ok (idRange s e q)
  | CSkip n => Ok (skip n q)
  | CLimit n => Ok (limit n q)
  | CIncludeDocs b => Ok (includeDocs b q)
  | COrder d => Ok (order d q)
  | CReduce b => Ok (reduce b q)
  | CGroup l => group l q
  end.

Fixpoint chain (cs : list Call) (q : ViewQuery) : Result ViewQuery :=
  match cs with
  | [] => Ok q
  | c :: cs' =>
      match call c q with
      | Ok q' => chain cs' q'
      | Err e => Err e
      end
  end.

End ViewQuery.

(** ** The database ([cushion.ts]) *)

Module Cushion.

(** A document: an object with string field names. *)
Abbreviation Doc := (gmap string JsValue).

(** [ViewEmitKey = Deno.KvKeyPart | Deno.KvKeyPart[]]. *)
Inductive ViewEmitKey : Type :=
| EmitPart (p : KeyPart)
| EmitArray (ps : list KeyPart).

(** One call [emit(key, value)]; an omitted [value] is [JUndefined]. *)
Record Emit : Type := mkEmit {
  emit_key : ViewEmitKey;
  emit_value : JsValue
}.

(** A map function: its text ([fn.toString()]) and the calls of [emit] it
    makes on a document, in order. *)
Record MapFunction : Type := mkMapFunction {
  source : string;
  run : Doc → list Emit
}.

Inductive BuildState : Type := building | ready.

#[global] Instance BuildState_eq_dec : EqDecision BuildState.
Proof. solve_decision. Defined.

Record ViewState : Type := mkViewState {
  signature : string;
  state : BuildState
}.

Record ViewRow : Type := mkViewRow {
  value : JsValue;
  doc : Doc
}.

(** What the program stores: documents, design records, view rows and
    back-references. *)
Inductive KvValue : Type :=
| VDoc (d : Doc)
| VState (s : ViewState)
| VRow (r : ViewRow)
| VKeys (ks : list Key).

(** [(keys, values) => unknown]; [keys] holds the pairs
    [[emittedKey, docId]]. *)
Definition ReduceFunction : Type :=
  list (list KeyPart * KeyPart) → list ViewRow → JsValue.

Record ViewLogic : Type := mkViewLogic {
  map_fn : MapFunction;
  reduce_fn : option ReduceFunction
}.

(** [Map<string, ViewLogic>]: iteration is in insertion order, and setting
    an existing name keeps its place. *)
Fixpoint views_set (name : string) (l : ViewLogic)
    (vs : list (string * ViewLogic)) : list (string * ViewLogic) :=
  match vs with
  | [] => [(name, l)]
  | (n, x) :: vs' =>
      if decide (n = name) then (n, l) :: vs'
      else (n, x) :: views_set name l vs'
  end.

Fixpoint views_get (name : string) (vs : list (string * ViewLogic))
  : option ViewLogic :=
  match vs with
  | [] => None
  | (n, x) :: vs' => if decide (n = name) then Some x else views_get name vs'
  end.

(** The object: the store handle, the namespace and the registry.
    [map_calls] records every invocation [mapper(doc, emit)], oldest
    first; the program never reads it. *)
Record Cushion : Type := mkCushion {
  kv : Store KvValue;
  namespace : string;
  views : list (string * ViewLogic);
  map_calls : list (string * Doc)
}.

Definition with_kv (kv' : Store KvValue) (db : Cushion) : Cushion :=
  {| kv := kv'; namespace := namespace db; views := views db;
     map_calls := map_calls db |}.

Definition with_views (vs : list (string * ViewLogic)) (db : Cushion)
  : Cushion :=
  {| kv := kv db; namespace := namespace db; views := vs;
     map_calls := map_calls db |}.

Definition called (viewName : string) (d : Doc) (db : Cushion) : Cushion :=
  {| kv := kv db; namespace := namespace db; views := views db;
     map_calls := map_calls db ++ [(viewName, d)] |}.

(** [Cushion.open(namespace, kv)]. *)
Definition open (namespace : string) (kv : Store KvValue) : Cushion :=
  {| kv := kv; namespace := namespace; views := []; map_calls := [] |}.

Record InsertResult : Type := mkInsertResult {
  ok : bool;
  id : string;
  rev : string
}.

(** The value read back under a document key.  Only documents are ever
    written there; another kind of value is read as the empty object. *)
Definition as_doc (v : KvValue) : Doc :=
  match v with
  | VDoc d => d
  | _ => ∅
  end.

(** [doc._id] of a stored document ([_id: string]). *)
Definition _id (d : Doc) : string :=
  match d !! "_id" with
  | Some (JStr s) => s
  | _ => ""
  end.

Definition get (id : string) (db : Cushion) : option Doc :=
  match kv_get (getDocumentKey (namespace db) id) (kv db) with
  | None => None
  | Some (v, versionstamp) => Some (<["_rev" := JStr versionstamp]> (as_doc v))
  end.

(** [[...viewPrefix, ...keyParts, docId]] with
    [keyParts = Array.isArray(key) ? key : [key]]. *)
Definition keyParts (k : ViewEmitKey) : list KeyPart :=
  match k with
  | EmitPart p => [p]
  | EmitArray ps => ps
  end.

Definition viewKey (viewPrefix : Key) (docId : string) (e : Emit) : Key :=
  viewPrefix ++ keyParts (emit_key e) ++ [KStr docId].

(** The [emit] closure applied to every call the map function makes:
    [batch.set(viewKey, { value: value ?? null, doc })]. *)
Definition emit_all (viewPrefix : Key) (docId : string) (d : Doc)
    (emits : list Emit) (batch : AtomicOperation KvValue)
  : AtomicOperation KvValue :=
  foldl (λ a e,
           atomic_set (viewKey viewPrefix docId e)
             (VRow {| value := or_null (emit_value e); doc := d |}) a)
        batch emits.

(** One iteration of the loop of [updateViewsForDoc].  A back-reference
    holds a list of keys; another kind of value is never stored there. *)
Definition updateView (docId : string) (d : option Doc) (db : Cushion)
    (entry : string * ViewLogic) : Cushion :=
  let viewName := entry.1 in
  let mapper := map_fn entry.2 in
  let viewPrefix := getViewKey (namespace db) viewName in
  let refKey := getViewRefKey (namespace db) viewName docId in
  let atomic0 :=
    match kv_get refKey (kv db) with
    | Some (VKeys existing, _) =>
        foldl (λ a k, atomic_delete k a) atomic existing
    | _ => atomic
    end in
  match d with
  | None =>
      with_kv (commit (atomic_delete refKey atomic0) (kv db)).2 db
  | Some d =>
      let emits := run mapper d in
      let atomic1 := emit_all viewPrefix docId d emits atomic0 in
      let emittedKeys := viewKey viewPrefix docId <$> emits in
      let db1 := called viewName d db in
      with_kv (commit (atomic_set refKey (VKeys emittedKeys) atomic1)
                      (kv db1)).2 db1
  end.

Definition updateViewsForDoc (docId : string) (d : option Doc)
    (db : Cushion) : Cushion :=
  foldl (updateView docId d) db (views db).

(** [insert(doc)]; [uuid] is what [crypto.randomUUID()] returns if it is
    called.  [_id] is declared [string | undefined]: a string is used when
    it is truthy, anything else the declared type admits gives [uuid]. *)
Definition insert_id (d : Doc) (uuid : string) : string :=
  match d !! "_id" with
  | Some (JStr s) => if truthy (JStr s) then s else uuid
  | _ => uuid
  end.

Definition insert (uuid : string) (d : Doc) (db : Cushion)
  : Result InsertResult * Cushion :=
  let id := insert_id d uuid in
  if decide (is_Some (d !! "_rev")) then (Err UnexpectedRev, db)
  else
    let key := getDocumentKey (namespace db) id in
    let initialiser := <["_id" := JStr id]> d in
    match
      commit (atomic_set key (VDoc initialiser)
                (atomic_check {| check_key := key;
                                 check_versionstamp := None |} atomic))
             (kv db)
    with
    | (None, _) => (Err DuplicateDocument, db)
    | (Some versionstamp, kv') =>
        (Ok {| ok := true; id := id; rev := versionstamp |},
         updateViewsForDoc id
           (Some (<["_rev" := JStr versionstamp]> initialiser))
           (with_kv kv' db))
    end.

Definition replace (id rev : string) (d : Doc) (db : Cushion)
  : Result InsertResult * Cushion :=
  let key := getDocumentKey (namespace db) id in
  let rest := delete "_rev" d in
  let updated := <["_id" := JStr id]> rest in
  match
    commit (atomic_set key (VDoc updated)
              (atomic_check {| check_key := key;
                               check_versionstamp := Some rev |} atomic))
           (kv db)
  with
  | (None, _) => (Err RevisionConflict, db)
  | (Some versionstamp, kv') =>
      (Ok {| ok := true; id := id; rev := versionstamp |},
       updateViewsForDoc id
         (Some (<["_rev" := JStr versionstamp]> updated))
         (with_kv kv' db))
  end.

Definition remove (id rev : string) (db : Cushion) : Result bool * Cushion :=
  let key := getDocumentKey (namespace db) id in
  match
    commit (atomic_delete key
              (atomic_check {| check_key := key;
                               check_versionstamp := Some rev |} atomic))
           (kv db)
  with
  | (None, _) => (Err RevisionConflict, db)
  | (Some _, kv') => (Ok true, updateViewsForDoc id None (with_kv kv' db))
  end.

(** *** Views *)

Section Views.

(** [encodeHex(SHA-256(utf8(text)))], provided by the platform. *)
Variable sha256_hex : string → string.

Definition hashFunction (fn : MapFunction) : string :=
  sha256_hex (source fn).

Definition BATCH_SIZE : nat := 1000.

(** The body of the deletion loop of [rebuildView]: the pending batch, its
    size and the store. *)
Definition delete_entry
    (acc : AtomicOperation KvValue * nat * Store KvValue) (k : Key)
  : AtomicOperation KvValue * nat * Store KvValue :=
  let deleteAtomic := atomic_delete k acc.1.1 in
  let deleteCount := S acc.1.2 in
  if decide (BATCH_SIZE ≤ deleteCount)%nat
  then (atomic, 0%nat, (commit deleteAtomic acc.2).2)
  else (deleteAtomic, deleteCount, acc.2).

Definition delete_prefix
    (acc : AtomicOperation KvValue * nat * Store KvValue) (prefix : Key)
  : AtomicOperation KvValue * nat * Store KvValue :=
  foldl delete_entry acc (kv_list (SelPrefix prefix) no_options acc.2).*1.

(** The body of the document loop of [rebuildView]. *)
Definition rebuild_doc (viewName : string) (mapper : MapFunction)
    (acc : AtomicOperation KvValue * nat * Cushion) (d : Doc)
  : AtomicOperation KvValue * nat * Cushion :=
  let db := acc.2 in
  let viewPrefix := getViewKey (namespace db) viewName in
  let emits := run mapper d in
  let batch := emit_all viewPrefix (_id d) d emits acc.1.1 in
  let emittedKeys := viewKey viewPrefix (_id d) <$> emits in
  let batchSize := (acc.1.2 + length emits)%nat in
  let db := called viewName d db in
  let refKey := getViewRefKey (namespace db) viewName (_id d) in
  let batch := atomic_set refKey (VKeys emittedKeys) batch in
  let batchSize := S batchSize in
  if decide (BATCH_SIZE ≤ batchSize)%nat
  then (atomic, 0%nat, with_kv (commit batch (kv db)).2 db)
  else (batch, batchSize, db).

Definition rebuildView (viewName : string) (mapper : MapFunction)
    (signature : string) (db : Cushion) : Cushion :=
  let viewPrefix := getViewKey (namespace db) viewName in
  let viewRefPrefix := getViewRefPrefix (namespace db) viewName in
  let deleted :=
    foldl delete_prefix (atomic, 0%nat, kv db) [viewPrefix; viewRefPrefix] in
  let kv1 :=
    if decide (0 < deleted.1.2)%nat
    then (commit deleted.1.1 deleted.2).2
    else deleted.2 in
  let docPrefix := getDocPrefix (namespace db) in
  let docs := (λ e, as_doc e.2.1) <$> kv_list (SelPrefix docPrefix) no_options kv1 in
  let built :=
    foldl (rebuild_doc viewName mapper) (atomic, 0%nat, with_kv kv1 db) docs in
  let db2 :=
    if decide (0 < built.1.2)%nat
    then with_kv (commit built.1.1 (kv built.2)).2 built.2
    else built.2 in
  let designKey := getDesignKey (namespace db) viewName in
  with_kv
    (kv_set designKey (VState {| signature := signature; state := ready |})
            (kv db2))
    db2.

(** The design record read by [defineView]; [None] is [null]. *)
Definition design_record (viewName : string) (db : Cushion)
  : option ViewState :=
  match kv_get (getDesignKey (namespace db) viewName) (kv db) with
  | Some (VState s, _) => Some s
  | _ => None
  end.

Definition defineView (viewName : string) (mapper : MapFunction)
    (reducer : option ReduceFunction) (db : Cushion) : Cushion :=
  let db :=
    with_views
      (views_set viewName {| map_fn := mapper; reduce_fn := reducer |}
                 (views db)) db in
  let viewSignature := hashFunction mapper in
  let value := design_record viewName db in
  if decide (signature <$> value = Some viewSignature) then db
  else if decide (state <$> value = Some building) then db
  else rebuildView viewName mapper viewSignature db.

End Views.

(** *** Queries *)

Record MapRow : Type := mkMapRow {
  row_key : list KeyPart;
  row_id : KeyPart;
  row_value : JsValue;
  row_doc : option Doc        (* present only with [includeDocs] *)
}.

Record ReduceRow : Type := mkReduceRow {
  group_key : option (list KeyPart);   (* [null] for the group "ALL" *)
  reduced : JsValue
}.

Inductive QueryRow : Type :=
| RMap (r : MapRow)
| RReduce (r : ReduceRow).

(** [key.slice(n, -1)] and [key.at(-1)]. *)
Definition slice_inner (n : nat) (k : Key) : list KeyPart :=
  drop n (take (length k - 1) k).

Definition at_last (k : Key) : KeyPart := default (KStr "") (last k).

(** [{ value, doc } = entry.value]; only rows are stored under a view
    prefix. *)
Definition as_row (v : KvValue) : ViewRow :=
  match v with
  | VRow r => r
  | _ => {| value := JUndefined; doc := ∅ |}
  end.

(** The loop [if (skipped < params.skip) { skipped += 1; continue; }]. *)
Fixpoint drop_skipped {A} (skip : number) (skipped : Z) (l : list A)
  : list A :=
  match l with
  | [] => []
  | x :: l' =>
      if lt (of_Z skipped) skip then drop_skipped skip (skipped + 1) l'
      else l
  end.

Definition selector_of (viewPrefix : Key) (s : ViewQuery.Shape)
  : Result KvListSelector :=
  match s with
  | ViewQuery.SKey k => Ok (SelPrefix (viewPrefix ++ [KStr k]))
  | ViewQuery.SPrefix p => Ok (SelPrefix (viewPrefix ++ p))
  | ViewQuery.SRange startKey endKey startKeyDocId endKeyDocId _ =>
      let with_id (k : Key) (docId : option string) : Key :=
        match docId with
        | Some i => if truthy (JStr i) then k ++ [KStr i] else k
        | None => k
        end in
      Ok (SelRange (with_id (viewPrefix ++ startKey) startKeyDocId)
                   (with_id (viewPrefix ++ endKey) endKeyDocId))
  | ViewQuery.Scan _ => Ok (SelPrefix viewPrefix)
  | ViewQuery.SKeys _ => Err NotImplemented
  end.

(** ["groupLevel" in params ? params.groupLevel : undefined]. *)
Definition groupLevel_of (s : ViewQuery.Shape) : option number :=
  match s with
  | ViewQuery.Scan g => g
  | ViewQuery.SRange _ _ _ _ g => g
  | _ => None
  end.

(** [emittedKey.slice(0, n)]: a negative [n] counts from the end. *)
Definition slice_to (n : number) (k : list KeyPart) : list KeyPart :=
  match n with
  | Fin q =>
      if trunc q <? 0 then take (length k - Z.to_nat (- trunc q)) k
      else take (Z.to_nat (trunc q)) k
  | PosInf => k
  | NegInf | NaN => []
  end.

(** Groups are keyed by [JSON.stringify] of the group key in the source;
    here by the group key itself, ["ALL"] being [None]. *)
Definition Groups : Type :=
  list (option (list KeyPart)
        * (list (list KeyPart * KeyPart) * list ViewRow)).

Fixpoint add_to_group (g : option (list KeyPart))
    (k : list KeyPart * KeyPart) (v : ViewRow) (gs : Groups) : Groups :=
  match gs with
  | [] => [(g, ([k], [v]))]
  | (g', (ks, vs)) :: gs' =>
      if decide (g' = g) then (g', (ks ++ [k], vs ++ [v])) :: gs'
      else (g', (ks, vs)) :: add_to_group g k v gs'
  end.

Fixpoint yield_groups (reduceFn : ReduceFunction) (skip lim : number)
    (skipped yielded : Z) (gs : Groups) : list QueryRow :=
  match gs with
  | [] => []
  | (g, (ks, vs)) :: gs' =>
      if lt (of_Z skipped) skip
      then yield_groups reduceFn skip lim (skipped + 1) yielded gs'
      else if ge (of_Z yielded) lim then []
      else RReduce {| group_key := g; reduced := reduceFn ks vs |}
           :: yield_groups reduceFn skip lim skipped (yielded + 1) gs'
  end.

Definition queryReduce (entries : list (Key * (KvValue * Versionstamp)))
    (reduceFn : ReduceFunction) (prefixLen : nat)
    (params : ViewQuery.ViewQueryParameters) : list QueryRow :=
  let groupLevel := groupLevel_of (ViewQuery.shape params) in
  let groups :=
    foldl (λ gs entry,
             let emittedKey := slice_inner prefixLen entry.1 in
             let docId := at_last entry.1 in
             let groupKey :=
               match groupLevel with
               | Some g =>
                   Some (if strict_eq g (of_Z 0) then emittedKey
                         else slice_to g emittedKey)
               | None => None
               end in
             add_to_group groupKey (emittedKey, docId) (as_row entry.2.1) gs)
          [] entries in
  yield_groups reduceFn (ViewQuery.p_skip params) (ViewQuery.p_limit params)
    0 0 groups.

Definition query (viewQuery : ViewQuery.ViewQuery) (db : Cushion)
  : Result (list QueryRow) :=
  let params := ViewQuery.getParams viewQuery in
  let viewName := ViewQuery.viewName params in
  match views_get viewName (views db) with
  | None => Err UndefinedView
  | Some viewDef =>
      let viewPrefix := getViewKey (namespace db) viewName in
      match selector_of viewPrefix (ViewQuery.shape params) with
      | Err e => Err e
      | Ok selector =>
          let skip := ViewQuery.p_skip params in
          let listOptions :=
            {| reverse := ViewQuery.descending params;
               limit :=
                 Some (if truthy (JNum skip)
                       then add (ViewQuery.p_limit params) skip
                       else ViewQuery.p_limit params) |} in
          let entries := kv_list selector listOptions (kv db) in
          match ViewQuery.p_reduce params, reduce_fn viewDef with
          | true, Some reduceFn =>
              Ok (queryReduce entries reduceFn (length viewPrefix) params)
          | _, _ =>
              Ok ((λ entry,
                     let r := as_row entry.2.1 in
                     RMap {| row_key := slice_inner (length viewPrefix) entry.1;
                             row_id := at_last entry.1;
                             row_value := value r;
                             row_doc :=
                               if ViewQuery.p_includeDocs params
                               then Some (doc r) else None |})
                    <$> drop_skipped skip 0 entries)
          end
      end
  end.

(** *** Sequences of document operations *)

Inductive Op : Type :=
| OpInsert (uuid : string) (d : Doc)
| OpReplace (id rev : string) (d : Doc)
| OpRemove (id rev : string).

Definition step (db : Cushion) (op : Op) : Cushion :=
  match op with
  | OpInsert uuid d => (insert uuid d db).2
  | OpReplace id rev d => (replace id rev d db).2
  | OpRemove id rev => (remove id rev db).2
  end.

Definition run_ops (ops : list Op) (db : Cushion) : Cushion :=
  foldl step db ops.

End Cushion.

(** * Specifications *)

Module Spec.

Import ViewQuery.

(** Which shape setters occur in a chain of builder calls. *)
Definition is_key (c : Call) : bool :=
  match c with CKey _ => true | _ => false end.
Definition is_keys (c : Call) : bool :=
  match c with CKeys _ => true | _ => false end.
Definition is_prefix (c : Call) : bool :=
  match c with CPrefix _ => true | _ => false end.
Definition is_range (c : Call) : bool :=
  match c with CRange _ _ => true | _ => false end.

(** The precedence of query shapes: [key > keys > prefix > range > scan]. *)
Definition precedence (cs : list Call) : string :=
  if existsb is_key cs then "key"
  else if existsb is_keys cs then "keys"
  else if existsb is_prefix cs then "prefix"
  else if existsb is_range cs then "range"
  else "scan".

(** [n] clamped below at zero and truncated toward zero. *)
Definition clamp_trunc (q : Q) : Z := Z.max 0 (trunc q).

Import Cushion.

(** The stored values, without their versionstamps, and the effect of a
    list of mutations on them. *)
Definition store_values {V} (kv : Store V) : gmap Key V :=
  fst <$> entries kv.

Definition apply_value {V} (m : gmap Key V) (mu : Mutation V) : gmap Key V :=
  match mu with
  | MSet k v => <[k := v]> m
  | MDelete k => delete k m
  end.

Definition apply_values {V} (ms : list (Mutation V)) (m : gmap Key V)
  : gmap Key V :=
  foldl apply_value m ms.

(** The store after a successful commit of the single mutation [mu]. *)
Definition next_versionstamp {V} (kv : Store V) : Versionstamp :=
  versionstamp_of (clock kv + 1).

Definition committed {V} (mu : Mutation V) (kv : Store V) : Store V :=
  {| entries := apply_mutation (next_versionstamp kv) (entries kv) mu;
     clock := (clock kv + 1)%N;
     commits := commits kv ++ [[mu]] |}.

(** The row a document writes for one emission. *)
Definition row_of (d : Doc) (e : Emit) : KvValue :=
  VRow {| value := or_null (emit_value e); doc := d |}.

(** A map function whose keys are exact, whatever the document. *)
Definition exact_keys (f : MapFunction) : Prop :=
  ∀ d e, e ∈ run f d → forallb exact_part (keyParts (emit_key e)) = true.

(** The last emission of a list whose composite key is [k]. *)
Definition last_emit (viewPrefix : Key) (docId : string) (emits : list Emit)
    (k : Key) : option Emit :=
  last (filter (λ e, viewKey viewPrefix docId e = k) emits).

Definition trailing_id (k : Key) : option string :=
  match last k with
  | Some (KStr i) => Some i
  | _ => None
  end.

(** A view is in step with an assignment [g] of documents to ids when the
    value under every key below its row prefix is the row of the last
    emission with that key made by the document [g] assigns to the key's
    trailing id, and the back-reference of every id is the list of the
    composite keys its document emits. *)
Definition expected_row (N V : string) (f : MapFunction)
    (g : string → option Doc) (k : Key) : option KvValue :=
  i ← trailing_id k;
  d ← g i;
  row_of d <$> last_emit (getViewKey N V) i (run f d) k.

Definition expected_ref (N V : string) (f : MapFunction)
    (g : string → option Doc) (i : string) : option KvValue :=
  (λ d, VKeys (viewKey (getViewKey N V) i <$> run f d)) <$> g i.

Record ValSync (N : string) (vals : gmap Key KvValue) (V : string)
    (f : MapFunction) (g : string → option Doc) : Prop := mkValSync {
  sync_rows : ∀ k, getViewKey N V `prefix_of` k →
                   vals !! k = expected_row N V f g k;
  sync_refs : ∀ i, vals !! getViewRefKey N V i = expected_ref N V f g i
}.

(** Pointwise update of a document assignment. *)
Definition upd (i : string) (x : option Doc) (g : string → option Doc)
  : string → option Doc :=
  λ j, if decide (j = i) then x else g j.

(** Well-formed stores: what lies below the document prefix is a document
    without [_rev] whose [_id] is the last part of its key, a
    back-reference names keys below the row prefix of its view, and
    nothing is stored under a bare row prefix. *)
Definition DocsWf (N : string) (vals : gmap Key KvValue) : Prop :=
  ∀ k v, getDocPrefix N `prefix_of` k → vals !! k = Some v →
         ∃ i d, k = getDocumentKey N i ∧ v = VDoc d
                ∧ d !! "_id" = Some (JStr i) ∧ d !! "_rev" = None.

Definition RefsWf (N : string) (vals : gmap Key KvValue) : Prop :=
  ∀ V i ks, vals !! getViewRefKey N V i = Some (VKeys ks) →
            ∀ k, k ∈ ks → getViewKey N V `prefix_of` k.

Definition RowsWf (N : string) (vals : gmap Key KvValue) : Prop :=
  ∀ V, vals !! getViewKey N V = None.

Definition Wf (db : Cushion) : Prop :=
  DocsWf (namespace db) (store_values (kv db))
  ∧ RefsWf (namespace db) (store_values (kv db))
  ∧ RowsWf (namespace db) (store_values (kv db)).

(** The keys a view owns. *)
Definition in_view (N W : string) (k : Key) : Prop :=
  getViewKey N W `prefix_of` k ∨ getViewRefPrefix N W `prefix_of` k.

(** The mutations [updateViewsForDoc] commits for one view. *)
Definition old_keys (vals : gmap Key KvValue) (refKey : Key) : list Key :=
  match vals !! refKey with
  | Some (VKeys ks) => ks
  | _ => []
  end.

Definition doc_mutations (N W : string) (f : MapFunction) (i : string)
    (d : Doc) : list (Mutation KvValue) :=
  ((λ e, MSet (viewKey (getViewKey N W) i e) (row_of d e)) <$> run f d)
  ++ [MSet (getViewRefKey N W i)
           (VKeys (viewKey (getViewKey N W) i <$> run f d))].

Definition update_mutations (N W : string) (f : MapFunction) (i : string)
    (d : option Doc) (vals : gmap Key KvValue) : list (Mutation KvValue) :=
  (MDelete <$> old_keys vals (getViewRefKey N W i))
  ++ match d with
     | None => [MDelete (getViewRefKey N W i)]
     | Some d => doc_mutations N W f i d
     end.

(** The values a pending batch and a store amount to once the batch is
    committed. *)
Definition eff (b : AtomicOperation KvValue) (kv : Store KvValue)
  : gmap Key KvValue :=
  apply_values (mutations b) (store_values kv).

(** What the loops of [rebuildView] keep true of their accumulators: the
    pending batch has no checks and is empty when its counter is zero;
    in the deletion loop it only removes. *)
Definition del_ok (acc : AtomicOperation KvValue * nat * Store KvValue)
  : Prop :=
  checks acc.1.1 = []
  ∧ (acc.1.2 = 0%nat → mutations acc.1.1 = [])
  ∧ eff acc.1.1 acc.2 ⊆ store_values acc.2.

Definition build_ok (acc : AtomicOperation KvValue * nat * Cushion) : Prop :=
  checks acc.1.1 = [] ∧ (acc.1.2 = 0%nat → mutations acc.1.1 = []).

(** The store of [rebuildView] once the old rows and back-references are
    deleted, and the documents it then maps. *)
Definition after_delete (viewName : string) (db : Cushion) : Store KvValue :=
  let deleted :=
    foldl delete_prefix (atomic, 0%nat, kv db)
      [getViewKey (namespace db) viewName;
       getViewRefPrefix (namespace db) viewName] in
  if decide (0 < deleted.1.2)%nat
  then (commit deleted.1.1 deleted.2).2
  else deleted.2.

Definition listed_docs (N : string) (kv : Store KvValue) : list Doc :=
  (λ e, as_doc e.2.1) <$> kv_list (SelPrefix (getDocPrefix N)) no_options kv.

Definition doc_step (N V : string) (f : MapFunction)
    (m : gmap Key KvValue) (d : Doc) : gmap Key KvValue :=
  apply_values (doc_mutations N V f (_id d) d) m.

(** The document stored under an id, as it is stored. *)
Definition stored_doc (N : string) (vals : gmap Key KvValue) (i : string)
  : option Doc :=
  as_doc <$> vals !! getDocumentKey N i.

(** The assignment made of a list of documents, by their [_id]. *)
Definition assign (ds : list Doc) (g : string → option Doc)
  : string → option Doc :=
  foldl (λ g d, upd (_id d) (Some d) g) g ds.

(** The commits a loop has made since the log was [cs0] and its pending
    batch write only keys that satisfy [P]. *)
Definition keys_in (P : Key → Prop) (b : list (Mutation KvValue)) : Prop :=
  Forall (λ mu, P (mutation_key mu)) b.

Definition log_ok (P : Key → Prop) (cs0 : list (list (Mutation KvValue)))
    (b : AtomicOperation KvValue) (kv : Store KvValue) : Prop :=
  keys_in P (mutations b)
  ∧ ∃ bs, commits kv = cs0 ++ bs ∧ Forall (keys_in P) bs.

(** *** The rows of a view and the live documents

    As the specification states it: the rows below the row prefix are
    the rows of all the emissions of all live documents (as [get] returns
    them); the back-reference of a live document lists the keys of the
    stored rows that end in its id; an absent document has neither rows
    nor a back-reference. *)
Definition rows_as_stated (db : Cushion) (V : string) (f : MapFunction)
  : Prop :=
  ∀ k v,
    (getViewKey (namespace db) V `prefix_of` k
     ∧ ∃ vs, entries (kv db) !! k = Some (v, vs))
    ↔ ∃ i d e, get i db = Some d ∧ e ∈ run f d
               ∧ k = viewKey (getViewKey (namespace db) V) i e
               ∧ v = row_of d e.

(** As the code has it: of several emissions of one document with the
    same key, the last one is the stored row. *)
Definition rows_last_wins (db : Cushion) (V : string) (f : MapFunction)
  : Prop :=
  ∀ k v,
    (getViewKey (namespace db) V `prefix_of` k
     ∧ ∃ vs, entries (kv db) !! k = Some (v, vs))
    ↔ ∃ i d e, get i db = Some d
               ∧ last_emit (getViewKey (namespace db) V) i (run f d) k = Some e
               ∧ v = row_of d e.

Definition backrefs_exact (db : Cushion) (V : string) : Prop :=
  ∀ i d, get i db = Some d →
    ∃ ks vs,
      entries (kv db) !! getViewRefKey (namespace db) V i
        = Some (VKeys ks, vs)
      ∧ ∀ k, k ∈ ks ↔
             (getViewKey (namespace db) V `prefix_of` k
              ∧ trailing_id k = Some i
              ∧ is_Some (entries (kv db) !! k)).

Definition absent_clean (db : Cushion) (V : string) : Prop :=
  ∀ i, get i db = None →
    entries (kv db) !! getViewRefKey (namespace db) V i = None
    ∧ ∀ k, getViewKey (namespace db) V `prefix_of` k →
           trailing_id k = Some i → entries (kv db) !! k = None.

Definition ViewConsistentStated (db : Cushion) (V : string)
    (f : MapFunction) : Prop :=
  rows_as_stated db V f ∧ backrefs_exact db V ∧ absent_clean db V.

Definition ViewConsistent (db : Cushion) (V : string) (f : MapFunction)
  : Prop :=
  rows_last_wins db V f ∧ backrefs_exact db V ∧ absent_clean db V.

(** The invariant behind it: every registered view is in step with the
    documents as [get] returns them. *)
Definition Synced (db : Cushion) : Prop :=
  ∀ V lw, (V, lw) ∈ views db →
    ValSync (namespace db) (store_values (kv db)) V (map_fn lw)
            (λ i, get i db).

Definition Inv (db : Cushion) : Prop :=
  Wf db ∧ NoDup (views db).*1 ∧ Synced db.

(** Views defined one after the other, as before any document
    operation. *)
Definition define_views (sha256_hex : string → string)
    (defs : list (string * MapFunction * option ReduceFunction))
    (db : Cushion) : Cushion :=
  foldl (λ db def, defineView sha256_hex def.1.1 def.1.2 def.2 db) db defs.

(** The databases the program can produce from an empty store: any
    history of view definitions and document operations, and of reopening
    the store in a new process (the registry starts empty again). *)
Inductive Reachable (sha256_hex : string → string) : Cushion → Prop :=
| reach_open N : Reachable sha256_hex (open N empty_store)
| reach_reopen db :
    Reachable sha256_hex db → Reachable sha256_hex (open (namespace db) (kv db))
| reach_define V f r db :
    Reachable sha256_hex db →
    Reachable sha256_hex (defineView sha256_hex V f r db)
| reach_insert uuid d db :
    Reachable sha256_hex db → Reachable sha256_hex (insert uuid d db).2
| reach_replace i rev d db :
    Reachable sha256_hex db → Reachable sha256_hex (replace i rev d db).2
| reach_remove i rev db :
    Reachable sha256_hex db → Reachable sha256_hex (remove i rev db).2.

(** A store that holds design records only. *)
Definition Fresh (db : Cushion) : Prop :=
  ∀ k v, store_values (kv db) !! k = Some v →
         ∃ V, k = getDesignKey (namespace db) V.

(** Every registered view is in step with some assignment of documents. *)
Definition Tracked (db : Cushion) : Prop :=
  ∀ V lw, (V, lw) ∈ views db →
    ∃ g, ValSync (namespace db) (store_values (kv db)) V (map_fn lw) g.

(** The full scan of a view with documents included, and its rows. *)
Definition docs_query (V : string) : ViewQuery :=
  includeDocs true (for_ V).

(** The row the executor yields for one entry when documents are
    included. *)
Definition row_with_doc (k : Key) (v : KvValue) : MapRow :=
  {| row_key := slice_inner 3 k;
     row_id := at_last k;
     row_value := value (as_row v);
     row_doc := Some (doc (as_row v)) |}.

Definition map_rows (res : Result (list QueryRow)) : list MapRow :=
  match res with
  | Ok rows =>
      omap (λ r, match r with RMap m => Some m | RReduce _ => None end) rows
  | Err _ => []
  end.

End Spec.

(** * Sample data for the closed statements *)

Module Sample.

Import Cushion Spec.

(** Stands for the platform digest where a closed term is needed; no
    statement depends on which function it is. *)
Definition digest (s : string) : string := s.

Definition emit (key : string) (v : JsValue) : Emit :=
  {| emit_key := EmitPart (KStr key); emit_value := v |}.

(** [(doc, emit) => { if (doc.type !== "user") return; emit(doc.name); }]
    on documents whose [name] is a string. *)
Definition byName : MapFunction :=
  {| source := "by-name";
     run := λ d,
       match d !! "type", d !! "name" with
       | Some (JStr "user"), Some (JStr n) => [emit n JUndefined]
       | _, _ => []
       end |}.

(** [(doc, emit) => { emit("a", 1); emit("a", 2); }]. *)
Definition twice : MapFunction :=
  {| source := "twice";
     run := λ _, [emit "a" (JNum (of_Z 1)); emit "a" (JNum (of_Z 2))] |}.

(** The same function with another text. *)
Definition byName2 : MapFunction :=
  {| source := "by-name, reformatted"; run := run byName |}.

Definition alice : Doc :=
  {[ "_id" := JStr "alice"; "type" := JStr "user"; "name" := JStr "Alice" ]}.

Definition alice2 : Doc :=
  {[ "type" := JStr "user"; "name" := JStr "Alicia";
     "_rev" := JStr "client-side" ]}.

Definition anonymous : Doc :=
  {[ "_id" := JStr ""; "type" := JStr "user"; "name" := JStr "Nemo" ]}.

Definition x : Doc := {[ "_id" := JStr "x" ]}.

(** A document that brings no [_id]. *)
Definition carol : Doc :=
  {[ "type" := JStr "user"; "name" := JStr "Carol" ]}.

(** A database with the view [by-name] defined on an empty store. *)
Definition db0 : Cushion :=
  defineView digest "by-name" byName None (open "test" empty_store).

(** ... and then [alice] inserted. *)
Definition db1 : Cushion := (insert "uuid-1" alice db0).2.

(** A database opened on the store of [db1]: the registry is empty, the
    documents are there. *)
Definition db2 : Cushion := open "test" (kv db1).

End Sample.

(** * Further specifications: documents, view maintenance, queries *)

Module MoreSpec.

Import ViewQuery Cushion Spec.

(** The id a document operation addresses. *)
Definition target (op : Op) : string :=
  match op with
  | OpInsert uuid d => insert_id d uuid
  | OpReplace i _ _ => i
  | OpRemove i _ => i
  end.

(** The one commit [updateViewsForDoc] makes for a view [x] and a document
    id [i], where [vals] are the values the store held before the
    operation: the rows that the back-reference of the view and the id
    named in [vals] are deleted, then, for a document, its rows and its
    back-reference are set, and for a removed document the back-reference
    is deleted. *)
Definition view_batch (N i : string) (od : option Doc)
    (vals : gmap Key KvValue) (x : string * ViewLogic)
  : list (Mutation KvValue) :=
  update_mutations N x.1 (map_fn x.2) i od vals.

(** What an invariant [I] of the pending batch and the store must be
    closed under to hold throughout the loops of [rebuildView]: adding
    mutations on keys in [P] to the batch, and committing the batch. *)
Definition batch_invariant (P : Key → Prop)
    (I : AtomicOperation KvValue → Store KvValue → Prop) : Prop :=
  (∀ b kv, I b kv → I atomic (commit b kv).2)
  ∧ (∀ b kv mus, keys_in P mus → I b kv →
       I {| checks := checks b; mutations := mutations b ++ mus |} kv).

(** The documents of [g] are the live documents, each as [get] returns
    it or as [get] returns it less its [_rev]. *)
Definition up_to_rev (db : Cushion) (g : string → option Doc) : Prop :=
  ∀ i, g i = get i db ∨ g i = delete "_rev" <$> get i db.

(** A view is in step with the documents up to [_rev]: its rows and
    back-references are those of an assignment [g] of documents to ids
    that gives every id the document that [get] returns, with or without
    the field [_rev] (a row written by [updateViewsForDoc] holds the
    document with its [_rev], a row written by a rebuild holds it
    without). *)
Definition InStep (db : Cushion) (V : string) (f : MapFunction) : Prop :=
  ∃ g : string → option Doc,
    up_to_rev db g ∧ ValSync (namespace db) (store_values (kv db)) V f g.

(** The rows of a view are those of the assignment [g]: the value under
    every key below the row prefix is the row of the last emission with
    that key of the document that [g] gives for the key's trailing id. *)
Definition rows_of (db : Cushion) (V : string) (f : MapFunction)
    (g : string → option Doc) : Prop :=
  ∀ k v,
    (getViewKey (namespace db) V `prefix_of` k
     ∧ ∃ vs, entries (kv db) !! k = Some (v, vs))
    ↔ ∃ i d e, g i = Some d
               ∧ last_emit (getViewKey (namespace db) V) i (run f d) k = Some e
               ∧ v = row_of d e.

Definition AllInStep (db : Cushion) : Prop :=
  Wf db ∧ NoDup (views db).*1
  ∧ ∀ V lw, (V, lw) ∈ views db → InStep db V (map_fn lw).

(** The histories of one process in which every view is built before it
    is used: the database is opened on a well-formed store (empty or
    not); a view is defined with a function whose signature is not the
    persisted one, so that it is rebuilt, or a registered view is
    defined again with the function it is registered with; documents are
    inserted, replaced and removed. *)
Inductive Maintained (sha256_hex : string → string) : Cushion → Prop :=
| maintained_open N kv0 :
    Wf (open N kv0) → Maintained sha256_hex (open N kv0)
| maintained_rebuild V f r db :
    Maintained sha256_hex db →
    signature <$> design_record V db ≠ Some (hashFunction sha256_hex f) →
    state <$> design_record V db ≠ Some building →
    Maintained sha256_hex (defineView sha256_hex V f r db)
| maintained_redefine V lw r db :
    Maintained sha256_hex db →
    views_get V (views db) = Some lw →
    Maintained sha256_hex (defineView sha256_hex V (map_fn lw) r db)
| maintained_step op db :
    Maintained sha256_hex db → Maintained sha256_hex (step db op).

(** Every versionstamp in the store is that of a commit made so far. *)
Definition StampsOk (kv : Store KvValue) : Prop :=
  ∀ k x, entries kv !! k = Some x →
         ∃ n, (n ≤ clock kv)%N ∧ x.2 = versionstamp_of n.

(** *** The builder *)

(** The value a setting has after a chain of calls: the value given by
    the last call that sets it, the initial value if there is none. *)
Definition last_set {A : Type} (sel : Call → option A) (cs : list Call)
    (initial : A) : A :=
  foldl (λ acc c, default acc (sel c)) initial cs.

Definition sets_order (c : Call) : option bool :=
  match c with
  | COrder d => Some (SortOrder_eqb d DESCENDING)
  | _ => None
  end.

Definition sets_includeDocs (c : Call) : option bool :=
  match c with CIncludeDocs b => Some b | _ => None end.

Definition sets_skip (c : Call) : option number :=
  match c with
  | CSkip n => Some (double_tilde (Math_max (of_Z 0) n))
  | _ => None
  end.

Definition sets_limit (c : Call) : option number :=
  match c with
  | CLimit n => Some (double_tilde (Math_max (of_Z 0) n))
  | _ => None
  end.

(** *** Queries *)

(** The prefix a query by key, by prefix or by scan selects below the row
    prefix of its view. *)
Definition shape_prefix (s : Shape) : option (list KeyPart) :=
  match s with
  | Scan _ => Some []
  | SKey k => Some [KStr k]
  | SPrefix p => Some p
  | SKeys _ | SRange _ _ _ _ _ => None
  end.

(** The row the executor yields for a stored entry. *)
Definition entry_row (prefixLen : nat) (withDoc : bool)
    (entry : Key * (KvValue * Versionstamp)) : MapRow :=
  {| row_key := slice_inner prefixLen entry.1;
     row_id := at_last entry.1;
     row_value := value (as_row entry.2.1);
     row_doc := if withDoc then Some (doc (as_row entry.2.1)) else None |}.

(** The row of the emission [e] of the document [d] with id [i]. *)
Definition emitted_row (i : string) (d : Doc) (e : Emit) (withDoc : bool)
  : MapRow :=
  {| row_key := keyParts (emit_key e);
     row_id := KStr i;
     row_value := or_null (emit_value e);
     row_doc := if withDoc then Some d else None |}.

(** The limit [query] passes to [kv.list]. *)
Definition kv_limit (q : ViewQuery) : number :=
  if truthy (JNum (_skip q)) then add (_limit q) (_skip q) else _limit q.

(** The entries a query reads when it neither skips nor limits. *)
Definition selected (sel : KvListSelector) (q : ViewQuery)
    (kv : Store KvValue) : list (Key * (KvValue * Versionstamp)) :=
  if _descending q then List.rev (kv_list sel no_options kv)
  else kv_list sel no_options kv.

(** The group key of an emitted key in [#queryReduce]. *)
Definition group_key_of (groupLevel : option number)
    (emittedKey : list KeyPart) : option (list KeyPart) :=
  match groupLevel with
  | Some g =>
      Some (if strict_eq g (of_Z 0) then emittedKey
            else slice_to g emittedKey)
  | None => None
  end.

(** What the reduce function is given for a list of entries. *)
Definition reduce_keys (prefixLen : nat)
    (es : list (Key * (KvValue * Versionstamp)))
  : list (list KeyPart * KeyPart) :=
  (λ entry, (slice_inner prefixLen entry.1, at_last entry.1)) <$> es.

Definition reduce_values (es : list (Key * (KvValue * Versionstamp)))
  : list ViewRow :=
  (λ entry, as_row entry.2.1) <$> es.

(** The distinct group keys of a list of entries, in the order of their
    first occurrence. *)
Definition entry_group (groupLevel : option number) (prefixLen : nat)
    (entry : Key * (KvValue * Versionstamp)) : option (list KeyPart) :=
  group_key_of groupLevel (slice_inner prefixLen entry.1).

Definition group_keys (groupLevel : option number) (prefixLen : nat)
    (es : list (Key * (KvValue * Versionstamp)))
  : list (option (list KeyPart)) :=
  list.reverse
    (remove_dups
       (list.reverse (entry_group groupLevel prefixLen <$> es))).

(** One row per group: the reduce function applied to the entries of the
    group, in the order they are read. *)
Definition group_entries (groupLevel : option number) (prefixLen : nat)
    (es : list (Key * (KvValue * Versionstamp)))
    (g : option (list KeyPart)) : list (Key * (KvValue * Versionstamp)) :=
  filter (λ entry, entry_group groupLevel prefixLen entry = g) es.

Definition reduce_rows (reduceFn : ReduceFunction)
    (groupLevel : option number) (prefixLen : nat)
    (es : list (Key * (KvValue * Versionstamp))) : list QueryRow :=
  (λ g, RReduce {| group_key := g;
                   reduced :=
                     reduceFn
                       (reduce_keys prefixLen
                          (group_entries groupLevel prefixLen es g))
                       (reduce_values
                          (group_entries groupLevel prefixLen es g)) |})
  <$> group_keys groupLevel prefixLen es.

(** The rows of a reduce query without a group level: none for no
    entries, otherwise the one row of the group "ALL". *)
Definition reduce_all_rows (reduceFn : ReduceFunction) (prefixLen : nat)
    (es : list (Key * (KvValue * Versionstamp))) : list QueryRow :=
  match es with
  | [] => []
  | _ :: _ =>
      [RReduce {| group_key := None;
                  reduced := reduceFn (reduce_keys prefixLen es)
                               (reduce_values es) |}]
  end.

(** The key parts on which [JSON.stringify] is injective and is inverted
    by [JSON.parse]: strings, booleans and finite numbers (a number in
    lowest terms, so that equal numbers are equal parts). *)
Definition json_faithful (p : KeyPart) : bool :=
  match p with
  | KStr _ | KBool _ => true
  | KNum (Fin x) => bool_decide (Qred x = x)
  | KNum _ | KBigInt _ | KBytes _ => false
  end.

Definition json_faithful_keys (prefixLen : nat)
    (es : list (Key * (KvValue * Versionstamp))) : bool :=
  forallb (λ entry, forallb json_faithful (slice_inner prefixLen entry.1)) es.

(** The order of rows: by emitted key parts, then by document id, in the
    order of the store. *)
Definition row_le (m1 m2 : MapRow) : Prop :=
  key_leb (row_key m1 ++ [row_id m1]) (row_key m2 ++ [row_id m2]) = true.

End MoreSpec.

Module MoreSample.

Import Cushion Spec Sample.

Definition bob : Doc :=
  {[ "_id" := JStr "bob"; "type" := JStr "user"; "name" := JStr "Bob" ]}.

(** [(keys, values) => values.length]. *)
Definition count : ReduceFunction :=
  λ _ values, JNum (of_Z (Z.of_nat (length values))).

(** The view [by-name] with the reduce function [count], and the
    documents [alice] and [bob]. *)
Definition db3 : Cushion :=
  (insert "uuid-2" bob
     (insert "uuid-1" alice
        (defineView digest "by-name" byName (Some count)
           (open "test" empty_store))).2).2.

(** [(doc, emit) => { for (let k = 1; k <= n; k++) emit(k); }]. *)
Definition numbered (n : nat) : MapFunction :=
  {| source := "numbered";
     run := λ _, (λ k, {| emit_key := EmitPart (KNum (of_Z (Z.of_nat k)));
                          emit_value := JUndefined |}) <$> seq 1 n |}.

(** [alice] inserted under a view that emits 1000 rows for a document. *)
Definition db5 : Cushion :=
  (insert "uuid-1" alice
     (defineView digest "numbered" (numbered 1000) None
        (open "test" empty_store))).2.

(** A view that emits 500 rows for a document, defined on a store that
    holds [alice] and [bob]. *)
Definition db6 : Cushion :=
  defineView digest "numbered" (numbered 500) None
    (open "test"
       (kv (insert "uuid-2" bob
              (insert "uuid-1" alice (open "test" empty_store)).2).2)).

(** The store of [db1] reopened, the view rebuilt under another text,
    then [bob] inserted. *)
Definition db4 : Cushion :=
  (insert "uuid-2" bob (defineView digest "by-name" byName2 None db2)).2.

End MoreSample.

(** * Properties of the query builder *)

Module ViewQueryProps.

Import ViewQuery Spec.

Lemma trunc_inject_Z (z : Z) : trunc (inject_Z z) = z.
Proof. unfold trunc, inject_Z; simpl. apply Z.quot_1_r. Qed.

Lemma ToInt32_range (n : number) : - 2 ^ 31 <= ToInt32 n < 2 ^ 31.
Proof.
  destruct n as [| | |q]; simpl; try lia.
  pose proof (Z.mod_pos_bound (trunc q) (2 ^ 32) ltac:(lia)) as Hb.
  destruct (Z.leb_spec (2 ^ 31) (trunc q mod 2 ^ 32)); lia.
Qed.

Lemma ToInt32_of_Z (z : Z) : - 2 ^ 31 <= z < 2 ^ 31 → ToInt32 (of_Z z) = z.
Proof.
  intros Hz. unfold of_Z, ToInt32. rewrite trunc_inject_Z.
  destruct (Z.neg_nonneg_cases z) as [Hneg | Hpos].
  - replace (z mod 2 ^ 32) with (z + 2 ^ 32).
    + destruct (Z.leb_spec (2 ^ 31) (z + 2 ^ 32)); lia.
    + apply Z.mod_unique with (q := -1); lia.
  - rewrite Z.mod_small by lia.
    destruct (Z.leb_spec (2 ^ 31) z); lia.
Qed.

(** [~~n] is ToInt32 of [n], as a number. *)
Lemma double_tilde_ToInt32 (n : number) : double_tilde n = of_Z (ToInt32 n).
Proof.
  unfold double_tilde, bitnot.
  pose proof (ToInt32_range n) as Hr.
  rewrite ToInt32_of_Z by (unfold Z.lnot; lia).
  f_equal. unfold Z.lnot. lia.
Qed.

(** Below 2^31 the idiom truncates toward zero. *)
Lemma double_tilde_trunc (q : Q) :
  0 <= trunc q < 2 ^ 31 → double_tilde (Fin q) = of_Z (trunc q).
Proof.
  intros Hq. rewrite double_tilde_ToInt32. f_equal. simpl.
  rewrite Z.mod_small by lia.
  destruct (Z.leb_spec (2 ^ 31) (trunc q)); lia.
Qed.

Lemma trunc_nonneg (q : Q) : (0 <= q)%Q → 0 <= trunc q.
Proof.
  intros Hq. unfold trunc. apply Z.quot_pos; [|lia].
  unfold Qle in Hq; simpl in Hq. lia.
Qed.

Lemma trunc_nonpos (q : Q) : (q <= 0)%Q → trunc q <= 0.
Proof.
  intros Hq. unfold trunc.
  assert (Qnum q <= 0) as Hn by (unfold Qle in Hq; simpl in Hq; lia).
  rewrite <- (Z.opp_involutive (Qnum q)), Z.quot_opp_l by lia.
  assert (0 <= - Qnum q ÷ Z.pos (Qden q)) by (apply Z.quot_pos; lia).
  lia.
Qed.

Lemma Math_max_0_Fin (q : Q) :
  Math_max (of_Z 0) (Fin q) = if Qle_bool q 0 then of_Z 0 else Fin q.
Proof.
  unfold Math_max, of_Z, gt. change (inject_Z 0) with 0%Q.
  by destruct (Qle_bool q 0).
Qed.

(** For finite arguments whose integer part is below 2^31, [skip] and
    [limit] clamp at zero and truncate toward zero. *)
Lemma clamp_in_range (q : Q) :
  trunc q < 2 ^ 31 →
  double_tilde (Math_max (of_Z 0) (Fin q)) = of_Z (clamp_trunc q).
Proof.
  intros Hq. rewrite Math_max_0_Fin. unfold clamp_trunc.
  destruct (Qle_bool q 0) eqn:Hle.
  - apply Qle_bool_iff, trunc_nonpos in Hle.
    unfold of_Z at 1.
    rewrite double_tilde_trunc by (rewrite trunc_inject_Z; lia).
    rewrite trunc_inject_Z. f_equal. lia.
  - assert (0 <= q)%Q as Hpos.
    { apply Qlt_le_weak, Qnot_le_lt. intros H%Qle_bool_iff. congruence. }
    apply trunc_nonneg in Hpos.
    rewrite double_tilde_trunc by lia. f_equal. lia.
Qed.

Lemma skip_in_range (q : Q) (b : ViewQuery) :
  trunc q < 2 ^ 31 → _skip (skip (Fin q) b) = of_Z (clamp_trunc q).
Proof. apply clamp_in_range. Qed.

Lemma limit_in_range (q : Q) (b : ViewQuery) :
  trunc q < 2 ^ 31 → _limit (limit (Fin q) b) = of_Z (clamp_trunc q).
Proof. apply clamp_in_range. Qed.

(** C6 (the code departs from the claim at 2^31): [limit(2147483648)]
    stores the negative limit -2147483648 and [skip(2147483648)] the
    negative skip -2147483648, where clamping at zero and truncating
    toward zero give 2147483648; [limit(Infinity)] stores 0. *)
Theorem skip_limit_wrap_at_2_31 (b : ViewQuery) :
  _limit (limit (of_Z 2147483648) b) = of_Z (-2147483648)
  ∧ _skip (skip (of_Z 2147483648) b) = of_Z (-2147483648)
  ∧ clamp_trunc (inject_Z 2147483648) = 2147483648
  ∧ _limit (limit PosInf b) = of_Z 0.
Proof. repeat split; reflexivity. Qed.

(** *** [group] *)

Lemma group_true (b : ViewQuery) :
  group (LBool true) b = Ok (set_group true (Some (of_Z 0)) b).
Proof. reflexivity. Qed.

Lemma group_zero (q : Q) (b : ViewQuery) :
  (q == 0)%Q → group (LNum (Fin q)) b = Ok (set_group true (Some (of_Z 0)) b).
Proof.
  intros Hq. unfold group, strict_eq, of_Z.
  by rewrite (proj2 (Qeq_bool_iff q (inject_Z 0)) Hq).
Qed.

Lemma group_false (b : ViewQuery) :
  group (LBool false) b = Ok (set_group (_reduce b) None b).
Proof. reflexivity. Qed.

Lemma group_positive_in_range (q : Q) (b : ViewQuery) :
  (0 < q)%Q → Qfloor q < 2 ^ 31 →
  group (LNum (Fin q)) b = Ok (set_group true (Some (of_Z (Qfloor q))) b).
Proof.
  intros Hpos Hlt. unfold group, strict_eq, gt, of_Z.
  change (inject_Z 0) with 0%Q.
  destruct (Qeq_bool q 0) eqn:Heq.
  { apply Qeq_bool_iff in Heq. rewrite Heq in Hpos.
    by apply Qlt_irrefl in Hpos. }
  destruct (Qle_bool q 0) eqn:Hle.
  { apply Qle_bool_iff in Hle. by apply Qlt_not_le in Hpos. }
  simpl.
  assert (trunc q = Qfloor q) as Htr.
  { unfold trunc, Qfloor. destruct q as [n d]; simpl.
    apply Z.quot_div_nonneg; [|lia].
    unfold Qlt in Hpos; simpl in Hpos. lia. }
  rewrite double_tilde_trunc.
  - by rewrite Htr.
  - rewrite Htr. split; [|done].
    rewrite <- Htr. apply trunc_nonneg. by apply Qlt_le_weak.
Qed.

Lemma group_PI (b : ViewQuery) :
  group (LNum Math_PI) b = Ok (set_group true (Some (of_Z 3)) b).
Proof. reflexivity. Qed.

Lemma group_negative (q : Q) (b : ViewQuery) :
  (q < 0)%Q → group (LNum (Fin q)) b = Err InvalidGroupLevel.
Proof.
  intros Hneg. unfold group, strict_eq, gt, of_Z.
  change (inject_Z 0) with 0%Q.
  destruct (Qeq_bool q 0) eqn:Heq.
  { apply Qeq_bool_iff in Heq. rewrite Heq in Hneg.
    by apply Qlt_irrefl in Hneg. }
  by rewrite (proj2 (Qle_bool_iff q 0) (Qlt_le_weak _ _ Hneg)).
Qed.

Lemma group_other (b : ViewQuery) :
  group (LNum NaN) b = Err InvalidGroupLevel
  ∧ group (LNum NegInf) b = Err InvalidGroupLevel.
Proof. by split. Qed.

(** C4 (the code departs from the claim at 2^31): [group(2147483648)] sets
    [groupLevel] to -2147483648 and [group(Infinity)] sets it to 0, where
    the floor of the argument is 2147483648, respectively infinite. *)
Theorem group_wrap_at_2_31 (b : ViewQuery) :
  group (LNum (of_Z 2147483648)) b
    = Ok (set_group true (Some (of_Z (-2147483648))) b)
  ∧ Qfloor (inject_Z 2147483648) = 2147483648
  ∧ group (LNum PosInf) b = Ok (set_group true (Some (of_Z 0)) b).
Proof. repeat split; reflexivity. Qed.

(** *** Shape precedence *)

Lemma chain_slots (cs : list Call) (b b' : ViewQuery) :
  chain cs b = Ok b' →
  bool_decide (is_Some (_key b'))
    = bool_decide (is_Some (_key b)) || existsb is_key cs
  ∧ bool_decide (is_Some (_keys b'))
    = bool_decide (is_Some (_keys b)) || existsb is_keys cs
  ∧ bool_decide (is_Some (_prefix b'))
    = bool_decide (is_Some (_prefix b)) || existsb is_prefix cs
  ∧ bool_decide (is_Some (_startKey b'))
    = bool_decide (is_Some (_startKey b)) || existsb is_range cs
  ∧ bool_decide (is_Some (_endKey b'))
    = bool_decide (is_Some (_endKey b)) || existsb is_range cs.
Proof.
  revert b. induction cs as [|c cs IH]; intros b Hch; simpl in *.
  - injection Hch as <-. by rewrite !orb_false_r.
  - destruct (call c b) as [b1|e] eqn:Hc; [|done].
    destruct (IH _ Hch) as (-> & -> & -> & -> & ->).
    destruct c; simpl in Hc;
      try (injection Hc as <-; simpl;
           rewrite ?orb_false_l, ?orb_true_l, ?orb_true_r; repeat split;
           try done;
           match goal with
           | |- context [bool_decide (is_Some (Some ?x))] =>
               by rewrite (bool_decide_eq_true_2 (is_Some (Some x)))
           end).
    unfold group in Hc.
    destruct l as [[|]|n]; simpl in Hc;
      repeat match type of Hc with
             | context [if ?c then _ else _] => destruct c
             end;
      try done; by injection Hc as <-.
Qed.

Lemma type_getParams (b : ViewQuery) :
  type (getParams b) =
    if bool_decide (is_Some (_key b)) then "key"
    else if bool_decide (is_Some (_keys b)) then "keys"
    else if bool_decide (is_Some (_prefix b)) then "prefix"
    else if bool_decide (is_Some (_startKey b))
            && bool_decide (is_Some (_endKey b)) then "range"
    else "scan".
Proof.
  unfold getParams, type.
  destruct (_key b), (_keys b), (_prefix b), (_startKey b), (_endKey b);
    reflexivity.
Qed.

(** C2: for a builder made by any chain of calls on [ViewQuery.for(name)],
    the [type] of [getParams()] is "key" if [key] was called, else "keys"
    if [keys] was called, else "prefix" if [prefix] was called, else
    "range" if [range] was called, else "scan", in whatever order the
    calls were made. *)
Theorem shape_precedence (name : string) (cs : list Call) (b : ViewQuery) :
  chain cs (for_ name) = Ok b → type (getParams b) = precedence cs.
Proof.
  intros Hch. rewrite type_getParams.
  destruct (chain_slots _ _ _ Hch) as (-> & -> & -> & -> & ->).
  unfold precedence. simpl.
  destruct (existsb is_key cs), (existsb is_keys cs),
    (existsb is_prefix cs), (existsb is_range cs); reflexivity.
Qed.

Lemma shape_precedence_witness :
  chain [CPrefix [KStr "pre"]; CRange [KStr "a"] [KStr "b"];
         CGroup (LBool true); CKeys ["x"; "y"]; CSkip (of_Z 3)]
        (for_ "test-view")
    = Ok (skip (of_Z 3)
            (keys ["x"; "y"]
               (set_group true (Some (of_Z 0))
                  (range [KStr "a"] [KStr "b"]
                     (prefix [KStr "pre"] (for_ "test-view"))))))
  ∧ type (getParams
            (skip (of_Z 3)
               (keys ["x"; "y"]
                  (set_group true (Some (of_Z 0))
                     (range [KStr "a"] [KStr "b"]
                        (prefix [KStr "pre"] (for_ "test-view")))))))
    = precedence
        [CPrefix [KStr "pre"]; CRange [KStr "a"] [KStr "b"];
         CGroup (LBool true); CKeys ["x"; "y"]; CSkip (of_Z 3)].
Proof.
  split; [reflexivity|].
  apply (shape_precedence "test-view"). reflexivity.
Defined.

End ViewQueryProps.

(** * Properties of the store *)

Module KvProps.

Import Spec.

Section Store.
Context {V : Type}.
Implicit Types (E : gmap Key (V * Versionstamp)) (m : gmap Key V)
  (ms : list (Mutation V)) (k : Key) (kv : Store V).

Lemma apply_values_app ms1 ms2 m :
  apply_values (ms1 ++ ms2) m = apply_values ms2 (apply_values ms1 m).
Proof. apply foldl_app. Qed.

Lemma apply_mutations_app vs ms1 ms2 E :
  apply_mutations vs (ms1 ++ ms2) E
  = apply_mutations vs ms2 (apply_mutations vs ms1 E).
Proof. apply foldl_app. Qed.

Lemma values_apply_mutations vs ms E :
  fst <$> apply_mutations vs ms E = apply_values ms (fst <$> E).
Proof.
  revert E. induction ms as [|mu ms IH]; intros E; [done|].
  simpl. unfold apply_mutations, apply_values in *. simpl. rewrite IH.
  f_equal. destruct mu; simpl.
  - by rewrite fmap_insert.
  - by rewrite fmap_delete.
Qed.

Lemma apply_mutations_frame vs ms E k :
  k ∉ mutation_key <$> ms → apply_mutations vs ms E !! k = E !! k.
Proof.
  revert E. induction ms as [|mu ms IH]; intros E Hk; [done|].
  rewrite fmap_cons, not_elem_of_cons in Hk. destruct Hk as [Hne Hk].
  change (apply_mutations vs (mu :: ms) E)
    with (apply_mutations vs ms (apply_mutation vs E mu)).
  rewrite IH by done.
  destruct mu; simpl in *.
  - by rewrite lookup_insert_ne.
  - by rewrite lookup_delete_ne.
Qed.

Lemma apply_values_frame ms m k :
  k ∉ mutation_key <$> ms → apply_values ms m !! k = m !! k.
Proof.
  revert m. induction ms as [|mu ms IH]; intros m Hk; [done|].
  rewrite fmap_cons, not_elem_of_cons in Hk. destruct Hk as [Hne Hk].
  change (apply_values (mu :: ms) m)
    with (apply_values ms (apply_value m mu)).
  rewrite IH by done.
  destruct mu; simpl in *.
  - by rewrite lookup_insert_ne.
  - by rewrite lookup_delete_ne.
Qed.

Lemma apply_values_None ms m k :
  m !! k = None → (∀ v, MSet k v ∉ ms) → apply_values ms m !! k = None.
Proof.
  revert m. induction ms as [|mu ms IH]; intros m Hm Hset; [done|].
  change (apply_values (mu :: ms) m)
    with (apply_values ms (apply_value m mu)).
  apply IH.
  - destruct mu as [k' v|k']; simpl.
    + rewrite lookup_insert_ne; [done|]. intros ->. apply (Hset v). left.
    + destruct (decide (k' = k)) as [->|?].
      * apply lookup_delete_eq.
      * by rewrite lookup_delete_ne.
  - intros v Hin. apply (Hset v). by right.
Qed.

Lemma apply_values_deletes (ks : list Key) m k :
  apply_values (MDelete <$> ks) m !! k
  = if decide (k ∈ ks) then None else m !! k.
Proof.
  revert m. induction ks as [|k' ks IH]; intros m.
  - case_decide as Hin; [by apply elem_of_nil in Hin|done].
  - change (apply_values (MDelete <$> k' :: ks) m)
      with (apply_values (MDelete <$> ks) (delete k' m)).
    rewrite IH. clear IH.
    destruct (decide (k ∈ ks)) as [Hin|Hin],
             (decide (k ∈ k' :: ks)) as [Hin'|Hin']; try done.
    + exfalso. set_solver.
    + apply elem_of_cons in Hin' as [->|?]; [|done].
      apply lookup_delete_eq.
    + apply lookup_delete_ne. set_solver.
Qed.

(** A commit without checks succeeds. *)
Lemma commit_unchecked (a : AtomicOperation V) kv :
  checks a = [] →
  commit a kv
  = (Some (versionstamp_of (clock kv + 1)),
     {| entries :=
          apply_mutations (versionstamp_of (clock kv + 1)) (mutations a)
            (entries kv);
        clock := (clock kv + 1)%N;
        commits := commits kv ++ [mutations a] |}).
Proof. intros Hc. unfold commit. by rewrite Hc. Qed.

Lemma commit_failed (a : AtomicOperation V) kv :
  (commit a kv).1 = None → (commit a kv).2 = kv.
Proof. unfold commit. by destruct (forallb _ _). Qed.

Lemma values_commit_unchecked (a : AtomicOperation V) kv :
  checks a = [] →
  store_values (commit a kv).2
  = apply_values (mutations a) (store_values kv).
Proof.
  intros Hc. rewrite commit_unchecked by done. apply values_apply_mutations.
Qed.

Lemma store_values_lookup kv k :
  store_values kv !! k = fst <$> entries kv !! k.
Proof. apply lookup_fmap. Qed.

(** Listing. *)
Lemma elem_of_kv_list sel kv k x :
  (k, x) ∈ kv_list sel no_options kv
  ↔ entries kv !! k = Some x ∧ selects sel k = true.
Proof.
  unfold kv_list; simpl. rewrite merge_sort_Permutation.
  rewrite list_elem_of_filter, elem_of_map_to_list. simpl. tauto.
Qed.

Lemma NoDup_kv_list sel kv : NoDup (kv_list sel no_options kv).*1.
Proof.
  unfold kv_list; simpl. rewrite merge_sort_Permutation.
  eapply NoDup_fmap_fst.
  - intros k x y [_ Hx]%list_elem_of_filter [_ Hy]%list_elem_of_filter.
    apply elem_of_map_to_list in Hx, Hy. congruence.
  - apply NoDup_filter, NoDup_map_to_list.
Qed.

Lemma kv_list_nil sel kv :
  (∀ k x, entries kv !! k = Some x → selects sel k = false) →
  kv_list sel no_options kv = [].
Proof.
  intros Hno. destruct (kv_list sel no_options kv) as [|[k x] l] eqn:Hl; [done|].
  assert ((k, x) ∈ kv_list sel no_options kv) as Hin by (rewrite Hl; left).
  apply elem_of_kv_list in Hin as [Hk Hs]. rewrite (Hno _ _ Hk) in Hs. done.
Qed.

End Store.

End KvProps.

(** * View maintenance: one view, one document *)

Module CushionProps.

Import Cushion Spec KvProps.

Implicit Types (N V W i j : string) (k : Key) (VP : Key) (d : Doc)
  (od : option Doc) (f : MapFunction) (vals : gmap Key KvValue)
  (g : string → option Doc) (db : Cushion) (e : Emit) (lw : ViewLogic).

(** Key geometry: hypotheses and goals about prefixes of concrete key
    layouts are settled by unfolding the layouts. *)
Ltac key_unfold :=
  unfold in_view, getViewRefKey, getDocumentKey, getViewRefPrefix,
    getViewKey, getDesignKey, getDocPrefix, viewKey in *.

Ltac key_solve :=
  key_unfold;
  repeat match goal with
         | H : _ `prefix_of` _ |- _ => destruct H as [? H]; simpl in H
         | H : _ ∨ _ |- _ => destruct H
         | H : ¬ _ |- _ => exfalso; apply H; clear H
         | H : @eq (list KeyPart) _ _ |- _ => progress simpl in H
         | H : @eq Key _ _ |- _ => progress simpl in H
         end;
  simplify_eq; eauto using prefix_app_r, prefix_cons.

Lemma viewKey_prefix N W i e :
  getViewKey N W `prefix_of` viewKey (getViewKey N W) i e.
Proof. unfold viewKey. by apply prefix_app_r. Qed.

Lemma refKey_not_row N V W i : ¬ getViewKey N W `prefix_of` getViewRefKey N V i.
Proof. intros H. key_solve. Qed.

Lemma refKey_inj N V i j : getViewRefKey N V i = getViewRefKey N V j → i = j.
Proof. intros H. key_solve. Qed.

Lemma docKey_inj N i j : getDocumentKey N i = getDocumentKey N j → i = j.
Proof. intros H. key_solve. Qed.

Lemma docKey_no_view N W i : ¬ in_view N W (getDocumentKey N i).
Proof. intros H. key_solve. Qed.

Lemma designKey_no_view N W V : ¬ in_view N W (getDesignKey N V).
Proof. intros H. key_solve. Qed.

Lemma docPrefix_no_view N W k : getDocPrefix N `prefix_of` k → ¬ in_view N W k.
Proof. intros H1 H2. key_solve. Qed.

Lemma view_disjoint N V W k :
  V ≠ W → getViewKey N V `prefix_of` k → ¬ in_view N W k.
Proof. intros Hne H1 H2. key_solve. Qed.

Lemma ref_disjoint N V W i : V ≠ W → ¬ in_view N W (getViewRefKey N V i).
Proof. intros Hne H. key_solve. Qed.

Lemma designKey_not_row N V W : ¬ getViewKey N W `prefix_of` getDesignKey N V.
Proof. intros H. key_solve. Qed.

Lemma designKey_ne_refKey N V W i : getDesignKey N V ≠ getViewRefKey N W i.
Proof. intros H. key_solve. Qed.

Lemma designKey_ne_docKey N V i : getDesignKey N V ≠ getDocumentKey N i.
Proof. intros H. key_solve. Qed.

Lemma designKey_not_doc N V : ¬ getDocPrefix N `prefix_of` getDesignKey N V.
Proof. intros H. key_solve. Qed.

Lemma refKey_ne_bare N V W i : getViewRefKey N W i ≠ getViewKey N V.
Proof. intros H. key_solve. Qed.

Lemma designKey_ne_bare N V W : getDesignKey N V ≠ getViewKey N W.
Proof. intros H. key_solve. Qed.

Lemma docKey_ne_refKey N V i j : getDocumentKey N i ≠ getViewRefKey N V j.
Proof. intros H. key_solve. Qed.

Lemma docKey_ne_bare N V i : getDocumentKey N i ≠ getViewKey N V.
Proof. intros H. key_solve. Qed.

Lemma docKey_not_row N V i : ¬ getViewKey N V `prefix_of` getDocumentKey N i.
Proof. intros H. key_solve. Qed.

Lemma trailing_id_viewKey VP i e : trailing_id (viewKey VP i e) = Some i.
Proof.
  unfold trailing_id, viewKey. by rewrite app_assoc, last_snoc.
Qed.

(** The batches built by the loops. *)
Lemma delete_all_eq (ks : list Key) (a : AtomicOperation KvValue) :
  foldl (λ a k, atomic_delete k a) a ks
  = {| checks := checks a; mutations := mutations a ++ (MDelete <$> ks) |}.
Proof.
  revert a. induction ks as [|k ks IH]; intros a; simpl.
  - rewrite app_nil_r. by destruct a.
  - rewrite IH. simpl. by rewrite <- app_assoc.
Qed.

Lemma emit_all_eq VP i d (emits : list Emit) (a : AtomicOperation KvValue) :
  emit_all VP i d emits a
  = {| checks := checks a;
       mutations :=
         mutations a ++ ((λ e, MSet (viewKey VP i e) (row_of d e)) <$> emits) |}.
Proof.
  unfold emit_all. revert a. induction emits as [|e emits IH]; intros a; simpl.
  - rewrite app_nil_r. by destruct a.
  - rewrite IH. simpl. by rewrite <- app_assoc.
Qed.

Lemma old_keys_get (db : Cushion) (refKey : Key) :
  match kv_get refKey (kv db) with
  | Some (VKeys existing, _) =>
      foldl (λ a k, atomic_delete k a) (@atomic KvValue) existing
  | _ => atomic
  end
  = {| checks := [];
       mutations := MDelete <$> old_keys (store_values (kv db)) refKey |}.
Proof.
  unfold old_keys, kv_get. rewrite store_values_lookup.
  destruct (entries (kv db) !! refKey) as [[[] ?]|]; simpl; try done.
  by rewrite delete_all_eq.
Qed.

(** What one iteration of [updateViewsForDoc] commits. *)
Lemma updateView_kv i od db W lw :
  kv (updateView i od db (W, lw))
  = (commit
       {| checks := [];
          mutations :=
            update_mutations (namespace db) W (map_fn lw) i od
              (store_values (kv db)) |}
       (kv db)).2.
Proof.
  unfold updateView. cbn [fst snd]. rewrite old_keys_get.
  unfold update_mutations, doc_mutations.
  destruct od as [d|]; simpl; [|done].
  rewrite emit_all_eq. simpl. unfold atomic_set; simpl.
  by rewrite <- app_assoc.
Qed.

Lemma updateView_namespace i od db (x : string * ViewLogic) :
  namespace (updateView i od db x) = namespace db.
Proof. unfold updateView. by destruct od. Qed.

Lemma updateView_views i od db (x : string * ViewLogic) :
  views (updateView i od db x) = views db.
Proof. unfold updateView. by destruct od. Qed.

Lemma updateView_map_calls i od db W lw :
  map_calls (updateView i od db (W, lw))
  = map_calls db ++ match od with Some d => [(W, d)] | None => [] end.
Proof. unfold updateView. destruct od; simpl; [done|by rewrite app_nil_r]. Qed.

Lemma update_mutations_keys N W f i od vals :
  (∀ k, k ∈ old_keys vals (getViewRefKey N W i) →
        getViewKey N W `prefix_of` k) →
  ∀ mu, mu ∈ update_mutations N W f i od vals →
        getViewKey N W `prefix_of` mutation_key mu
        ∨ mutation_key mu = getViewRefKey N W i.
Proof.
  intros Hold mu. unfold update_mutations, doc_mutations.
  rewrite elem_of_app. intros [Hin|Hin].
  - apply list_elem_of_fmap in Hin as (k & -> & Hk). left. by apply Hold.
  - destruct od as [d|].
    + apply elem_of_app in Hin as [Hin|Hin].
      * apply list_elem_of_fmap in Hin as (e & -> & He). left.
        apply viewKey_prefix.
      * apply list_elem_of_singleton in Hin as ->. by right.
    + apply list_elem_of_singleton in Hin as ->. by right.
Qed.

Lemma update_mutations_sets N W f i od vals k (v : KvValue) :
  MSet k v ∈ update_mutations N W f i od vals →
  (∃ e, k = viewKey (getViewKey N W) i e) ∨ k = getViewRefKey N W i.
Proof.
  unfold update_mutations, doc_mutations. rewrite elem_of_app.
  intros [Hin|Hin].
  - by apply list_elem_of_fmap in Hin as (? & ? & ?).
  - destruct od as [d|].
    + apply elem_of_app in Hin as [Hin|Hin].
      * apply list_elem_of_fmap in Hin as (e & [= -> _] & _). eauto.
      * apply list_elem_of_singleton in Hin as [= -> _]. by right.
    + by apply list_elem_of_singleton in Hin.
Qed.

Lemma viewKey_not_bare N V W i e :
  getViewKey N V ≠ viewKey (getViewKey N W) i e.
Proof.
  intros H. apply (f_equal length) in H. revert H. unfold viewKey.
  rewrite !length_app. simpl. lia.
Qed.

Lemma RefsWf_old_keys N vals W i :
  RefsWf N vals →
  ∀ k, k ∈ old_keys vals (getViewRefKey N W i) → getViewKey N W `prefix_of` k.
Proof.
  intros Hwf k. unfold old_keys.
  destruct (vals !! getViewRefKey N W i) as [[]|] eqn:Hv;
    try by intros ?%elem_of_nil.
  by apply (Hwf W i ks).
Qed.

Lemma update_mutations_frame N W f i od vals k :
  RefsWf N vals → ¬ in_view N W k →
  k ∉ mutation_key <$> update_mutations N W f i od vals.
Proof.
  intros Hwf Hk (mu & -> & Hin)%list_elem_of_fmap.
  apply Hk.
  destruct (update_mutations_keys _ _ _ _ _ _ (RefsWf_old_keys _ _ _ _ Hwf)
              _ Hin) as [H|H].
  - by left.
  - right. rewrite H. unfold getViewRefKey. by apply prefix_app_r.
Qed.

Lemma updateView_frame i od db W lw k :
  RefsWf (namespace db) (store_values (kv db)) →
  ¬ in_view (namespace db) W k →
  entries (kv (updateView i od db (W, lw))) !! k = entries (kv db) !! k.
Proof.
  intros Hwf Hk. rewrite updateView_kv, commit_unchecked by done. simpl.
  apply apply_mutations_frame. by apply update_mutations_frame.
Qed.

Lemma updateView_values i od db W lw :
  store_values (kv (updateView i od db (W, lw)))
  = apply_values
      (update_mutations (namespace db) W (map_fn lw) i od
         (store_values (kv db)))
      (store_values (kv db)).
Proof. rewrite updateView_kv. by apply values_commit_unchecked. Qed.

(** *** One view, one document: the step that keeps a view in step *)

Lemma apply_values_sets VP i d (emits : list Emit) (m : gmap Key KvValue) k :
  apply_values ((λ e, MSet (viewKey VP i e) (row_of d e)) <$> emits) m !! k
  = match last_emit VP i emits k with
    | Some e => Some (row_of d e)
    | None => m !! k
    end.
Proof.
  unfold last_emit. induction emits as [|e emits IH] using rev_ind; [done|].
  rewrite fmap_app, apply_values_app, filter_app. simpl.
  destruct (decide (viewKey VP i e = k)) as [Hk|Hk].
  - rewrite filter_cons_True by done. rewrite filter_nil, last_snoc.
    subst k. apply lookup_insert_eq.
  - rewrite filter_cons_False by done. rewrite filter_nil, app_nil_r.
    by rewrite lookup_insert_ne.
Qed.

Lemma last_emit_Some VP i emits k e :
  last_emit VP i emits k = Some e → e ∈ emits ∧ viewKey VP i e = k.
Proof.
  unfold last_emit. intros Hl.
  assert (e ∈ filter (λ e, viewKey VP i e = k) emits) as Hin.
  { by apply last_Some_elem_of. }
  apply list_elem_of_filter in Hin. tauto.
Qed.

Lemma last_emit_None VP i emits k :
  last_emit VP i emits k = None ↔ k ∉ viewKey VP i <$> emits.
Proof.
  unfold last_emit. rewrite last_None. split.
  - intros Hnil (e & -> & He)%list_elem_of_fmap.
    assert (e ∈ filter (λ e', viewKey VP i e' = viewKey VP i e) emits) as Hin
      by by apply list_elem_of_filter.
    rewrite Hnil in Hin. by apply elem_of_nil in Hin.
  - intros Hk.
    destruct (filter (λ e, viewKey VP i e = k) emits) as [|e l] eqn:Hf; [done|].
    assert (e ∈ filter (λ e, viewKey VP i e = k) emits) as Hin
      by (rewrite Hf; left).
    apply list_elem_of_filter in Hin as [Heq Hin].
    exfalso. apply Hk, list_elem_of_fmap. eauto.
Qed.

Lemma last_emit_other VP i emits k :
  trailing_id k ≠ Some i → last_emit VP i emits k = None.
Proof.
  intros Hk. destruct (last_emit VP i emits k) as [e|] eqn:He; [|done].
  apply last_emit_Some in He as [_ He]. subst k.
  by rewrite trailing_id_viewKey in Hk.
Qed.

Lemma expected_row_upd_other N W f g i od k :
  trailing_id k ≠ Some i →
  expected_row N W f (upd i od g) k = expected_row N W f g k.
Proof.
  intros Hk. unfold expected_row, upd.
  destruct (trailing_id k) as [j|]; simpl; [|done].
  rewrite decide_False; [done|congruence].
Qed.

Lemma old_keys_sync N vals W f g i :
  ValSync N vals W f g →
  old_keys vals (getViewRefKey N W i)
  = match g i with
    | Some d => viewKey (getViewKey N W) i <$> run f d
    | None => []
    end.
Proof.
  intros [_ Hrefs]. unfold old_keys. rewrite Hrefs. unfold expected_ref.
  by destruct (g i).
Qed.

Lemma ValSync_old_keys N vals W f g i :
  ValSync N vals W f g →
  ∀ k, k ∈ old_keys vals (getViewRefKey N W i) → getViewKey N W `prefix_of` k.
Proof.
  intros Hs k. rewrite (old_keys_sync _ _ _ _ _ _ Hs).
  destruct (g i); [|by intros ?%elem_of_nil].
  intros (e & -> & _)%list_elem_of_fmap. apply viewKey_prefix.
Qed.

(** After the deletions named by the back-reference of [i], no row of [i]
    is left and the other rows stand. *)
Lemma deleted_rows N vals W f g i k :
  ValSync N vals W f g →
  getViewKey N W `prefix_of` k →
  apply_values (MDelete <$> old_keys vals (getViewRefKey N W i)) vals !! k
  = if decide (trailing_id k = Some i) then None else expected_row N W f g k.
Proof.
  intros Hs Hk. rewrite apply_values_deletes.
  rewrite (old_keys_sync _ _ _ _ _ _ Hs), (sync_rows _ _ _ _ _ Hs) by done.
  destruct (decide (trailing_id k = Some i)) as [Hi|Hi].
  - case_decide as Hin; [done|].
    unfold expected_row. rewrite Hi. simpl.
    destruct (g i) as [dold|]; simpl; [|done].
    apply last_emit_None in Hin. by rewrite Hin.
  - rewrite decide_False; [done|].
    destruct (g i); [|by intros ?%elem_of_nil].
    intros (e & -> & _)%list_elem_of_fmap.
    by rewrite trailing_id_viewKey in Hi.
Qed.

Lemma update_values_ref N W f i od vals :
  apply_values (update_mutations N W f i od vals) vals !! getViewRefKey N W i
  = (λ d, VKeys (viewKey (getViewKey N W) i <$> run f d)) <$> od.
Proof.
  unfold update_mutations, doc_mutations. destruct od as [d|]; simpl.
  - rewrite !app_assoc, apply_values_app. simpl. apply lookup_insert_eq.
  - rewrite apply_values_app. simpl. apply lookup_delete_eq.
Qed.

Lemma update_values_row N W f i od vals k :
  getViewKey N W `prefix_of` k →
  apply_values (update_mutations N W f i od vals) vals !! k
  = match od ≫= λ d, row_of d <$> last_emit (getViewKey N W) i (run f d) k with
    | Some v => Some v
    | None =>
        apply_values (MDelete <$> old_keys vals (getViewRefKey N W i)) vals
          !! k
    end.
Proof.
  intros Hk. unfold update_mutations, doc_mutations.
  assert (getViewRefKey N W i ≠ k) as Hne.
  { intros <-. by apply refKey_not_row in Hk. }
  destruct od as [d|]; simpl.
  - rewrite !app_assoc, apply_values_app. simpl.
    rewrite lookup_insert_ne by done.
    rewrite apply_values_app, apply_values_sets.
    by destruct (last_emit _ _ _ _).
  - rewrite apply_values_app. simpl. by rewrite lookup_delete_ne.
Qed.

Lemma update_values_other_ref N W f i od vals j :
  (∀ k, k ∈ old_keys vals (getViewRefKey N W i) →
        getViewKey N W `prefix_of` k) →
  j ≠ i →
  apply_values (update_mutations N W f i od vals) vals !! getViewRefKey N W j
  = vals !! getViewRefKey N W j.
Proof.
  intros Hold Hne. apply apply_values_frame.
  intros (mu & Hmu & Hin)%list_elem_of_fmap.
  destruct (update_mutations_keys _ _ _ _ _ _ Hold _ Hin) as [H|H].
  - rewrite <- Hmu in H. by apply refKey_not_row in H.
  - rewrite <- Hmu in H. by apply refKey_inj in H.
Qed.

Lemma sync_step N vals W f g i od :
  ValSync N vals W f g →
  ValSync N (apply_values (update_mutations N W f i od vals) vals) W f
          (upd i od g).
Proof.
  intros Hs. split.
  - intros k Hk. rewrite update_values_row by done.
    rewrite (deleted_rows _ _ _ _ _ _ _ Hs Hk).
    destruct (decide (trailing_id k = Some i)) as [Hi|Hi].
    + unfold expected_row, upd. rewrite Hi. simpl.
      rewrite decide_True by done.
      by destruct (od ≫= _).
    + rewrite expected_row_upd_other by done.
      destruct od as [d|]; simpl; [|done].
      by rewrite last_emit_other.
  - intros j. unfold expected_ref, upd. destruct (decide (j = i)) as [->|Hne].
    + apply update_values_ref.
    + rewrite update_values_other_ref;
        [apply (sync_refs _ _ _ _ _ Hs)|by eapply ValSync_old_keys|done].
Qed.

(** Another view is not touched. *)
Lemma sync_frame N vals V W f f' g i od :
  V ≠ W →
  (∀ k, k ∈ old_keys vals (getViewRefKey N W i) →
        getViewKey N W `prefix_of` k) →
  ValSync N vals V f g →
  ValSync N (apply_values (update_mutations N W f' i od vals) vals) V f g.
Proof.
  intros Hne Hold [Hrows Hrefs].
  assert (∀ k, ¬ in_view N W k →
               apply_values (update_mutations N W f' i od vals) vals !! k
               = vals !! k) as Hframe.
  { intros k Hk. apply apply_values_frame.
    intros (mu & -> & Hin)%list_elem_of_fmap. apply Hk.
    destruct (update_mutations_keys _ _ _ _ _ _ Hold _ Hin) as [H|H].
    - by left.
    - right. rewrite H. unfold getViewRefKey. by apply prefix_app_r. }
  split.
  - intros k Hk. rewrite Hframe; [by apply Hrows|by eapply view_disjoint].
  - intros j. rewrite Hframe; [by apply Hrefs|by apply ref_disjoint].
Qed.

Lemma ValSync_ext N vals V f g g' :
  (∀ i, g i = g' i) → ValSync N vals V f g → ValSync N vals V f g'.
Proof.
  intros Hg [Hrows Hrefs]. split.
  - intros k Hk. rewrite Hrows by done. unfold expected_row.
    destruct (trailing_id k); simpl; [|done]. by rewrite Hg.
  - intros i. rewrite Hrefs. unfold expected_ref. by rewrite Hg.
Qed.

End CushionProps.

(** * Document operations and well-formed stores *)

Module DocProps.

Import Cushion Spec KvProps CushionProps.

Implicit Types (N V W i j : string) (k : Key) (VP : Key) (d : Doc)
  (od : option Doc) (f : MapFunction) (vals : gmap Key KvValue)
  (g : string → option Doc) (db : Cushion) (e : Emit) (lw : ViewLogic)
  (kv : Store KvValue).

(** *** Well-formedness is kept by view maintenance *)

Lemma updateView_Wf i od db W lw : Wf db → Wf (updateView i od db (W, lw)).
Proof.
  intros (Hdocs & Hrefs & Hrows). unfold Wf.
  rewrite updateView_namespace, updateView_values. split; [|split].
  - intros k v Hk. rewrite apply_values_frame; [by apply Hdocs|].
    apply update_mutations_frame; [done|by apply docPrefix_no_view].
  - intros V j ks Hv k' Hin.
    destruct (decide (V = W)) as [->|HVW].
    + destruct (decide (j = i)) as [->|Hji].
      * rewrite update_values_ref in Hv.
        destruct od as [d|]; simplify_eq/=.
        apply list_elem_of_fmap in Hin as (e & -> & _). apply viewKey_prefix.
      * rewrite update_values_other_ref in Hv;
          [by eapply Hrefs|by apply RefsWf_old_keys|done].
    + rewrite apply_values_frame in Hv; [by eapply Hrefs|].
      apply update_mutations_frame; [done|by apply ref_disjoint].
  - intros V. apply apply_values_None; [apply Hrows|].
    intros v [[e He]|He]%update_mutations_sets.
    + by apply viewKey_not_bare in He.
    + symmetry in He. by apply refKey_ne_bare in He.
Qed.

Lemma updateViews_fold (l : list (string * ViewLogic)) i od db :
  Wf db →
  Wf (foldl (updateView i od) db l)
  ∧ namespace (foldl (updateView i od) db l) = namespace db
  ∧ views (foldl (updateView i od) db l) = views db
  ∧ ∀ k, (∀ W, ¬ in_view (namespace db) W k) →
         entries (kv (foldl (updateView i od) db l)) !! k
         = entries (kv db) !! k.
Proof.
  revert db. induction l as [|[W lw] l IH]; intros db Hwf; [done|].
  cbn [fold_left].
  destruct (IH _ (updateView_Wf i od db W lw Hwf)) as (H1 & H2 & H3 & H4).
  rewrite updateView_namespace in H2, H4. rewrite updateView_views in H3.
  split; [done|]. split; [done|]. split; [done|].
  intros k Hk. rewrite H4 by done.
  apply updateView_frame; [apply Hwf|apply Hk].
Qed.

Lemma updateViewsForDoc_Wf i od db : Wf db → Wf (updateViewsForDoc i od db).
Proof. intros Hwf. by apply updateViews_fold. Qed.

Lemma updateViewsForDoc_namespace i od db :
  Wf db → namespace (updateViewsForDoc i od db) = namespace db.
Proof. intros Hwf. by apply updateViews_fold. Qed.

Lemma updateViewsForDoc_views i od db :
  Wf db → views (updateViewsForDoc i od db) = views db.
Proof. intros Hwf. by apply updateViews_fold. Qed.

Lemma updateViewsForDoc_doc i od db j :
  Wf db →
  entries (kv (updateViewsForDoc i od db)) !! getDocumentKey (namespace db) j
  = entries (kv db) !! getDocumentKey (namespace db) j.
Proof.
  intros Hwf. apply updateViews_fold; [done|].
  intros W. apply docKey_no_view.
Qed.

Lemma updateViewsForDoc_design i od db V :
  Wf db →
  entries (kv (updateViewsForDoc i od db)) !! getDesignKey (namespace db) V
  = entries (kv db) !! getDesignKey (namespace db) V.
Proof.
  intros Hwf. apply updateViews_fold; [done|].
  intros W. apply designKey_no_view.
Qed.

(** *** The commit of a document *)

Lemma versionstamp_at_None kv k :
  versionstamp_at k kv = None ↔ kv_get k kv = None.
Proof. unfold versionstamp_at, kv_get. apply fmap_None. Qed.

Lemma commit_guarded (mu : Mutation KvValue) (c : Check) kv :
  commit {| checks := [c]; mutations := [mu] |} kv
  = if decide (versionstamp_at (check_key c) kv = check_versionstamp c)
    then (Some (next_versionstamp kv), committed mu kv)
    else (None, kv).
Proof.
  unfold commit, check_passes. simpl. rewrite andb_true_r.
  destruct (decide (_ = _)) as [Heq|Hne].
  - by rewrite bool_decide_eq_true_2.
  - by rewrite bool_decide_eq_false_2.
Qed.

Lemma store_values_committed (mu : Mutation KvValue) kv :
  store_values (committed mu kv) = apply_value (store_values kv) mu.
Proof.
  unfold store_values, committed. simpl. destruct mu; simpl.
  - by rewrite fmap_insert.
  - by rewrite fmap_delete.
Qed.

Lemma Wf_set_doc i d db :
  d !! "_id" = Some (JStr i) → d !! "_rev" = None → Wf db →
  Wf (with_kv (committed (MSet (getDocumentKey (namespace db) i) (VDoc d))
                 (kv db)) db).
Proof.
  intros Hid Hrev (Hdocs & Hrefs & Hrows). unfold Wf. simpl.
  rewrite store_values_committed. simpl. split; [|split].
  - intros k v Hk. destruct (decide (k = getDocumentKey (namespace db) i)) as [->|Hne].
    + rewrite lookup_insert_eq. intros [= <-]. eauto 10.
    + rewrite lookup_insert_ne by done. by apply Hdocs.
  - intros V j ks. rewrite lookup_insert_ne; [apply Hrefs|].
    apply docKey_ne_refKey.
  - intros V. rewrite lookup_insert_ne; [apply Hrows|].
    apply docKey_ne_bare.
Qed.

Lemma Wf_delete_doc i db :
  Wf db →
  Wf (with_kv (committed (MDelete (getDocumentKey (namespace db) i)) (kv db))
        db).
Proof.
  intros (Hdocs & Hrefs & Hrows). unfold Wf. simpl.
  rewrite store_values_committed. simpl. split; [|split].
  - intros k v Hk. destruct (decide (k = getDocumentKey (namespace db) i)) as [->|Hne].
    + by rewrite lookup_delete_eq.
    + rewrite lookup_delete_ne by done. by apply Hdocs.
  - intros V j ks. rewrite lookup_delete_ne; [apply Hrefs|].
    apply docKey_ne_refKey.
  - intros V. rewrite lookup_delete_ne; [apply Hrows|].
    apply docKey_ne_bare.
Qed.

(** *** The three document operations, case by case *)

Lemma insert_id_field d uuid (v : JsValue) :
  d !! "_id" = Some v → truthy v = false → insert_id d uuid = uuid.
Proof.
  intros Hv Hf. unfold insert_id. rewrite Hv.
  destruct v; try done. by rewrite Hf.
Qed.

Lemma insert_cases uuid d db :
  let i := insert_id d uuid in
  let key := getDocumentKey (namespace db) i in
  let stored := <["_id" := JStr i]> d in
  insert uuid d db =
    if decide (is_Some (d !! "_rev")) then (Err UnexpectedRev, db)
    else if decide (kv_get key (kv db) = None) then
      (Ok {| ok := true; id := i; rev := next_versionstamp (kv db) |},
       updateViewsForDoc i
         (Some (<["_rev" := JStr (next_versionstamp (kv db))]> stored))
         (with_kv (committed (MSet key (VDoc stored)) (kv db)) db))
    else (Err DuplicateDocument, db).
Proof.
  intros i key stored. unfold insert. fold i. fold key. fold stored.
  destruct (decide (is_Some _)); [done|].
  change (atomic_set key (VDoc stored)
            (atomic_check {| check_key := key; check_versionstamp := None |}
               atomic))
    with ({| checks := [{| check_key := key; check_versionstamp := None |}];
             mutations := [MSet key (VDoc stored)] |}).
  rewrite commit_guarded. simpl.
  destruct (decide (kv_get key (kv db) = None)) as [Hn|Hn].
  - by rewrite decide_True by by apply versionstamp_at_None.
  - rewrite decide_False; [done|]. by rewrite versionstamp_at_None.
Qed.

Lemma replace_cases i rev d db :
  let key := getDocumentKey (namespace db) i in
  let stored := <["_id" := JStr i]> (delete "_rev" d) in
  replace i rev d db =
    if decide (versionstamp_at key (kv db) = Some rev) then
      (Ok {| ok := true; id := i; rev := next_versionstamp (kv db) |},
       updateViewsForDoc i
         (Some (<["_rev" := JStr (next_versionstamp (kv db))]> stored))
         (with_kv (committed (MSet key (VDoc stored)) (kv db)) db))
    else (Err RevisionConflict, db).
Proof.
  intros key stored. unfold replace. fold key. fold stored.
  change (atomic_set key (VDoc stored)
            (atomic_check {| check_key := key;
                             check_versionstamp := Some rev |} atomic))
    with ({| checks := [{| check_key := key;
                           check_versionstamp := Some rev |}];
             mutations := [MSet key (VDoc stored)] |}).
  rewrite commit_guarded. simpl. by destruct (decide _).
Qed.

Lemma remove_cases i rev db :
  let key := getDocumentKey (namespace db) i in
  remove i rev db =
    if decide (versionstamp_at key (kv db) = Some rev) then
      (Ok true,
       updateViewsForDoc i None
         (with_kv (committed (MDelete key) (kv db)) db))
    else (Err RevisionConflict, db).
Proof.
  intros key. unfold remove. fold key.
  change (atomic_delete key
            (atomic_check {| check_key := key;
                             check_versionstamp := Some rev |}
               (@atomic KvValue)))
    with ({| checks := [{| check_key := key;
                           check_versionstamp := Some rev |}];
             mutations := [@MDelete KvValue key] |}).
  rewrite commit_guarded. simpl. by destruct (decide _).
Qed.

Lemma stored_insert_fields i d :
  d !! "_rev" = None →
  (<["_id" := JStr i]> d) !! "_id" = Some (JStr i)
  ∧ (<["_id" := JStr i]> d) !! "_rev" = None.
Proof. intros Hd. split; [apply lookup_insert_eq|by rewrite lookup_insert_ne]. Qed.

Lemma stored_replace_fields i d :
  (<["_id" := JStr i]> (delete "_rev" d)) !! "_id" = Some (JStr i)
  ∧ (<["_id" := JStr i]> (delete "_rev" d)) !! "_rev" = None.
Proof.
  split; [apply lookup_insert_eq|].
  rewrite lookup_insert_ne by done. apply lookup_delete_eq.
Qed.

Lemma Wf_insert uuid d db : Wf db → Wf (insert uuid d db).2.
Proof.
  intros Hwf. rewrite insert_cases.
  destruct (decide (is_Some _)) as [|Hrev]; [done|].
  destruct (decide (_ = None)); [|done]. simpl.
  apply eq_None_not_Some in Hrev.
  apply updateViewsForDoc_Wf, Wf_set_doc; [..|done];
    by apply stored_insert_fields.
Qed.

Lemma Wf_replace i rev d db : Wf db → Wf (replace i rev d db).2.
Proof.
  intros Hwf. rewrite replace_cases. destruct (decide _); [|done]. simpl.
  apply updateViewsForDoc_Wf, Wf_set_doc; [..|done];
    apply stored_replace_fields.
Qed.

Lemma Wf_remove i rev db : Wf db → Wf (remove i rev db).2.
Proof.
  intros Hwf. rewrite remove_cases. destruct (decide _); [|done]. simpl.
  by apply updateViewsForDoc_Wf, Wf_delete_doc.
Qed.

Lemma Wf_step db (op : Op) : Wf db → Wf (step db op).
Proof.
  destruct op; simpl; [apply Wf_insert|apply Wf_replace|apply Wf_remove].
Qed.

Lemma Wf_run_ops (ops : list Op) db : Wf db → Wf (run_ops ops db).
Proof.
  revert db. induction ops as [|op ops IH]; intros db Hwf; [done|].
  simpl. by apply IH, Wf_step.
Qed.

Lemma Wf_open N : Wf (open N empty_store).
Proof. repeat split; intros ?; intros; simplify_map_eq. Qed.

Lemma get_lookup i db :
  get i db
  = (λ x, <["_rev" := JStr x.2]> (as_doc x.1))
      <$> entries (kv db) !! getDocumentKey (namespace db) i.
Proof.
  unfold get, kv_get. by destruct (entries (kv db) !! _) as [[]|].
Qed.

End DocProps.

(** * The loops of [rebuildView] *)

Module RebuildProps.

Import Cushion Spec KvProps CushionProps DocProps.

Implicit Types (N V W i j : string) (k : Key) (VP : Key) (d : Doc)
  (od : option Doc) (f : MapFunction) (vals : gmap Key KvValue)
  (g : string → option Doc) (db : Cushion) (e : Emit) (lw : ViewLogic)
  (kv : Store KvValue).

(** *** The deletion loop *)

Lemma del_ok_init kv : del_ok (atomic, 0%nat, kv).
Proof. by repeat split. Qed.

Lemma delete_entry_eff acc k :
  del_ok acc →
  del_ok (delete_entry acc k)
  ∧ eff (delete_entry acc k).1.1 (delete_entry acc k).2
    = delete k (eff acc.1.1 acc.2).
Proof.
  destruct acc as [[b c] kv]. intros (Hc & Hz & Hsub). simpl in *.
  unfold delete_entry. simpl. case_decide as Hfull; simpl.
  - assert (store_values (commit (atomic_delete k b) kv).2
            = delete k (eff b kv)) as Heq.
    { rewrite values_commit_unchecked by done. unfold eff. simpl.
      by rewrite apply_values_app. }
    unfold del_ok, eff. simpl. by rewrite Heq.
  - unfold del_ok, eff in *. simpl. rewrite apply_values_app. simpl.
    repeat split; try done.
    etrans; [apply delete_subseteq|done].
Qed.

Lemma delete_entries_eff (ks : list Key) acc :
  del_ok acc →
  del_ok (foldl delete_entry acc ks)
  ∧ eff (foldl delete_entry acc ks).1.1 (foldl delete_entry acc ks).2
    = apply_values (MDelete <$> ks) (eff acc.1.1 acc.2).
Proof.
  revert acc. induction ks as [|k ks IH]; intros acc Hok; [done|].
  change (foldl delete_entry acc (k :: ks))
    with (foldl delete_entry (delete_entry acc k) ks).
  destruct (delete_entry_eff acc k Hok) as [Hok' Heq].
  destruct (IH _ Hok') as [Hok'' Heq'].
  split; [done|]. by rewrite Heq', Heq.
Qed.

Lemma delete_prefix_eff acc (p : Key) :
  del_ok acc →
  del_ok (delete_prefix acc p)
  ∧ ∀ k, eff (delete_prefix acc p).1.1 (delete_prefix acc p).2 !! k
         = if selects (SelPrefix p) k then None else eff acc.1.1 acc.2 !! k.
Proof.
  intros Hok. unfold delete_prefix.
  destruct (delete_entries_eff
              (kv_list (SelPrefix p) no_options acc.2).*1 acc Hok)
    as [Hok' Heq].
  split; [done|]. intros k. rewrite Heq, apply_values_deletes.
  destruct Hok as (_ & _ & Hsub).
  case_decide as Hin.
  - apply list_elem_of_fmap in Hin as ([k' x] & Hk & Hin).
    simpl in Hk. subst k'.
    apply elem_of_kv_list in Hin as [_ ->]. done.
  - destruct (selects (SelPrefix p) k) eqn:Hsel; [|done].
    destruct (eff acc.1.1 acc.2 !! k) as [v|] eqn:Hv; [|done].
    exfalso. apply Hin.
    eapply lookup_weaken in Hv; [|done].
    rewrite store_values_lookup in Hv.
    destruct (entries acc.2 !! k) as [x|] eqn:Hx; [|done].
    apply list_elem_of_fmap. exists (k, x). split; [done|].
    by apply elem_of_kv_list.
Qed.

Lemma flush_eff (b : AtomicOperation KvValue) (c : nat) kv :
  checks b = [] → (c = 0%nat → mutations b = []) →
  store_values (if decide (0 < c)%nat then (commit b kv).2 else kv)
  = eff b kv.
Proof.
  intros Hc Hz. case_decide as Hpos.
  - by apply values_commit_unchecked.
  - unfold eff. rewrite Hz; [done|lia].
Qed.

Lemma after_delete_values V db k :
  store_values (after_delete V db) !! k
  = if selects (SelPrefix (getViewKey (namespace db) V)) k
       || selects (SelPrefix (getViewRefPrefix (namespace db) V)) k
    then None
    else store_values (kv db) !! k.
Proof.
  unfold after_delete.
  change (foldl delete_prefix (atomic, 0%nat, kv db)
            [getViewKey (namespace db) V; getViewRefPrefix (namespace db) V])
    with (delete_prefix
            (delete_prefix (atomic, 0%nat, kv db)
               (getViewKey (namespace db) V))
            (getViewRefPrefix (namespace db) V)).
  destruct (delete_prefix_eff (atomic, 0%nat, kv db)
              (getViewKey (namespace db) V) (del_ok_init _)) as [Hok1 H1].
  destruct (delete_prefix_eff _ (getViewRefPrefix (namespace db) V) Hok1)
    as [Hok2 H2].
  rewrite flush_eff; [|apply Hok2..].
  rewrite H2, H1.
  destruct (selects (SelPrefix (getViewKey _ _)) k),
    (selects (SelPrefix (getViewRefPrefix _ _)) k); done.
Qed.

(** *** The document loop *)

Lemma rebuild_doc_eff V f (acc : AtomicOperation KvValue * nat * Cushion) d :
  build_ok acc →
  build_ok (rebuild_doc V f acc d)
  ∧ eff (rebuild_doc V f acc d).1.1 (kv (rebuild_doc V f acc d).2)
    = doc_step (namespace acc.2) V f (eff acc.1.1 (kv acc.2)) d
  ∧ namespace (rebuild_doc V f acc d).2 = namespace acc.2
  ∧ views (rebuild_doc V f acc d).2 = views acc.2.
Proof.
  destruct acc as [[b c] db]. intros [Hc Hz]. simpl in *.
  unfold rebuild_doc, doc_step, doc_mutations. simpl.
  rewrite emit_all_eq.
  case_decide as Hfull; simpl.
  - unfold build_ok, eff. simpl.
    rewrite values_commit_unchecked by done. simpl.
    by rewrite <- app_assoc, apply_values_app.
  - unfold build_ok, eff. simpl.
    rewrite <- app_assoc, apply_values_app. done.
Qed.

Lemma rebuild_docs_eff V f (ds : list Doc)
    (acc : AtomicOperation KvValue * nat * Cushion) :
  build_ok acc →
  build_ok (foldl (rebuild_doc V f) acc ds)
  ∧ eff (foldl (rebuild_doc V f) acc ds).1.1
        (kv (foldl (rebuild_doc V f) acc ds).2)
    = foldl (doc_step (namespace acc.2) V f) (eff acc.1.1 (kv acc.2)) ds
  ∧ namespace (foldl (rebuild_doc V f) acc ds).2 = namespace acc.2
  ∧ views (foldl (rebuild_doc V f) acc ds).2 = views acc.2.
Proof.
  revert acc. induction ds as [|d ds IH]; intros acc Hok; [done|].
  change (foldl (rebuild_doc V f) acc (d :: ds))
    with (foldl (rebuild_doc V f) (rebuild_doc V f acc d) ds).
  destruct (rebuild_doc_eff V f acc d Hok) as (Hok' & Heq & Hns & Hvs).
  destruct (IH _ Hok') as (Hok'' & Heq' & Hns' & Hvs').
  split; [done|]. rewrite Heq', Heq, Hns', Hvs', Hns, Hvs. done.
Qed.

(** The values of the store after [rebuildView]. *)
Lemma rebuildView_values V f sig db :
  store_values (kv (rebuildView V f sig db))
  = <[getDesignKey (namespace db) V
      := VState {| signature := sig; state := ready |}]>
      (foldl (doc_step (namespace db) V f)
         (store_values (after_delete V db))
         (listed_docs (namespace db) (after_delete V db)))
  ∧ namespace (rebuildView V f sig db) = namespace db
  ∧ views (rebuildView V f sig db) = views db.
Proof.
  unfold rebuildView. fold (after_delete V db).
  fold (listed_docs (namespace db) (after_delete V db)).
  set (kv1 := after_delete V db).
  set (docs := listed_docs (namespace db) kv1).
  destruct (rebuild_docs_eff V f docs (atomic, 0%nat, with_kv kv1 db))
    as ((Hc & Hz) & Heq & Hns & Hvs); [done|].
  cbn [fst snd namespace kv with_kv views] in Heq, Hns, Hvs.
  set (built := foldl (rebuild_doc V f) (atomic, 0%nat, with_kv kv1 db) docs)
    in *.
  assert (store_values
            (kv (if decide (0 < built.1.2)%nat
                 then with_kv (commit built.1.1 (kv built.2)).2 built.2
                 else built.2))
          = foldl (doc_step (namespace db) V f) (store_values kv1) docs
          ∧ namespace (if decide (0 < built.1.2)%nat
                 then with_kv (commit built.1.1 (kv built.2)).2 built.2
                 else built.2) = namespace db
          ∧ views (if decide (0 < built.1.2)%nat
                 then with_kv (commit built.1.1 (kv built.2)).2 built.2
                 else built.2) = views db) as (Hv & Hn & Hw).
  { change (eff atomic kv1) with (store_values kv1) in Heq.
    rewrite <- Heq.
    case_decide as Hpos; cbn [fst snd namespace kv with_kv views].
    - by rewrite values_commit_unchecked.
    - split; [|done]. unfold eff. rewrite Hz; [done|lia]. }
  cbn [fst snd namespace kv with_kv views]. split; [|done].
  unfold kv_set. rewrite values_commit_unchecked by done.
  cbn [mutations atomic_set atomic app]. rewrite Hv. done.
Qed.

End RebuildProps.

(** * [rebuildView] brings a view in step with the stored documents *)

Module RebuildSync.

Import Cushion Spec KvProps CushionProps DocProps RebuildProps.

Implicit Types (N V W i j : string) (k : Key) (VP : Key) (d : Doc)
  (od : option Doc) (f : MapFunction) (vals : gmap Key KvValue)
  (g : string → option Doc) (db : Cushion) (e : Emit) (lw : ViewLogic)
  (kv : Store KvValue) (ds : list Doc).

Lemma docPrefix_docKey N i : getDocPrefix N `prefix_of` getDocumentKey N i.
Proof. unfold getDocumentKey. by apply prefix_app_r. Qed.

Lemma _id_field d i : d !! "_id" = Some (JStr i) → _id d = i.
Proof. intros H. unfold _id. by rewrite H. Qed.

(** *** The documents [rebuildView] maps *)

Lemma listed_docs_elem N kv d :
  DocsWf N (store_values kv) →
  d ∈ listed_docs N kv ↔
  ∃ i, store_values kv !! getDocumentKey N i = Some (VDoc d).
Proof.
  intros Hwf. unfold listed_docs. rewrite list_elem_of_fmap. split.
  - intros ([k [v vs]] & -> & Hin). simpl.
    apply elem_of_kv_list in Hin as [Hk Hsel].
    apply bool_decide_eq_true in Hsel as [Hp _].
    destruct (Hwf k v Hp) as (i & d & -> & -> & _).
    { by rewrite store_values_lookup, Hk. }
    exists i. by rewrite store_values_lookup, Hk.
  - intros (i & Hi). rewrite store_values_lookup in Hi.
    destruct (entries kv !! getDocumentKey N i) as [[v vs]|] eqn:Hk;
      simplify_eq/=.
    exists (getDocumentKey N i, (VDoc d, vs)). split; [done|].
    apply elem_of_kv_list. split; [done|].
    apply bool_decide_eq_true. split.
    + unfold getDocumentKey. by apply prefix_app_r.
    + intros H. apply (f_equal length) in H. by simpl in H.
Qed.

Lemma listed_docs_NoDup N kv :
  DocsWf N (store_values kv) → NoDup (_id <$> listed_docs N kv).
Proof.
  intros Hwf. unfold listed_docs. rewrite <- list_fmap_compose.
  apply NoDup_fmap_2_strong; [|eapply NoDup_fmap_1, NoDup_kv_list].
  intros [k [v vs]] [k' [v' vs']] Hin Hin' Heq. simpl in Heq.
  apply elem_of_kv_list in Hin as [Hk Hsel], Hin' as [Hk' Hsel'].
  apply bool_decide_eq_true in Hsel as [Hp _], Hsel' as [Hp' _].
  destruct (Hwf k v Hp) as (i & d & -> & -> & Hid & _).
  { by rewrite store_values_lookup, Hk. }
  destruct (Hwf k' v' Hp') as (i' & d' & -> & -> & Hid' & _).
  { by rewrite store_values_lookup, Hk'. }
  simpl in Heq. rewrite (_id_field _ _ Hid), (_id_field _ _ Hid') in Heq.
  subst i'. congruence.
Qed.

(** *** The assignment made of a list of documents *)

Lemma assign_not_in ds g i : i ∉ _id <$> ds → assign ds g i = g i.
Proof.
  unfold assign. revert g. induction ds as [|d ds IH]; intros g Hi; [done|].
  rewrite fmap_cons, not_elem_of_cons in Hi. destruct Hi as [Hne Hi].
  simpl. rewrite IH by done. unfold upd. by rewrite decide_False.
Qed.

Lemma assign_in ds g d :
  NoDup (_id <$> ds) → d ∈ ds → assign ds g (_id d) = Some d.
Proof.
  unfold assign. revert g. induction ds as [|d' ds IH]; intros g Hnd Hin.
  - by apply elem_of_nil in Hin.
  - rewrite fmap_cons in Hnd. apply NoDup_cons in Hnd as [Hni Hnd]. simpl.
    apply elem_of_cons in Hin as [->|Hin].
    + fold (assign ds (upd (_id d') (Some d') g)).
      rewrite assign_not_in by done. unfold upd. by rewrite decide_True.
    + by apply IH.
Qed.

(** *** Mapping the documents one after the other *)

Lemma doc_step_update N V f vals g d :
  ValSync N vals V f g → g (_id d) = None →
  doc_step N V f vals d
  = apply_values (update_mutations N V f (_id d) (Some d) vals) vals.
Proof.
  intros Hs Hg. unfold doc_step, update_mutations.
  by rewrite (old_keys_sync _ _ _ _ _ _ Hs), Hg.
Qed.

Lemma docs_sync N V f ds vals g :
  ValSync N vals V f g → NoDup (_id <$> ds) →
  (∀ d, d ∈ ds → g (_id d) = None) →
  ValSync N (foldl (doc_step N V f) vals ds) V f (assign ds g).
Proof.
  unfold assign. revert vals g.
  induction ds as [|d ds IH]; intros vals g Hs Hnd Hg; [done|].
  rewrite fmap_cons in Hnd. apply NoDup_cons in Hnd as [Hni Hnd]. simpl.
  apply IH; [|done|].
  - rewrite (doc_step_update _ _ _ _ g); [by apply sync_step|done|].
    apply Hg. by left.
  - intros d' Hd'. unfold upd. rewrite decide_False.
    + apply Hg. by right.
    + intros Heq. apply Hni. rewrite <- Heq. apply list_elem_of_fmap. eauto.
Qed.

Lemma doc_mutations_keys N V f i d (mu : Mutation KvValue) :
  mu ∈ doc_mutations N V f i d → in_view N V (mutation_key mu).
Proof.
  unfold doc_mutations. intros [Hin|Hin]%elem_of_app.
  - apply list_elem_of_fmap in Hin as (e & -> & _). left.
    apply viewKey_prefix.
  - apply list_elem_of_singleton in Hin as ->. right.
    unfold getViewRefKey. by apply prefix_app_r.
Qed.

Lemma docs_frame N V f ds vals k :
  ¬ in_view N V k → foldl (doc_step N V f) vals ds !! k = vals !! k.
Proof.
  intros Hk. revert vals. induction ds as [|d ds IH]; intros vals; [done|].
  simpl. rewrite IH. unfold doc_step. apply apply_values_frame.
  intros (mu & -> & Hin)%list_elem_of_fmap.
  by apply Hk, (doc_mutations_keys _ _ _ _ _ _ Hin).
Qed.

(** *** After the deletion phase *)

Lemma selects_in_view N V k :
  selects (SelPrefix (getViewKey N V)) k
  || selects (SelPrefix (getViewRefPrefix N V)) k = true →
  in_view N V k.
Proof.
  intros [H|H]%orb_true_iff; apply bool_decide_eq_true in H as [H _];
    [by left|by right].
Qed.

Lemma after_delete_frame V db k :
  ¬ in_view (namespace db) V k →
  store_values (after_delete V db) !! k = store_values (kv db) !! k.
Proof.
  intros Hk. rewrite after_delete_values.
  destruct (_ || _) eqn:Hsel; [|done].
  by apply selects_in_view in Hsel.
Qed.

Lemma after_delete_sync V f db :
  RowsWf (namespace db) (store_values (kv db)) →
  ValSync (namespace db) (store_values (after_delete V db)) V f (λ _, None).
Proof.
  intros Hrows. split.
  - intros k Hk. rewrite after_delete_values.
    assert (expected_row (namespace db) V f (λ _, None) k = None) as ->.
    { unfold expected_row. by destruct (trailing_id k). }
    destruct (decide (getViewKey (namespace db) V = k)) as [<-|Hne].
    + destruct (_ || _); [done|]. apply Hrows.
    + assert (selects (SelPrefix (getViewKey (namespace db) V)) k = true)
        as -> by by apply bool_decide_eq_true.
      done.
  - intros i. rewrite after_delete_values.
    assert (selects (SelPrefix (getViewRefPrefix (namespace db) V))
              (getViewRefKey (namespace db) V i) = true) as ->.
    { apply bool_decide_eq_true. split.
      - unfold getViewRefKey. by apply prefix_app_r.
      - intros H. apply (f_equal length) in H. by simpl in H. }
    by rewrite orb_true_r.
Qed.

Lemma after_delete_DocsWf V db :
  DocsWf (namespace db) (store_values (kv db)) →
  DocsWf (namespace db) (store_values (after_delete V db)).
Proof.
  intros Hwf k v Hk. rewrite after_delete_frame; [by apply Hwf|].
  by apply docPrefix_no_view.
Qed.

(** *** [rebuildView] brings the view in step with the stored documents *)

Lemma expected_row_bare N V f g :
  expected_row N V f g (getViewKey N V) = None.
Proof.
  unfold expected_row. destruct (trailing_id _) as [i|]; simpl; [|done].
  destruct (g i) as [d|]; simpl; [|done].
  assert (last_emit (getViewKey N V) i (run f d) (getViewKey N V) = None) as ->;
    [|done].
  apply last_emit_None. intros (e & He & _)%list_elem_of_fmap.
  by apply viewKey_not_bare in He.
Qed.

Lemma rebuildView_frame V f sig db k :
  ¬ in_view (namespace db) V k → k ≠ getDesignKey (namespace db) V →
  store_values (kv (rebuildView V f sig db)) !! k
  = store_values (kv db) !! k.
Proof.
  intros Hk Hne. destruct (rebuildView_values V f sig db) as (-> & _).
  rewrite lookup_insert_ne by done.
  rewrite docs_frame by done. by apply after_delete_frame.
Qed.

Lemma rebuildView_sync V f sig db :
  Wf db →
  ValSync (namespace db) (store_values (kv (rebuildView V f sig db))) V f
    (stored_doc (namespace db) (store_values (kv (rebuildView V f sig db)))).
Proof.
  intros (Hdocs & Hrefs & Hrows).
  pose proof (after_delete_DocsWf V db Hdocs) as Hdocs1.
  pose proof (docs_sync (namespace db) V f
                (listed_docs (namespace db) (after_delete V db))
                _ _ (after_delete_sync V f db Hrows)
                (listed_docs_NoDup _ _ Hdocs1) (λ _ _, eq_refl)) as Hs.
  assert (∀ i, assign (listed_docs (namespace db) (after_delete V db))
                 (λ _, None) i
               = stored_doc (namespace db)
                   (store_values (kv (rebuildView V f sig db))) i) as Hext.
  { intros i. unfold stored_doc.
    rewrite rebuildView_frame;
      [|apply docKey_no_view|apply not_eq_sym, designKey_ne_docKey].
    rewrite <- (after_delete_frame V) by apply docKey_no_view.
    destruct (store_values (after_delete V db) !! getDocumentKey _ i)
      as [v|] eqn:Hv; simpl.
    - destruct (Hdocs1 _ v (docPrefix_docKey _ _) Hv)
        as (i' & d & Hi & -> & Hid & _).
      apply docKey_inj in Hi as <-.
      rewrite <- (_id_field _ _ Hid). apply assign_in.
      + by apply listed_docs_NoDup.
      + apply listed_docs_elem; [done|]. exists i. done.
    - rewrite assign_not_in; [done|].
      intros (d & -> & Hd)%list_elem_of_fmap.
      apply listed_docs_elem in Hd as (i' & Hi'); [|done].
      destruct (Hdocs1 _ _ (docPrefix_docKey _ _) Hi')
        as (i'' & d' & Hk & [= <-] & Hid & _).
      apply docKey_inj in Hk as <-.
      rewrite (_id_field _ _ Hid) in Hv. congruence. }
  eapply ValSync_ext; [exact Hext|].
  destruct (rebuildView_values V f sig db) as (-> & _).
  destruct Hs as [Hr Hf]. split.
  - intros k Hk. rewrite lookup_insert_ne; [by apply Hr|].
    intros <-. by apply designKey_not_row in Hk.
  - intros i. rewrite lookup_insert_ne; [by apply Hf|].
    apply designKey_ne_refKey.
Qed.

Lemma rebuildView_namespace V f sig db :
  namespace (rebuildView V f sig db) = namespace db.
Proof. apply rebuildView_values. Qed.

Lemma rebuildView_views V f sig db :
  views (rebuildView V f sig db) = views db.
Proof. apply rebuildView_values. Qed.

Lemma Wf_rebuildView V f sig db : Wf db → Wf (rebuildView V f sig db).
Proof.
  intros Hwf. pose proof (rebuildView_sync V f sig db Hwf) as [Hr Hf].
  destruct Hwf as (Hdocs & Hrefs & Hrows).
  unfold Wf. rewrite rebuildView_namespace. split; [|split].
  - intros k v Hk. rewrite rebuildView_frame; [by apply Hdocs|..].
    + by apply docPrefix_no_view.
    + intros ->. by apply designKey_not_doc in Hk.
  - intros W j ks Hv k Hin. destruct (decide (W = V)) as [->|Hne].
    + rewrite Hf in Hv. unfold expected_ref in Hv.
      destruct (stored_doc _ _ j) as [d|]; [|done].
      cbn [fmap option_fmap option_map] in Hv. injection Hv as <-.
      apply list_elem_of_fmap in Hin as (e & -> & _). apply viewKey_prefix.
    + rewrite rebuildView_frame in Hv; [by eapply Hrefs|..].
      * by apply ref_disjoint.
      * apply not_eq_sym, designKey_ne_refKey.
  - intros W. destruct (decide (W = V)) as [->|Hne].
    + rewrite Hr by done. apply expected_row_bare.
    + rewrite rebuildView_frame; [apply Hrows|..].
      * apply (view_disjoint _ W V); [done|reflexivity].
      * apply not_eq_sym, designKey_ne_bare.
Qed.

End RebuildSync.

(** * [defineView] *)

Module DefineProps.

Import Cushion Spec KvProps CushionProps DocProps RebuildProps RebuildSync.

Implicit Types (N V W i j : string) (k : Key) (VP : Key) (d : Doc)
  (od : option Doc) (f : MapFunction) (vals : gmap Key KvValue)
  (g : string → option Doc) (db : Cushion) (e : Emit) (lw : ViewLogic)
  (kv : Store KvValue) (ds : list Doc) (r : option ReduceFunction).

Section WithDigest.

Variable sha256_hex : string → string.

Lemma design_record_with_views (vs : list (string * ViewLogic)) V db :
  design_record V (with_views vs db) = design_record V db.
Proof. done. Qed.

Lemma design_record_values V db :
  design_record V db
  = match store_values (kv db) !! getDesignKey (namespace db) V with
    | Some (VState s) => Some s
    | _ => None
    end.
Proof.
  unfold design_record, kv_get. rewrite store_values_lookup.
  by destruct (entries (kv db) !! _) as [[[] ?]|].
Qed.

Lemma design_record_rebuildView V f sig db :
  design_record V (rebuildView V f sig db)
  = Some {| signature := sig; state := ready |}.
Proof.
  rewrite design_record_values, rebuildView_namespace.
  destruct (rebuildView_values V f sig db) as (-> & _).
  by rewrite lookup_insert_eq.
Qed.

Lemma defineView_namespace V f r db :
  namespace (defineView sha256_hex V f r db) = namespace db.
Proof.
  unfold defineView. repeat case_decide; try done.
  by rewrite rebuildView_namespace.
Qed.

Lemma defineView_views V f r db :
  views (defineView sha256_hex V f r db)
  = views_set V {| map_fn := f; reduce_fn := r |} (views db).
Proof.
  unfold defineView. repeat case_decide; try done.
  by rewrite rebuildView_views.
Qed.

Lemma Wf_with_views (vs : list (string * ViewLogic)) db :
  Wf db → Wf (with_views vs db).
Proof. done. Qed.

Lemma Wf_defineView V f r db : Wf db → Wf (defineView sha256_hex V f r db).
Proof.
  intros Hwf. unfold defineView. repeat case_decide; try done.
  by apply Wf_rebuildView.
Qed.

End WithDigest.

End DefineProps.

(** * Claims about documents and view definitions *)

Module DocClaims.

Import Cushion Spec KvProps CushionProps DocProps RebuildProps RebuildSync
  DefineProps.

Implicit Types (N V W i j : string) (k : Key) (VP : Key) (d : Doc)
  (od : option Doc) (f : MapFunction) (vals : gmap Key KvValue)
  (g : string → option Doc) (db : Cushion) (e : Emit) (lw : ViewLogic)
  (kv : Store KvValue) (ds : list Doc) (r : option ReduceFunction).

Lemma get_None i db :
  get i db = None ↔ kv_get (getDocumentKey (namespace db) i) (kv db) = None.
Proof. rewrite get_lookup. apply fmap_None. Qed.

Lemma kv_get_committed_set k (v : KvValue) kv k' :
  kv_get k' (committed (MSet k v) kv)
  = if decide (k = k') then Some (v, next_versionstamp kv) else kv_get k' kv.
Proof. unfold kv_get, committed. simpl. apply lookup_insert. Qed.

(** The document key after a successful write and the view maintenance
    that follows it. *)
Lemma written_doc_stays i (stored : Doc) od db j :
  stored !! "_id" = Some (JStr i) → stored !! "_rev" = None → Wf db →
  kv_get (getDocumentKey (namespace db) j)
    (kv (updateViewsForDoc i od
           (with_kv (committed (MSet (getDocumentKey (namespace db) i)
                                  (VDoc stored)) (kv db)) db)))
  = if decide (i = j) then Some (VDoc stored, next_versionstamp (kv db))
    else kv_get (getDocumentKey (namespace db) j) (kv db).
Proof.
  intros Hid Hrev Hwf. unfold kv_get at 1.
  pose proof (Wf_set_doc i stored db Hid Hrev Hwf) as Hwf'.
  pose proof (updateViewsForDoc_doc i od _ j Hwf') as Hdoc.
  cbn [namespace with_kv] in Hdoc. rewrite Hdoc.
  cbn [kv with_kv namespace]. fold (kv_get (getDocumentKey (namespace db) j)
    (committed (MSet (getDocumentKey (namespace db) i) (VDoc stored)) (kv db))).
  rewrite kv_get_committed_set.
  destruct (decide (i = j)) as [->|Hne].
  - by rewrite decide_True.
  - rewrite decide_False; [done|]. by intros ?%docKey_inj.
Qed.

(** C3: [replace(id, rev, doc)] with a [rev] that is not the current
    versionstamp of the document key (the document may be absent) fails
    with RevisionConflict and leaves the database as it was: the stored
    document, the commit log and the record of map calls are unchanged.
    With the current [rev], on a well-formed store, it succeeds and the
    stored value is [doc] without [_rev] and with [_id] set to [id]. *)
Theorem replace_checks_revision (i rev : string) (d : Doc) (db : Cushion) :
  (versionstamp_at (getDocumentKey (namespace db) i) (kv db) ≠ Some rev →
   replace i rev d db = (Err RevisionConflict, db))
  ∧ (Wf db →
     versionstamp_at (getDocumentKey (namespace db) i) (kv db) = Some rev →
     ∃ rev',
       (replace i rev d db).1 = Ok {| ok := true; id := i; rev := rev' |}
       ∧ kv_get (getDocumentKey (namespace db) i) (kv (replace i rev d db).2)
         = Some (VDoc (<["_id" := JStr i]> (delete "_rev" d)), rev')
       ∧ (<["_id" := JStr i]> (delete "_rev" d)) !! "_rev" = None
       ∧ (<["_id" := JStr i]> (delete "_rev" d)) !! "_id" = Some (JStr i)).
Proof.
  rewrite replace_cases. split; [intros Hrev|intros Hwf Hrev].
  - by rewrite decide_False.
  - rewrite decide_True by done. cbn [fst snd].
    destruct (stored_replace_fields i d) as [Hid Hnorev].
    eexists. split; [done|]. split; [|done].
    rewrite written_doc_stays by done. by rewrite decide_True.
Qed.

Lemma insert_id_supplied (d : Doc) (uuid i : string) :
  (d !! "_id" = Some (JStr i) ∧ i ≠ "") ∨ (d !! "_id" = None ∧ i = uuid) →
  insert_id d uuid = i.
Proof.
  unfold insert_id. intros [[-> Hne]|[-> ->]]; [|done].
  cbn [truthy]. by apply String.eqb_neq in Hne as ->.
Qed.


(** C9: when [_id] is present but falsy (the empty string, or another
    falsy value), a document without [_rev] is stored under the generated
    UUID, with [_id] set to it, and nothing is stored under the supplied
    [_id]. *)
Theorem insert_falsy_id (uuid : string) (d : Doc) (v : JsValue)
    (db : Cushion) :
  Wf db → d !! "_id" = Some v → truthy v = false → d !! "_rev" = None →
  get uuid db = None →
  ∃ rev',
    (insert uuid d db).1 = Ok {| ok := true; id := uuid; rev := rev' |}
    ∧ kv_get (getDocumentKey (namespace db) uuid) (kv (insert uuid d db).2)
      = Some (VDoc (<["_id" := JStr uuid]> d), rev')
    ∧ ∀ s, v = JStr s → uuid ≠ s →
        kv_get (getDocumentKey (namespace db) s) (kv (insert uuid d db).2)
        = kv_get (getDocumentKey (namespace db) s) (kv db).
Proof.
  intros Hwf Hid Hfalsy Hrev Hfree. apply get_None in Hfree.
  pose proof (insert_id_field d uuid v Hid Hfalsy) as Hu.
  rewrite insert_cases. cbn zeta. rewrite Hu.
  rewrite decide_False by (rewrite Hrev; by intros [? ?]).
  rewrite decide_True by done. cbn [fst snd].
  destruct (stored_insert_fields uuid d Hrev) as [Hid' Hnorev].
  eexists. split; [done|]. split.
  - rewrite written_doc_stays by done. by rewrite decide_True.
  - intros s _ Hne. rewrite written_doc_stays by done.
    by rewrite decide_False.
Qed.

Section WithDigest.

Variable sha256_hex : string → string.

(** Every database the program produces from an empty store is
    well-formed. *)
Lemma Reachable_Wf db : Reachable sha256_hex db → Wf db.
Proof.
  induction 1 as [N|db _ IH|V f r db _ IH|uuid d db _ IH|i rev d db _ IH
                 |i rev db _ IH].
  - apply Wf_open.
  - exact IH.
  - by apply Wf_defineView.
  - by apply Wf_insert.
  - by apply Wf_replace.
  - by apply Wf_remove.
Qed.

(** C8: when the persisted design record of the view carries the digest
    of the text of [f], [defineView(name, f, r)] only replaces the
    registry entry: the store, its commit log and the record of map calls
    are what they were.  This is the state a first [defineView(name, f)]
    leaves behind, so a second call rebuilds nothing. *)
Theorem defineView_same_signature (V : string) (f : MapFunction)
    (r : option ReduceFunction) (db : Cushion) (s : ViewState) :
  design_record V db = Some s → signature s = hashFunction sha256_hex f →
  defineView sha256_hex V f r db
  = with_views (views_set V {| map_fn := f; reduce_fn := r |} (views db)) db.
Proof.
  intros Hrec Hsig. unfold defineView.
  rewrite design_record_with_views, Hrec. simpl.
  by rewrite decide_True by by rewrite Hsig.
Qed.

(** After [defineView] the design record carries the digest of the map
    function, or a rebuild is under way. *)
Lemma defineView_design V f r db :
  signature <$> design_record V (defineView sha256_hex V f r db)
    = Some (hashFunction sha256_hex f)
  ∨ state <$> design_record V (defineView sha256_hex V f r db)
    = Some building.
Proof.
  unfold defineView.
  destruct (decide (signature <$> design_record V (with_views _ db) = _))
    as [Hsig|Hsig]; [by left|].
  destruct (decide (state <$> design_record V (with_views _ db) = _))
    as [Hb|Hb]; [by right|].
  left. by rewrite design_record_rebuildView.
Qed.

(** Calling [defineView] twice in a row: the second call changes the
    registry entry and nothing else. *)
Lemma defineView_twice V f r r' db :
  defineView sha256_hex V f r' (defineView sha256_hex V f r db)
  = with_views
      (views_set V {| map_fn := f; reduce_fn := r' |}
         (views (defineView sha256_hex V f r db)))
      (defineView sha256_hex V f r db).
Proof.
  set (db1 := defineView sha256_hex V f r db).
  pose proof (defineView_design V f r db) as Hd. fold db1 in Hd.
  unfold defineView. rewrite design_record_with_views.
  repeat case_decide; try done. by destruct Hd.
Qed.

End WithDigest.

End DocClaims.

(** * The commits of a rebuild *)

Module RebuildLog.

Import Cushion Spec KvProps CushionProps DocProps RebuildProps RebuildSync
  DefineProps DocClaims.

Implicit Types (N V W i j : string) (k : Key) (VP : Key) (d : Doc)
  (od : option Doc) (f : MapFunction) (vals : gmap Key KvValue)
  (g : string → option Doc) (db : Cushion) (e : Emit) (lw : ViewLogic)
  (kv : Store KvValue) (ds : list Doc) (r : option ReduceFunction)
  (P : Key → Prop) (cs : list (list (Mutation KvValue)))
  (b : AtomicOperation KvValue).

Lemma log_ok_init P kv : log_ok P (commits kv) atomic kv.
Proof.
  split; [by apply Forall_nil|]. exists []. by rewrite app_nil_r.
Qed.

Lemma log_ok_commit P cs b kv :
  log_ok P cs b kv → log_ok P cs atomic (commit b kv).2.
Proof.
  intros (Hb & bs & Hcs & Hbs). split; [by apply Forall_nil|].
  unfold commit. destruct (forallb _ _); simpl.
  - exists (bs ++ [mutations b]). rewrite Hcs, app_assoc. split; [done|].
    apply Forall_app. split; [done|]. by apply Forall_singleton.
  - eauto.
Qed.

Lemma log_ok_add P cs b kv (mus : list (Mutation KvValue)) :
  keys_in P mus → log_ok P cs b kv →
  log_ok P cs {| checks := checks b; mutations := mutations b ++ mus |} kv.
Proof.
  intros Hmu (Hb & Hlog). split; [|done]. simpl. by apply Forall_app.
Qed.

Lemma delete_entry_log P cs
    (acc : AtomicOperation KvValue * nat * Store KvValue) k :
  P k → log_ok P cs acc.1.1 acc.2 →
  log_ok P cs (delete_entry acc k).1.1 (delete_entry acc k).2.
Proof.
  intros Hk Hlog. unfold delete_entry.
  pose proof (log_ok_add P cs _ _ [MDelete k]
                ltac:(by apply Forall_singleton) Hlog) as Hadd.
  case_decide; cbn [fst snd]; [|done].
  by apply log_ok_commit.
Qed.

Lemma delete_entries_log P cs (ks : list Key)
    (acc : AtomicOperation KvValue * nat * Store KvValue) :
  Forall P ks → log_ok P cs acc.1.1 acc.2 →
  log_ok P cs (foldl delete_entry acc ks).1.1 (foldl delete_entry acc ks).2.
Proof.
  revert acc. induction ks as [|k ks IH]; intros acc Hks Hlog; [done|].
  apply Forall_cons in Hks as [Hk Hks].
  change (foldl delete_entry acc (k :: ks))
    with (foldl delete_entry (delete_entry acc k) ks).
  by apply IH, delete_entry_log.
Qed.

Lemma delete_prefix_log N V cs
    (acc : AtomicOperation KvValue * nat * Store KvValue) (p : Key) :
  p = getViewKey N V ∨ p = getViewRefPrefix N V →
  log_ok (in_view N V) cs acc.1.1 acc.2 →
  log_ok (in_view N V) cs (delete_prefix acc p).1.1 (delete_prefix acc p).2.
Proof.
  intros Hp Hlog. unfold delete_prefix. apply delete_entries_log; [|done].
  apply Forall_forall. intros k ([k' x] & Hk & Hin)%list_elem_of_fmap.
  simpl in Hk. subst k'. apply elem_of_kv_list in Hin as [_ Hsel].
  apply bool_decide_eq_true in Hsel as [Hpre _].
  destruct Hp as [->| ->]; [by left|by right].
Qed.

Lemma after_delete_log V db :
  ∃ bs, commits (after_delete V db) = commits (kv db) ++ bs
        ∧ Forall (keys_in (in_view (namespace db) V)) bs.
Proof.
  unfold after_delete.
  change (foldl delete_prefix (atomic, 0%nat, kv db)
            [getViewKey (namespace db) V; getViewRefPrefix (namespace db) V])
    with (delete_prefix
            (delete_prefix (atomic, 0%nat, kv db)
               (getViewKey (namespace db) V))
            (getViewRefPrefix (namespace db) V)).
  pose proof (delete_prefix_log (namespace db) V (commits (kv db)) _ _
                (or_intror eq_refl)
                (delete_prefix_log (namespace db) V (commits (kv db))
                   (atomic, 0%nat, kv db) _ (or_introl eq_refl)
                   (log_ok_init _ _))) as Hlog.
  case_decide.
  - by apply log_ok_commit in Hlog as [_ ?].
  - by destruct Hlog as [_ ?].
Qed.

Lemma rebuild_doc_namespace V f
    (acc : AtomicOperation KvValue * nat * Cushion) d :
  namespace (rebuild_doc V f acc d).2 = namespace acc.2.
Proof. unfold rebuild_doc. by case_decide. Qed.

Lemma rebuild_doc_log V f cs
    (acc : AtomicOperation KvValue * nat * Cushion) d :
  log_ok (in_view (namespace acc.2) V) cs acc.1.1 (kv acc.2) →
  log_ok (in_view (namespace acc.2) V) cs
    (rebuild_doc V f acc d).1.1 (kv (rebuild_doc V f acc d).2).
Proof.
  intros Hlog. unfold rebuild_doc. rewrite emit_all_eq.
  pose proof (log_ok_add _ cs _ _
                (doc_mutations (namespace acc.2) V f (_id d) d)
                ltac:(apply Forall_forall; intros mu;
                      apply doc_mutations_keys) Hlog) as Hadd.
  unfold doc_mutations in Hadd. rewrite app_assoc in Hadd.
  case_decide; cbn [fst snd kv with_kv called namespace]; [|done].
  by apply log_ok_commit.
Qed.

Lemma rebuild_docs_log V f cs (ds : list Doc)
    (acc : AtomicOperation KvValue * nat * Cushion) :
  log_ok (in_view (namespace acc.2) V) cs acc.1.1 (kv acc.2) →
  log_ok (in_view (namespace acc.2) V) cs
    (foldl (rebuild_doc V f) acc ds).1.1
    (kv (foldl (rebuild_doc V f) acc ds).2).
Proof.
  revert acc. induction ds as [|d ds IH]; intros acc Hlog; [done|].
  change (foldl (rebuild_doc V f) acc (d :: ds))
    with (foldl (rebuild_doc V f) (rebuild_doc V f acc d) ds).
  rewrite <- (rebuild_doc_namespace V f acc d). apply IH.
  rewrite rebuild_doc_namespace. by apply rebuild_doc_log.
Qed.

(** The commits of [rebuildView]: batches that write rows and
    back-references of the view, then the design record, once. *)
Lemma rebuildView_log V f sig db :
  ∃ bs,
    commits (kv (rebuildView V f sig db))
    = commits (kv db) ++ bs
      ++ [[MSet (getDesignKey (namespace db) V)
             (VState {| signature := sig; state := ready |})]]
    ∧ Forall (keys_in (in_view (namespace db) V)) bs.
Proof.
  unfold rebuildView. fold (after_delete V db).
  fold (listed_docs (namespace db) (after_delete V db)).
  set (kv1 := after_delete V db).
  destruct (after_delete_log V db) as (bs1 & Hcs1 & Hbs1). fold kv1 in Hcs1.
  assert (log_ok (in_view (namespace db) V) (commits (kv db)) atomic kv1)
    as Hlog1.
  { split; [by apply Forall_nil|]. eauto. }
  pose proof (rebuild_docs_log V f (commits (kv db))
                (listed_docs (namespace db) kv1)
                (atomic, 0%nat, with_kv kv1 db) Hlog1) as Hlog2.
  cbn [fst snd namespace with_kv] in Hlog2.
  set (built := foldl (rebuild_doc V f) (atomic, 0%nat, with_kv kv1 db) _)
    in *.
  assert (∃ bs, commits (kv (if decide (0 < built.1.2)%nat
                 then with_kv (commit built.1.1 (kv built.2)).2 built.2
                 else built.2)) = commits (kv db) ++ bs
                ∧ Forall (keys_in (in_view (namespace db) V)) bs)
    as (bs & Hcs & Hbs).
  { case_decide; cbn [kv with_kv].
    - by apply log_ok_commit in Hlog2 as [_ ?].
    - by destruct Hlog2 as [_ ?]. }
  exists bs. split; [|done].
  cbn [kv with_kv]. unfold kv_set. rewrite commit_unchecked by done.
  cbn [snd commits mutations atomic_set atomic app]. rewrite Hcs.
  by rewrite <- app_assoc.
Qed.

Section WithDigest.

Variable sha256_hex : string → string.

(** C5 (the code departs from the claim): a call of [defineView] either
    commits nothing, or runs a rebuild; in that case the design record
    was not in state "building" when the rebuild began, and no commit of
    the rebuild writes the design record before the last one, which
    writes [{signature, state: "ready"}].  So the persisted record is
    never "building" while the view is rebuilt. *)
Theorem rebuild_never_marks_building (V : string) (f : MapFunction)
    (r : option ReduceFunction) (db : Cushion) :
  commits (kv (defineView sha256_hex V f r db)) = commits (kv db)
  ∨ (state <$> design_record V db ≠ Some building
     ∧ ∃ bs,
         commits (kv (defineView sha256_hex V f r db))
         = commits (kv db) ++ bs
           ++ [[MSet (getDesignKey (namespace db) V)
                  (VState {| signature := hashFunction sha256_hex f;
                             state := ready |})]]
         ∧ ∀ batch mu, batch ∈ bs → mu ∈ batch →
             mutation_key mu ≠ getDesignKey (namespace db) V).
Proof.
  unfold defineView. rewrite design_record_with_views.
  destruct (decide (signature <$> design_record V db = _)); [by left|].
  destruct (decide (state <$> design_record V db = _)) as [|Hb]; [by left|].
  right. split; [done|].
  destruct (rebuildView_log V f (hashFunction sha256_hex f)
              (with_views
                 (views_set V {| map_fn := f; reduce_fn := r |} (views db))
                 db)) as (bs & Hcs & Hbs).
  exists bs. split; [done|].
  intros batch mu Hbatch Hmu Hkey.
  rewrite Forall_forall in Hbs. specialize (Hbs _ Hbatch).
  unfold keys_in in Hbs. rewrite Forall_forall in Hbs.
  specialize (Hbs _ Hmu). rewrite Hkey in Hbs.
  by apply designKey_no_view in Hbs.
Qed.

(** While the record is "building", [defineView] does not rebuild. *)
Lemma defineView_while_building V f r db (s : ViewState) :
  design_record V db = Some s → state s = building →
  defineView sha256_hex V f r db
  = with_views (views_set V {| map_fn := f; reduce_fn := r |} (views db)) db.
Proof.
  intros Hrec Hb. unfold defineView.
  rewrite design_record_with_views, Hrec. simpl.
  case_decide; [done|]. by rewrite decide_True by by rewrite Hb.
Qed.

End WithDigest.

End RebuildLog.

(** * Views are kept in step by the document operations *)

Module ViewClaims.

Import Cushion Spec KvProps CushionProps DocProps RebuildProps RebuildSync
  DefineProps DocClaims.

Implicit Types (N V W i j : string) (k : Key) (VP : Key) (d : Doc)
  (od : option Doc) (f : MapFunction) (vals : gmap Key KvValue)
  (g h : string → option Doc) (db : Cushion) (e : Emit) (lw : ViewLogic)
  (kv : Store KvValue) (ds : list Doc) (r : option ReduceFunction)
  (l : list (string * ViewLogic)).

(** *** All views, one document *)

Lemma updateViews_fold_sync l i od db :
  Wf db → NoDup l.*1 →
  (∀ V f h, V ∉ l.*1 →
     ValSync (namespace db) (store_values (kv db)) V f h →
     ValSync (namespace db)
       (store_values (kv (foldl (updateView i od) db l))) V f h)
  ∧ (∀ V lw h, (V, lw) ∈ l →
       ValSync (namespace db) (store_values (kv db)) V (map_fn lw) h →
       ValSync (namespace db)
         (store_values (kv (foldl (updateView i od) db l))) V (map_fn lw)
         (upd i od h)).
Proof.
  revert db. induction l as [|[W lw] l IH]; intros db Hwf Hnd.
  { split; [done|]. by intros V lw h ?%elem_of_nil. }
  rewrite fmap_cons in Hnd. apply NoDup_cons in Hnd as [HW Hnd].
  change (foldl (updateView i od) db ((W, lw) :: l))
    with (foldl (updateView i od) (updateView i od db (W, lw)) l).
  destruct (IH _ (updateView_Wf i od db W lw Hwf) Hnd) as [IH1 IH2].
  rewrite updateView_namespace in IH1, IH2.
  rewrite updateView_values in IH1, IH2.
  assert (∀ V f h, V ≠ W →
            ValSync (namespace db) (store_values (kv db)) V f h →
            ValSync (namespace db)
              (apply_values
                 (update_mutations (namespace db) W (map_fn lw) i od
                    (store_values (kv db))) (store_values (kv db))) V f h)
    as Hframe.
  { intros V f h Hne. apply sync_frame; [done|].
    apply RefsWf_old_keys, Hwf. }
  split.
  - intros V f h [Hne Hnin]%not_elem_of_cons Hs. simpl in Hne.
    by apply IH1, Hframe.
  - intros V lv h [[= -> ->]|Hin]%elem_of_cons Hs.
    + apply IH1; [done|]. by apply sync_step.
    + apply IH2; [done|]. apply Hframe; [|done].
      intros ->. apply HW, list_elem_of_fmap. by exists (W, lv).
Qed.

Lemma ValSync_apply_value N vals V f g (mu : Mutation KvValue) :
  ¬ getViewKey N V `prefix_of` mutation_key mu →
  (∀ i, mutation_key mu ≠ getViewRefKey N V i) →
  ValSync N vals V f g → ValSync N (apply_value vals mu) V f g.
Proof.
  intros Hrow Href [Hr Hf].
  assert (∀ k, k ≠ mutation_key mu → apply_value vals mu !! k = vals !! k)
    as Hframe.
  { intros k Hk. destruct mu; simpl in *.
    - by rewrite lookup_insert_ne.
    - by rewrite lookup_delete_ne. }
  split.
  - intros k Hk. rewrite Hframe; [by apply Hr|]. by intros ->.
  - intros i. rewrite Hframe; [by apply Hf|]. apply not_eq_sym, Href.
Qed.

(** *** The invariant is kept by the document operations *)

Lemma get_after_write i (stored : Doc) od db j :
  stored !! "_id" = Some (JStr i) → stored !! "_rev" = None → Wf db →
  get j (updateViewsForDoc i od
           (with_kv (committed (MSet (getDocumentKey (namespace db) i)
                                  (VDoc stored)) (kv db)) db))
  = upd i (Some (<["_rev" := JStr (next_versionstamp (kv db))]> stored))
        (λ j, get j db) j.
Proof.
  intros Hid Hrev Hwf. unfold get at 1.
  rewrite updateViewsForDoc_namespace by by apply Wf_set_doc.
  cbn [namespace with_kv]. rewrite written_doc_stays by done.
  unfold upd, get. destruct (decide (i = j)) as [->|Hne].
  - by rewrite decide_True.
  - by rewrite decide_False by done.
Qed.

Lemma get_after_delete i db j :
  Wf db →
  get j (updateViewsForDoc i None
           (with_kv (committed (MDelete (getDocumentKey (namespace db) i))
                       (kv db)) db))
  = upd i None (λ j, get j db) j.
Proof.
  intros Hwf. pose proof (Wf_delete_doc i db Hwf) as Hwf'.
  unfold get at 1. rewrite updateViewsForDoc_namespace by done.
  unfold kv_get. pose proof (updateViewsForDoc_doc i None _ j Hwf') as Hdoc.
  cbn [namespace with_kv] in *. rewrite Hdoc.
  cbn [kv with_kv committed entries apply_mutation].
  unfold upd, get, kv_get. destruct (decide (j = i)) as [->|Hne].
  - by rewrite lookup_delete_eq.
  - rewrite lookup_delete_ne; [done|]. by intros ?%docKey_inj.
Qed.

Lemma Synced_after_doc_commit i od db (mu : Mutation KvValue) :
  mutation_key mu = getDocumentKey (namespace db) i →
  Wf (with_kv (committed mu (kv db)) db) →
  NoDup (views db).*1 → Synced db →
  ∀ V lw, (V, lw) ∈ views db →
    ValSync (namespace db)
      (store_values
         (kv (updateViewsForDoc i od (with_kv (committed mu (kv db)) db))))
      V (map_fn lw) (upd i od (λ j, get j db)).
Proof.
  intros Hkey Hwf Hnd Hsync V lw Hin.
  destruct (updateViews_fold_sync (views db) i od
              (with_kv (committed mu (kv db)) db) Hwf Hnd) as [_ H2].
  apply (H2 V lw); [done|].
  cbn [namespace kv with_kv]. rewrite store_values_committed.
  apply ValSync_apply_value.
  - rewrite Hkey. apply docKey_not_row.
  - intros j. rewrite Hkey. apply docKey_ne_refKey.
  - by apply Hsync.
Qed.

Lemma Inv_after_doc_commit i od db (mu : Mutation KvValue) :
  mutation_key mu = getDocumentKey (namespace db) i →
  Wf (with_kv (committed mu (kv db)) db) →
  (∀ j, get j (updateViewsForDoc i od (with_kv (committed mu (kv db)) db))
        = upd i od (λ j, get j db) j) →
  NoDup (views db).*1 → Synced db →
  Inv (updateViewsForDoc i od (with_kv (committed mu (kv db)) db)).
Proof.
  intros Hkey Hwf Hget Hnd Hsync. unfold Inv, Synced.
  rewrite updateViewsForDoc_views, updateViewsForDoc_namespace by done.
  split; [by apply updateViewsForDoc_Wf|]. split; [done|].
  intros V lw Hin. cbn [namespace views with_kv] in Hin |- *.
  eapply ValSync_ext; [intros j; symmetry; apply Hget|].
  by apply Synced_after_doc_commit.
Qed.

Lemma Inv_insert uuid d db : Inv db → Inv (insert uuid d db).2.
Proof.
  intros (Hwf & Hnd & Hsync). rewrite insert_cases.
  destruct (decide (is_Some _)) as [|Hrev]; [done|].
  destruct (decide (_ = None)); [|done]. cbn [snd].
  apply eq_None_not_Some in Hrev.
  destruct (stored_insert_fields (insert_id d uuid) d Hrev) as [Hid Hnorev].
  apply Inv_after_doc_commit; try done.
  - by apply Wf_set_doc.
  - intros j. by apply get_after_write.
Qed.

Lemma Inv_replace i rev d db : Inv db → Inv (replace i rev d db).2.
Proof.
  intros (Hwf & Hnd & Hsync). rewrite replace_cases.
  destruct (decide _); [|done]. cbn [snd].
  destruct (stored_replace_fields i d) as [Hid Hnorev].
  apply Inv_after_doc_commit; try done.
  - by apply Wf_set_doc.
  - intros j. by apply get_after_write.
Qed.

Lemma Inv_remove i rev db : Inv db → Inv (remove i rev db).2.
Proof.
  intros (Hwf & Hnd & Hsync). rewrite remove_cases.
  destruct (decide _); [|done]. cbn [snd].
  apply Inv_after_doc_commit; try done.
  - by apply Wf_delete_doc.
  - intros j. by apply get_after_delete.
Qed.

Lemma Inv_run_ops (ops : list Op) db : Inv db → Inv (run_ops ops db).
Proof.
  revert db. induction ops as [|op ops IH]; intros db Hinv; [done|].
  simpl. apply IH. destruct op; simpl;
    [by apply Inv_insert|by apply Inv_replace|by apply Inv_remove].
Qed.

(** *** From the invariant to the rows and back-references *)

Lemma entries_values db k (v : KvValue) :
  (∃ vs, entries (kv db) !! k = Some (v, vs))
  ↔ store_values (kv db) !! k = Some v.
Proof.
  rewrite store_values_lookup. split.
  - intros [vs ->]. done.
  - destruct (entries (kv db) !! k) as [[v' vs]|]; [|done].
    intros [= ->]. eauto.
Qed.

Lemma entries_values_None db k :
  entries (kv db) !! k = None ↔ store_values (kv db) !! k = None.
Proof. rewrite store_values_lookup. symmetry. apply fmap_None. Qed.

Lemma expected_row_Some N V f g k (v : KvValue) :
  expected_row N V f g k = Some v ↔
  ∃ i d e, g i = Some d ∧ last_emit (getViewKey N V) i (run f d) k = Some e
           ∧ v = row_of d e.
Proof.
  unfold expected_row. split.
  - destruct (trailing_id k) as [i|] eqn:Hi; [|done]. simpl.
    destruct (g i) as [d|] eqn:Hd; [|done]. simpl.
    destruct (last_emit _ _ _ _) as [e|] eqn:He; [|done].
    intros [= <-]. eauto 10.
  - intros (i & d & e & Hd & He & ->).
    destruct (last_emit_Some _ _ _ _ _ He) as [_ <-].
    rewrite trailing_id_viewKey. simpl. rewrite Hd. simpl. by rewrite He.
Qed.

Lemma Synced_consistent db V lw :
  Synced db → (V, lw) ∈ views db → ViewConsistent db V (map_fn lw).
Proof.
  intros Hsync Hin. destruct (Hsync V lw Hin) as [Hr Hf].
  split; [|split].
  - intros k v. rewrite entries_values. split.
    + intros [Hk Hv]. rewrite Hr in Hv by done.
      by apply expected_row_Some in Hv.
    + intros (i & d & e & Hd & He & ->).
      destruct (last_emit_Some _ _ _ _ _ He) as [_ Hk].
      assert (getViewKey (namespace db) V `prefix_of` k) as Hp.
      { rewrite <- Hk. apply viewKey_prefix. }
      split; [done|]. rewrite Hr by done.
      apply expected_row_Some. eauto 10.
  - intros i d Hd. specialize (Hf i). unfold expected_ref in Hf.
    rewrite Hd in Hf. simpl in Hf. apply entries_values in Hf as [vs Hvs].
    eexists _, vs. split; [done|]. intros k. split.
    + intros (e & -> & He)%list_elem_of_fmap.
      split; [apply viewKey_prefix|]. split; [apply trailing_id_viewKey|].
      destruct (last_emit (getViewKey (namespace db) V) i
                  (run (map_fn lw) d)
                  (viewKey (getViewKey (namespace db) V) i e))
        as [e'|] eqn:He'.
      * assert (store_values (kv db)
                  !! viewKey (getViewKey (namespace db) V) i e
                = Some (row_of d e')) as Hv.
        { rewrite Hr by apply viewKey_prefix.
          apply expected_row_Some. eauto 10. }
        apply entries_values in Hv as [vs' Hv]. by eexists.
      * apply last_emit_None in He'. exfalso. apply He'.
        apply list_elem_of_fmap. eauto.
    + intros (Hp & Hi & [[v vs'] Hv]).
      assert (store_values (kv db) !! k = Some v) as Hv'
        by (apply entries_values; eauto).
      rewrite Hr in Hv' by done.
      apply expected_row_Some in Hv' as (i' & d' & e & Hd' & He & _).
      destruct (last_emit_Some _ _ _ _ _ He) as [Hin' Hk].
      rewrite <- Hk, trailing_id_viewKey in Hi. injection Hi as ->.
      rewrite Hd in Hd'. injection Hd' as <-.
      rewrite <- Hk. apply list_elem_of_fmap. eauto.
  - intros i Hd. split.
    + apply entries_values_None. rewrite Hf. unfold expected_ref.
      by rewrite Hd.
    + intros k Hp Hi. apply entries_values_None. rewrite Hr by done.
      unfold expected_row. rewrite Hi. simpl. by rewrite Hd.
Qed.

(** *** The registry *)

Lemma views_set_names V lw l :
  (views_set V lw l).*1 = if decide (V ∈ l.*1) then l.*1 else l.*1 ++ [V].
Proof.
  induction l as [|[W lw'] l IH].
  - case_decide as Hin; [by apply elem_of_nil in Hin|done].
  - cbn [views_set]. destruct (decide (W = V)) as [->|Hne].
    + rewrite decide_True; [done|]. rewrite fmap_cons. left.
    + rewrite !fmap_cons, IH. cbn [fst].
      destruct (decide (V ∈ l.*1)) as [Hin|Hin].
      * rewrite decide_True; [done|]. by right.
      * rewrite decide_False; [done|].
        intros [?|?]%elem_of_cons; congruence.
Qed.

Lemma views_set_NoDup V lw l : NoDup l.*1 → NoDup (views_set V lw l).*1.
Proof.
  intros Hnd. rewrite views_set_names. case_decide; [done|].
  apply NoDup_app. split; [done|]. split; [|apply NoDup_singleton].
  intros x Hx ->%list_elem_of_singleton. done.
Qed.

Lemma views_get_elem V lw l : views_get V l = Some lw → (V, lw) ∈ l.
Proof.
  induction l as [|[W lw'] l IH]; simpl; [done|].
  destruct (decide (W = V)) as [->|Hne].
  - intros [= ->]. left.
  - intros H. right. by apply IH.
Qed.

(** *** Views defined on an empty store *)

Section WithDigest.

Variable sha256_hex : string → string.

Lemma Fresh_open N : Fresh (open N empty_store).
Proof. intros k v. unfold store_values. simpl. by rewrite fmap_empty. Qed.

Lemma Fresh_no_docs db :
  Fresh db → listed_docs (namespace db) (kv db) = [].
Proof.
  intros Hfresh. unfold listed_docs. rewrite kv_list_nil; [done|].
  intros k [v vs] Hk.
  destruct (Hfresh k v) as [V ->].
  { by rewrite store_values_lookup, Hk. }
  apply bool_decide_eq_false. intros [Hp _].
  by apply designKey_not_doc in Hp.
Qed.

Lemma Fresh_rebuildView V f sig db :
  Fresh db → Fresh (rebuildView V f sig db).
Proof.
  intros Hfresh k v. rewrite rebuildView_namespace.
  destruct (rebuildView_values V f sig db) as (-> & _).
  destruct (decide (getDesignKey (namespace db) V = k)) as [<-|Hne];
    [by eauto|].
  rewrite lookup_insert_ne by done.
  assert (listed_docs (namespace db) (after_delete V db) = []) as ->.
  { unfold listed_docs. rewrite kv_list_nil; [done|].
    intros k' [v' vs] Hk'.
    assert (store_values (after_delete V db) !! k' = Some v') as Hv
      by by rewrite store_values_lookup, Hk'.
    rewrite after_delete_values in Hv.
    destruct (_ || _); [done|].
    destruct (Hfresh k' v' Hv) as [V' ->].
    apply bool_decide_eq_false. intros [Hp _].
    by apply designKey_not_doc in Hp. }
  simpl. rewrite after_delete_values.
  destruct (_ || _); [done|]. apply Hfresh.
Qed.

Lemma Fresh_defineView V f r db :
  Fresh db → Fresh (defineView sha256_hex V f r db).
Proof.
  intros Hfresh. unfold defineView. repeat case_decide; try done.
  by apply Fresh_rebuildView.
Qed.

Lemma define_views_spec
    (defs : list (string * MapFunction * option ReduceFunction)) db :
  Fresh db → NoDup (views db).*1 →
  Fresh (define_views sha256_hex defs db)
  ∧ NoDup (views (define_views sha256_hex defs db)).*1.
Proof.
  unfold define_views. revert db.
  induction defs as [|[[V f] r] defs IH]; intros db Hfresh Hnd; [done|].
  simpl. apply IH.
  - by apply Fresh_defineView.
  - rewrite defineView_views. by apply views_set_NoDup.
Qed.

Lemma Fresh_Wf db : Fresh db → Wf db.
Proof.
  intros Hfresh. split; [|split].
  - intros k v Hp Hv. destruct (Hfresh k v Hv) as [V ->].
    by apply designKey_not_doc in Hp.
  - intros V i ks Hv. destruct (Hfresh _ _ Hv) as [V' HV'].
    symmetry in HV'. by apply designKey_ne_refKey in HV'.
  - intros V. destruct (store_values (kv db) !! _) as [v|] eqn:Hv; [|done].
    destruct (Hfresh _ _ Hv) as [V' HV'].
    symmetry in HV'. by apply designKey_ne_bare in HV'.
Qed.

Lemma Fresh_Synced db : Fresh db → Synced db.
Proof.
  intros Hfresh V lw _.
  assert (∀ i, get i db = None) as Hget.
  { intros i. apply get_None, entries_values_None.
    destruct (store_values (kv db) !! _) as [v|] eqn:Hv; [|done].
    destruct (Hfresh _ _ Hv) as [V' HV'].
    symmetry in HV'. by apply designKey_ne_docKey in HV'. }
  split.
  - intros k Hp. unfold expected_row.
    assert (store_values (kv db) !! k = None) as ->.
    { destruct (store_values (kv db) !! k) as [v|] eqn:Hv; [|done].
      destruct (Hfresh _ _ Hv) as [V' ->].
      by apply designKey_not_row in Hp. }
    destruct (trailing_id k); simpl; [|done]. by rewrite Hget.
  - intros i. unfold expected_ref. rewrite Hget. simpl.
    destruct (store_values (kv db) !! _) as [v|] eqn:Hv; [|done].
    destruct (Hfresh _ _ Hv) as [V' HV'].
    symmetry in HV'. by apply designKey_ne_refKey in HV'.
Qed.

Lemma Inv_define_views
    (defs : list (string * MapFunction * option ReduceFunction)) N :
  Inv (define_views sha256_hex defs (open N empty_store)).
Proof.
  destruct (define_views_spec defs (open N empty_store) (Fresh_open N))
    as [Hfresh Hnd]; [apply NoDup_nil_2|].
  split; [by apply Fresh_Wf|]. split; [done|]. by apply Fresh_Synced.
Qed.

(** X25: Views defined before any document exists.  On a database opened on
    an empty store, after any views are defined and any sequence of
    [insert], [replace] and [remove] has run, the store having accepted
    every batch, for every registered view whose keys are exact: the rows
    below its row prefix are the rows of the emissions of the live
    documents as [get] returns them, with their [_rev], the last emission
    standing where one document emits a key more than once; the
    back-reference of a live document lists the keys of the stored rows
    that end in its id; an absent document has no row and no
    back-reference. *)
Theorem view_rows_after_operations (N : string)
    (defs : list (string * MapFunction * option ReduceFunction))
    (ops : list Op) (V : string) (lw : ViewLogic) :
  views_get V
    (views (run_ops ops (define_views sha256_hex defs (open N empty_store))))
    = Some lw →
  exact_keys (map_fn lw) →
  within_limits
    (kv (run_ops ops (define_views sha256_hex defs (open N empty_store))))
    = true →
  ViewConsistent
    (run_ops ops (define_views sha256_hex defs (open N empty_store)))
    V (map_fn lw).
Proof.
  intros Hget%views_get_elem _ _.
  destruct (Inv_run_ops ops _ (Inv_define_views defs N)) as (_ & _ & Hsync).
  by apply Synced_consistent.
Qed.

End WithDigest.

End ViewClaims.

(** * Documents returned by queries *)

Module QueryClaims.

Import Cushion Spec KvProps CushionProps DocProps RebuildProps RebuildSync
  DefineProps DocClaims ViewClaims.

Implicit Types (N V W i j : string) (k : Key) (VP : Key) (d : Doc)
  (od : option Doc) (f : MapFunction) (vals : gmap Key KvValue)
  (g h : string → option Doc) (db : Cushion) (e : Emit) (lw : ViewLogic)
  (kv : Store KvValue) (ds : list Doc) (r : option ReduceFunction)
  (l : list (string * ViewLogic)) (m : MapRow).

Lemma take_limit_PosInf {A} (c : Z) (xs : list A) :
  take_limit PosInf c xs = xs.
Proof.
  revert c. induction xs as [|x xs IH]; intros c; [done|].
  simpl. by rewrite IH.
Qed.

Lemma drop_skipped_zero {A} (xs : list A) : drop_skipped (of_Z 0) 0 xs = xs.
Proof. by destruct xs. Qed.

Lemma query_docs V lw db :
  views_get V (views db) = Some lw →
  query (docs_query V) db
  = Ok ((λ entry, RMap (row_with_doc entry.1 entry.2.1))
          <$> kv_list (SelPrefix (getViewKey (namespace db) V)) no_options
                (kv db)).
Proof.
  intros Hget. unfold query, docs_query.
  cbn [ViewQuery.getParams ViewQuery.includeDocs ViewQuery.for_
       ViewQuery._key ViewQuery._keys ViewQuery._prefix ViewQuery._startKey
       ViewQuery._endKey ViewQuery.params_with ViewQuery.viewName
       ViewQuery.shape ViewQuery._viewName ViewQuery._groupLevel
       ViewQuery.p_skip ViewQuery.p_limit ViewQuery._skip ViewQuery._limit
       ViewQuery.p_reduce ViewQuery._reduce ViewQuery.p_includeDocs
       ViewQuery._includeDocs ViewQuery.descending ViewQuery._descending
       selector_of].
  rewrite Hget.
  change (truthy (JNum (of_Z 0))) with false. cbn iota.
  unfold kv_list at 1. cbn [reverse limit]. rewrite take_limit_PosInf.
  rewrite drop_skipped_zero. reflexivity.
Qed.

Lemma map_rows_docs V lw db m :
  views_get V (views db) = Some lw →
  m ∈ map_rows (query (docs_query V) db) ↔
  ∃ k v, getViewKey (namespace db) V `prefix_of` k
         ∧ getViewKey (namespace db) V ≠ k
         ∧ store_values (kv db) !! k = Some v
         ∧ m = row_with_doc k v.
Proof.
  intros Hget. rewrite (query_docs V lw db Hget). unfold map_rows.
  rewrite list_elem_of_omap. split.
  - intros (qr & Hin & Hm).
    apply list_elem_of_fmap in Hin as ([k [v vs]] & -> & Hin).
    injection Hm as <-. apply elem_of_kv_list in Hin as [Hk Hsel].
    apply bool_decide_eq_true in Hsel as [Hp Hne].
    exists k, v. repeat split; try done.
    by rewrite store_values_lookup, Hk.
  - intros (k & v & Hp & Hne & Hv & ->).
    apply entries_values in Hv as [vs Hvs].
    exists (RMap (row_with_doc k v)). split; [|done].
    apply list_elem_of_fmap. exists (k, (v, vs)). split; [done|].
    apply elem_of_kv_list. split; [done|]. by apply bool_decide_eq_true.
Qed.

Lemma at_last_viewKey VP i e : at_last (viewKey VP i e) = KStr i.
Proof. unfold at_last, viewKey. by rewrite app_assoc, last_snoc. Qed.

(** The rows of a view that is in step with an assignment. *)
Lemma synced_row N vals V f g k (v : KvValue) :
  ValSync N vals V f g → getViewKey N V `prefix_of` k →
  vals !! k = Some v →
  ∃ i d e, g i = Some d ∧ k = viewKey (getViewKey N V) i e
           ∧ v = row_of d e ∧ expected_row N V f g k = Some v.
Proof.
  intros [Hr _] Hp Hv. rewrite Hr in Hv by done.
  pose proof Hv as Hv'.
  apply expected_row_Some in Hv as (i & d & e & Hd & He & ->).
  apply last_emit_Some in He as [_ <-]. eauto 10.
Qed.

Lemma views_get_set V lw l : views_get V (views_set V lw l) = Some lw.
Proof.
  induction l as [|[W lw'] l IH]; simpl.
  - by rewrite decide_True.
  - destruct (decide (W = V)) as [->|Hne]; simpl.
    + by rewrite decide_True.
    + by rewrite decide_False.
Qed.

Lemma Tracked_after_write V lw i (stored dnew : Doc) db h :
  Wf db → NoDup (views db).*1 → (V, lw) ∈ views db →
  stored !! "_id" = Some (JStr i) → stored !! "_rev" = None →
  ValSync (namespace db) (store_values (kv db)) V (map_fn lw) h →
  ValSync (namespace db)
    (store_values
       (kv (updateViewsForDoc i (Some dnew)
              (with_kv (committed (MSet (getDocumentKey (namespace db) i)
                                     (VDoc stored)) (kv db)) db))))
    V (map_fn lw) (upd i (Some dnew) h).
Proof.
  intros Hwf Hnd Hin Hid Hrev Hs.
  destruct (updateViews_fold_sync (views db) i (Some dnew)
              (with_kv (committed (MSet (getDocumentKey (namespace db) i)
                                     (VDoc stored)) (kv db)) db)
              (Wf_set_doc _ _ _ Hid Hrev Hwf) Hnd) as [_ H2].
  apply (H2 V lw); [done|].
  cbn [namespace kv with_kv]. rewrite store_values_committed.
  apply ValSync_apply_value; [apply docKey_not_row| |done].
  intros j. apply docKey_ne_refKey.
Qed.

End QueryClaims.

(** * Closed statements *)

Module Closed.

Import Cushion Spec KvProps CushionProps DocProps RebuildProps RebuildSync
  DefineProps DocClaims ViewClaims QueryClaims Sample.


Lemma exact_keys_twice : exact_keys twice.
Proof.
  intros d e Hin. cbn [run twice] in Hin.
  apply elem_of_cons in Hin as [->|Hin]; [done|].
  by apply list_elem_of_singleton in Hin as ->.
Qed.

Lemma exact_keys_byName : exact_keys byName.
Proof.
  intros d e. cbn [run byName].
  repeat case_match; try (by intros ?%elem_of_nil).
  by intros ->%list_elem_of_singleton.
Qed.

Lemma view_rows_after_operations_witness :
  views_get "v"
    (views (run_ops [OpInsert "uuid-1" x]
              (define_views digest [("v", twice, None)]
                 (open "test" empty_store))))
    = Some {| map_fn := twice; reduce_fn := None |}
  ∧ exact_keys twice
  ∧ within_limits
      (kv (run_ops [OpInsert "uuid-1" x]
             (define_views digest [("v", twice, None)]
                (open "test" empty_store))))
    = true
  ∧ ViewConsistent
      (run_ops [OpInsert "uuid-1" x]
         (define_views digest [("v", twice, None)] (open "test" empty_store)))
      "v" twice.
Proof.
  split; [reflexivity|]. split; [exact exact_keys_twice|].
  split; [reflexivity|].
  exact (view_rows_after_operations digest "test" [("v", twice, None)]
           [OpInsert "uuid-1" x] "v" {| map_fn := twice; reduce_fn := None |}
           eq_refl exact_keys_twice eq_refl).
Defined.

Lemma Wf_db0 : Wf db0.
Proof. apply Wf_defineView, Wf_open. Qed.

Lemma Wf_db1 : Wf db1.
Proof. apply Wf_insert, Wf_db0. Qed.

Lemma replace_checks_revision_witness :
  Wf db1
  ∧ versionstamp_at (getDocumentKey (namespace db1) "alice") (kv db1)
    ≠ Some "00000000000000000001"
  ∧ replace "alice" "00000000000000000001" alice2 db1
    = (Err RevisionConflict, db1)
  ∧ versionstamp_at (getDocumentKey (namespace db1) "alice") (kv db1)
    = Some "00000000000000000002"
  ∧ ∃ rev',
      (replace "alice" "00000000000000000002" alice2 db1).1
        = Ok {| ok := true; id := "alice"; rev := rev' |}
      ∧ kv_get (getDocumentKey (namespace db1) "alice")
          (kv (replace "alice" "00000000000000000002" alice2 db1).2)
        = Some (VDoc (<["_id" := JStr "alice"]> (delete "_rev" alice2)), rev')
      ∧ (<["_id" := JStr "alice"]> (delete "_rev" alice2)) !! "_rev" = None
      ∧ (<["_id" := JStr "alice"]> (delete "_rev" alice2)) !! "_id"
        = Some (JStr "alice").
Proof.
  split; [exact Wf_db1|].
  split; [by vm_compute|].
  split.
  { apply (replace_checks_revision "alice" "00000000000000000001" alice2 db1).
    by vm_compute. }
  split; [by vm_compute|].
  apply (replace_checks_revision "alice" "00000000000000000002" alice2 db1);
    [exact Wf_db1|by vm_compute].
Defined.


Lemma insert_falsy_id_witness :
  Wf db1 ∧ anonymous !! "_id" = Some (JStr "") ∧ truthy (JStr "") = false
  ∧ anonymous !! "_rev" = None ∧ get "uuid-2" db1 = None
  ∧ ∃ rev',
      (insert "uuid-2" anonymous db1).1
        = Ok {| ok := true; id := "uuid-2"; rev := rev' |}
      ∧ kv_get (getDocumentKey (namespace db1) "uuid-2")
               (kv (insert "uuid-2" anonymous db1).2)
        = Some (VDoc (<["_id" := JStr "uuid-2"]> anonymous), rev')
      ∧ ∀ s, JStr "" = JStr s → "uuid-2" ≠ s →
          kv_get (getDocumentKey (namespace db1) s)
                 (kv (insert "uuid-2" anonymous db1).2)
          = kv_get (getDocumentKey (namespace db1) s) (kv db1).
Proof.
  split; [exact Wf_db1|]. split; [reflexivity|]. split; [reflexivity|].
  split; [reflexivity|]. split; [reflexivity|].
  apply (insert_falsy_id "uuid-2" anonymous (JStr "") db1 Wf_db1);
    reflexivity.
Defined.

Lemma defineView_same_signature_witness :
  design_record "by-name" db1
    = Some {| signature := hashFunction digest byName; state := ready |}
  ∧ signature {| signature := hashFunction digest byName; state := ready |}
    = hashFunction digest byName
  ∧ defineView digest "by-name" byName None db1
    = with_views
        (views_set "by-name" {| map_fn := byName; reduce_fn := None |}
           (views db1)) db1.
Proof.
  split; [reflexivity|]. split; [reflexivity|].
  apply (defineView_same_signature digest "by-name" byName None db1
           {| signature := hashFunction digest byName; state := ready |});
    reflexivity.
Defined.

Lemma Inv_db1 : Inv db1.
Proof.
  exact (Inv_run_ops [OpInsert "uuid-1" alice] _
           (Inv_define_views digest [("by-name", byName, None)] "test")).
Qed.

Lemma Tracked_db1 : Tracked db1.
Proof.
  intros V lw Hin. eexists. by apply Inv_db1.
Qed.

(** The row written when [alice] was inserted carries the [_rev] of the
    insertion. *)
Example incremental_row_has_rev :
  map_rows (query (docs_query "by-name") db1)
  = [ {| row_key := [KStr "Alice"];
         row_id := KStr "alice";
         row_value := JNull;
         row_doc := Some (<["_rev" := JStr "00000000000000000002"]> alice) |} ].
Proof. by vm_compute. Qed.

(** Once the view is rebuilt (the text of its map function changed), the
    row of the same document carries the document as it is stored. *)
Example rebuilt_row_has_no_rev :
  map_rows (query (docs_query "by-name")
              (defineView digest "by-name" byName2 None db1))
  = [ {| row_key := [KStr "Alice"];
         row_id := KStr "alice";
         row_value := JNull;
         row_doc := Some alice |} ].
Proof. by vm_compute. Qed.

(** The commits of [defineView] on a store that holds [alice] and the
    rows of an earlier build: one batch of deletions, one batch with the
    row and the back-reference, then the design record. *)
Example rebuild_commits :
  drop (length (commits (kv db2)))
       (commits (kv (defineView digest "by-name" byName2 None db2)))
  = [ [ MDelete [KStr "test"; KStr "view"; KStr "by-name"; KStr "Alice";
                 KStr "alice"];
        MDelete [KStr "test"; KStr "viewref"; KStr "by-name"; KStr "alice"] ];
      [ MSet [KStr "test"; KStr "view"; KStr "by-name"; KStr "Alice";
              KStr "alice"]
             (VRow {| value := JNull; doc := alice |});
        MSet [KStr "test"; KStr "viewref"; KStr "by-name"; KStr "alice"]
             (VKeys [[KStr "test"; KStr "view"; KStr "by-name"; KStr "Alice";
                      KStr "alice"]]) ];
      [ MSet [KStr "test"; KStr "design"; KStr "by-name"]
             (VState {| signature := "by-name, reformatted";
                        state := ready |}) ] ].
Proof. by vm_compute. Qed.

End Closed.

(** * Documents: errors, round trips, the key layout *)

Module DocMore.

Import Cushion Spec MoreSpec KvProps CushionProps DocProps RebuildProps
  RebuildSync DefineProps DocClaims ViewClaims QueryClaims.

Implicit Types (N V W i j : string) (k : Key) (VP : Key) (d : Doc)
  (od : option Doc) (f : MapFunction) (vals : gmap Key KvValue)
  (g h : string → option Doc) (db : Cushion) (e : Emit) (lw : ViewLogic)
  (kv : Store KvValue) (ds : list Doc) (r : option ReduceFunction)
  (l : list (string * ViewLogic)).

(** *** The key layout *)

(** X24: The four families of keys of [utils.ts] (documents, design records,
    view rows, back-references): two keys of a family are equal exactly
    when they are made of the same namespace, view name, key parts and
    document id, and no key belongs to two families. *)
Theorem key_layout_injective N N' V V' i i' e e' :
  (getDocumentKey N i = getDocumentKey N' i' ↔ N = N' ∧ i = i')
  ∧ (getDesignKey N V = getDesignKey N' V' ↔ N = N' ∧ V = V')
  ∧ (getViewRefKey N V i = getViewRefKey N' V' i'
     ↔ N = N' ∧ V = V' ∧ i = i')
  ∧ (viewKey (getViewKey N V) i e = viewKey (getViewKey N' V') i' e'
     ↔ N = N' ∧ V = V' ∧ i = i'
       ∧ keyParts (emit_key e) = keyParts (emit_key e'))
  ∧ getDocumentKey N i ≠ getDesignKey N' V'
  ∧ getDocumentKey N i ≠ getViewRefKey N' V' i'
  ∧ getDocumentKey N i ≠ viewKey (getViewKey N' V') i' e'
  ∧ getDesignKey N V ≠ getViewRefKey N' V' i'
  ∧ getDesignKey N V ≠ viewKey (getViewKey N' V') i' e'
  ∧ getViewRefKey N V i ≠ viewKey (getViewKey N' V') i' e'.
Proof.
  unfold getDocumentKey, getDesignKey, getViewRefKey, getViewRefPrefix,
    getDocPrefix, getViewKey, viewKey.
  split_and!; try split; try (intros H; simpl in H; by simplify_eq).
  - by intros [-> ->].
  - by intros [-> ->].
  - by intros (-> & -> & ->).
  - intros H. simpl in H. simplify_eq.
    match goal with
    | H : _ ++ [_] = _ ++ [_] |- _ =>
        by apply app_inj_tail in H as [? [= ->]]
    end.
  - by intros (-> & -> & -> & ->).
Qed.

(** *** Documents *)

Lemma insert_taken uuid d db :
  d !! "_rev" = None → get (insert_id d uuid) db ≠ None →
  insert uuid d db = (Err DuplicateDocument, db).
Proof.
  intros Hrev Hget. rewrite insert_cases. cbn zeta.
  rewrite decide_False by (rewrite Hrev; by intros [? ?]).
  rewrite decide_False; [done|]. by rewrite <- get_None.
Qed.

Lemma insert_ok uuid d db (res : InsertResult) :
  Wf db → (insert uuid d db).1 = Ok res →
  d !! "_rev" = None
  ∧ res = {| ok := true; id := insert_id d uuid;
             rev := next_versionstamp (kv db) |}
  ∧ namespace (insert uuid d db).2 = namespace db
  ∧ views (insert uuid d db).2 = views db
  ∧ ∀ j, get j (insert uuid d db).2
         = upd (insert_id d uuid)
             (Some (<["_rev" := JStr (next_versionstamp (kv db))]>
                      (<["_id" := JStr (insert_id d uuid)]> d)))
             (λ j, get j db) j.
Proof.
  intros Hwf. rewrite insert_cases. cbn zeta.
  destruct (decide (is_Some (d !! "_rev"))) as [|Hrev]; [done|].
  destruct (decide _) as [Hfree|]; [|done].
  apply eq_None_not_Some in Hrev.
  destruct (stored_insert_fields (insert_id d uuid) d Hrev) as [Hi Hr].
  pose proof (Wf_set_doc _ _ db Hi Hr Hwf) as Hwf'.
  cbn [fst snd]. intros [= <-]. split; [done|]. split; [done|].
  rewrite updateViewsForDoc_namespace, updateViewsForDoc_views by done.
  split; [done|]. split; [done|].
  intros j. by apply get_after_write.
Qed.

Lemma replace_ok i rev0 d db (res : InsertResult) :
  Wf db → (replace i rev0 d db).1 = Ok res →
  versionstamp_at (getDocumentKey (namespace db) i) (kv db) = Some rev0
  ∧ res = {| ok := true; id := i; rev := next_versionstamp (kv db) |}
  ∧ namespace (replace i rev0 d db).2 = namespace db
  ∧ views (replace i rev0 d db).2 = views db
  ∧ ∀ j, get j (replace i rev0 d db).2
         = upd i
             (Some (<["_rev" := JStr (next_versionstamp (kv db))]>
                      (<["_id" := JStr i]> (delete "_rev" d))))
             (λ j, get j db) j.
Proof.
  intros Hwf. rewrite replace_cases. cbn zeta.
  destruct (decide _) as [Hcur|]; [|done].
  destruct (stored_replace_fields i d) as [Hi Hr].
  pose proof (Wf_set_doc _ _ db Hi Hr Hwf) as Hwf'.
  cbn [fst snd]. intros [= <-]. split; [done|]. split; [done|].
  rewrite updateViewsForDoc_namespace, updateViewsForDoc_views by done.
  split; [done|]. split; [done|].
  intros j. by apply get_after_write.
Qed.

Lemma remove_ok i rev0 db :
  Wf db →
  versionstamp_at (getDocumentKey (namespace db) i) (kv db) = Some rev0 →
  (remove i rev0 db).1 = Ok true
  ∧ namespace (remove i rev0 db).2 = namespace db
  ∧ views (remove i rev0 db).2 = views db
  ∧ ∀ j, get j (remove i rev0 db).2 = upd i None (λ j, get j db) j.
Proof.
  intros Hwf Hcur. rewrite remove_cases. cbn zeta.
  rewrite decide_True by done. cbn [fst snd].
  pose proof (Wf_delete_doc i db Hwf) as Hwf'.
  rewrite updateViewsForDoc_namespace, updateViewsForDoc_views by done.
  split; [done|]. split; [done|]. split; [done|].
  intros j. by apply get_after_delete.
Qed.

Lemma get_rev i d db :
  get i db = Some d →
  ∃ rev0, d !! "_rev" = Some (JStr rev0)
          ∧ versionstamp_at (getDocumentKey (namespace db) i) (kv db)
            = Some rev0.
Proof.
  rewrite get_lookup. unfold versionstamp_at.
  destruct (entries (kv db) !! _) as [[v vs]|]; [|done].
  intros [= <-]. exists vs. split; [|done]. by rewrite lookup_insert_eq.
Qed.

Lemma get_stored i d db :
  Wf db → get i db = Some d →
  ∃ sd rev0,
    kv_get (getDocumentKey (namespace db) i) (kv db) = Some (VDoc sd, rev0)
    ∧ d = <["_rev" := JStr rev0]> sd
    ∧ sd !! "_id" = Some (JStr i) ∧ sd !! "_rev" = None.
Proof.
  intros (Hdocs & _ & _). rewrite get_lookup. unfold kv_get.
  destruct (entries (kv db) !! _) as [[v vs]|] eqn:He; [|done].
  intros [= <-].
  destruct (Hdocs (getDocumentKey (namespace db) i) v) as (j & sd & Hk & -> & ? & ?).
  { apply docPrefix_docKey. }
  { apply lookup_fmap_Some. exists (v, vs). split; [done|]. exact He. }
  apply docKey_inj in Hk as <-. by exists sd, vs.
Qed.

(** X1: [insert]: a document that carries [_rev] (whatever its value) is
    refused with UnexpectedRev, a document whose id is taken with
    DuplicateDocument, and in both cases the database is left as it was.
    In particular, after a successful insert a second insert under the
    same id is refused, whatever the document. *)
Theorem insert_rejects (uuid uuid' : string) (d d' : Doc) (db : Cushion) :
  (is_Some (d !! "_rev") → insert uuid d db = (Err UnexpectedRev, db))
  ∧ (d !! "_rev" = None → get (insert_id d uuid) db ≠ None →
     insert uuid d db = (Err DuplicateDocument, db))
  ∧ (Wf db → ∀ res, (insert uuid d db).1 = Ok res →
     d' !! "_rev" = None → insert_id d' uuid' = id res →
     insert uuid' d' (insert uuid d db).2
     = (Err DuplicateDocument, (insert uuid d db).2)).
Proof.
  split; [|split].
  - intros Hrev. rewrite insert_cases. cbn zeta. by rewrite decide_True.
  - apply insert_taken.
  - intros Hwf res Hres Hrev' Hid.
    destruct (insert_ok _ _ _ _ Hwf Hres) as (_ & -> & _ & _ & Hget).
    apply insert_taken; [done|]. rewrite Hid. cbn [id].
    rewrite Hget. unfold upd. by rewrite decide_True.
Qed.



(** X4: A document operation, successful or not, changes what [get] returns
    for the id it addresses at most: every other document is read back as
    before. *)
Theorem step_leaves_others (op : Op) (j : string) (db : Cushion) :
  Wf db → j ≠ target op → get j (step db op) = get j db.
Proof.
  intros Hwf Hne. destruct op as [uuid d|i rev0 d|i rev0]; cbn [step target] in *.
  - destruct (insert uuid d db).1 as [res|err] eqn:Hres.
    + destruct (insert_ok _ _ _ _ Hwf Hres) as (_ & _ & _ & _ & Hget).
      rewrite Hget. unfold upd. by rewrite decide_False.
    + revert Hres. rewrite insert_cases. cbn zeta.
      repeat destruct (decide _); done.
  - destruct (replace i rev0 d db).1 as [res|err] eqn:Hres.
    + destruct (replace_ok _ _ _ _ _ Hwf Hres) as (_ & _ & _ & _ & Hget).
      rewrite Hget. unfold upd. by rewrite decide_False.
    + revert Hres. rewrite replace_cases. cbn zeta.
      repeat destruct (decide _); done.
  - destruct (decide (versionstamp_at (getDocumentKey (namespace db) i)
                        (kv db) = Some rev0)) as [Hcur|Hcur].
    + destruct (remove_ok i rev0 db Hwf Hcur) as (_ & _ & _ & Hget).
      rewrite Hget. unfold upd. by rewrite decide_False.
    + rewrite remove_cases. cbn zeta. by rewrite decide_False.
Qed.

Section WithDigest.

Variable sha256_hex : string → string.

(** X15: [defineView(name, map, reduce)] registers the pair under [name]: it
    replaces an entry of that name in place or adds the name at the end,
    and keeps the namespace and every other entry of the registry. *)
Theorem defineView_registers (V : string) (f : MapFunction)
    (r : option ReduceFunction) (db : Cushion) :
  views_get V (views (defineView sha256_hex V f r db))
    = Some {| map_fn := f; reduce_fn := r |}
  ∧ (∀ W, W ≠ V →
       views_get W (views (defineView sha256_hex V f r db))
       = views_get W (views db))
  ∧ (views (defineView sha256_hex V f r db)).*1
    = (if decide (V ∈ (views db).*1) then (views db).*1
       else (views db).*1 ++ [V])
  ∧ namespace (defineView sha256_hex V f r db) = namespace db.
Proof.
  rewrite defineView_views, defineView_namespace.
  split; [apply views_get_set|]. split; [|split; [apply views_set_names|done]].
  intros W Hne. induction (views db) as [|[n x] vs IH]; simpl.
  - by rewrite decide_False.
  - destruct (decide (n = V)) as [->|Hn]; simpl.
    + by rewrite !decide_False by done.
    + destruct (decide (n = W)); [done|]. apply IH.
Qed.

End WithDigest.

End DocMore.

(** * What the operations run, commit and leave alone *)

Module MaintainMore.

Import Cushion Spec MoreSpec KvProps CushionProps DocProps RebuildProps
  RebuildSync DefineProps DocClaims RebuildLog ViewClaims QueryClaims DocMore.

Implicit Types (N V W i j : string) (k : Key) (VP : Key) (d : Doc)
  (od : option Doc) (f : MapFunction) (vals : gmap Key KvValue)
  (g h : string → option Doc) (db : Cushion) (e : Emit) (lw : ViewLogic)
  (kv : Store KvValue) (ds : list Doc) (r : option ReduceFunction)
  (l : list (string * ViewLogic)) (b : AtomicOperation KvValue).

(** *** What [updateViewsForDoc] runs and commits *)

Lemma updateViews_map_calls l i od db :
  map_calls (foldl (updateView i od) db l)
  = map_calls db
    ++ match od with
       | Some d => (λ x, (x.1, d)) <$> l
       | None => []
       end.
Proof.
  revert db. induction l as [|[W lw] l IH]; intros db.
  - destruct od; simpl; by rewrite app_nil_r.
  - change (foldl (updateView i od) db ((W, lw) :: l))
      with (foldl (updateView i od) (updateView i od db (W, lw)) l).
    rewrite IH, updateView_map_calls.
    destruct od; simpl; by rewrite <- app_assoc.
Qed.

Lemma view_batch_frame N i od vals vals' (x : string * ViewLogic) :
  vals' !! getViewRefKey N x.1 i = vals !! getViewRefKey N x.1 i →
  view_batch N i od vals' x = view_batch N i od vals x.
Proof.
  intros Heq. unfold view_batch, update_mutations, old_keys.
  by rewrite Heq.
Qed.

Lemma updateViews_commits l i od db :
  Wf db → NoDup l.*1 →
  commits (kv (foldl (updateView i od) db l))
  = commits (kv db)
    ++ (view_batch (namespace db) i od (store_values (kv db)) <$> l).
Proof.
  revert db. induction l as [|[W lw] l IH]; intros db Hwf Hnd.
  - by rewrite app_nil_r.
  - change (foldl (updateView i od) db ((W, lw) :: l))
      with (foldl (updateView i od) (updateView i od db (W, lw)) l).
    cbn [fmap list_fmap fst] in Hnd. apply NoDup_cons in Hnd as [HW Hnd].
    rewrite (IH _ (updateView_Wf i od db W lw Hwf) Hnd).
    rewrite updateView_namespace.
    rewrite updateView_kv at 1. rewrite commit_unchecked by done.
    cbn [snd commits mutations]. rewrite <- app_assoc. f_equal.
    cbn [fmap list_fmap app]. f_equal.
    apply list_fmap_ext. intros _ x Hx%list_elem_of_lookup_2.
    apply view_batch_frame. rewrite !store_values_lookup. f_equal.
    apply updateView_frame; [apply Hwf|]. apply ref_disjoint.
    intros Heq. apply HW. apply list_elem_of_fmap. by exists x.
Qed.

Lemma updateViews_frame l i od db k :
  Wf db → (∀ W, W ∈ l.*1 → ¬ in_view (namespace db) W k) →
  entries (kv (foldl (updateView i od) db l)) !! k = entries (kv db) !! k.
Proof.
  revert db. induction l as [|[W lw] l IH]; intros db Hwf Hk; [done|].
  change (foldl (updateView i od) db ((W, lw) :: l))
    with (foldl (updateView i od) (updateView i od db (W, lw)) l).
  rewrite IH.
  - apply updateView_frame; [apply Hwf|]. apply Hk. simpl. left.
  - by apply updateView_Wf.
  - rewrite updateView_namespace. intros W' HW'. apply Hk. simpl. by right.
Qed.

(** X7: A successful [insert] or [replace] runs the map function of every
    registered view exactly once, in the order of the registry, on the
    document with its [_id] and its new [_rev]; [remove] and a failed
    operation run no map function. *)
Theorem maps_run_once_per_view (db : Cushion) :
  (∀ uuid d res,
     (insert uuid d db).1 = Ok res →
     map_calls (insert uuid d db).2
     = map_calls db
       ++ ((λ x, (x.1, <["_rev" := JStr (rev res)]>
                          (<["_id" := JStr (id res)]> d)))
             <$> views db))
  ∧ (∀ i rev0 d res,
       (replace i rev0 d db).1 = Ok res →
       map_calls (replace i rev0 d db).2
       = map_calls db
         ++ ((λ x, (x.1, <["_rev" := JStr (rev res)]>
                            (<["_id" := JStr i]> (delete "_rev" d))))
               <$> views db))
  ∧ (∀ i rev0, map_calls (remove i rev0 db).2 = map_calls db)
  ∧ (∀ uuid d err, (insert uuid d db).1 = Err err → (insert uuid d db).2 = db)
  ∧ (∀ i rev0 d err,
       (replace i rev0 d db).1 = Err err → (replace i rev0 d db).2 = db).
Proof.
  split_and!.
  - intros uuid d res. rewrite insert_cases. cbn zeta.
    repeat case_decide; try done. cbn [fst snd]. intros [= <-].
    unfold updateViewsForDoc. by rewrite updateViews_map_calls.
  - intros i rev0 d res. rewrite replace_cases. cbn zeta.
    case_decide; [|done]. cbn [fst snd]. intros [= <-].
    unfold updateViewsForDoc. by rewrite updateViews_map_calls.
  - intros i rev0. rewrite remove_cases. cbn zeta.
    case_decide; [|done]. cbn [fst snd].
    unfold updateViewsForDoc. rewrite updateViews_map_calls.
    by rewrite app_nil_r.
  - intros uuid d err. rewrite insert_cases. cbn zeta.
    by repeat case_decide.
  - intros i rev0 d err. rewrite replace_cases. cbn zeta.
    by repeat case_decide.
Qed.

Lemma committed_doc_batches i od db (mu : Mutation KvValue) :
  mutation_key mu = getDocumentKey (namespace db) i →
  Wf (with_kv (committed mu (kv db)) db) → NoDup (views db).*1 →
  commits (kv (updateViewsForDoc i od (with_kv (committed mu (kv db)) db)))
  = commits (kv db)
    ++ [mu] :: (view_batch (namespace db) i od (store_values (kv db))
                  <$> views db).
Proof.
  intros Hkey Hwf Hnd. unfold updateViewsForDoc. cbn [views with_kv].
  rewrite updateViews_commits by done.
  cbn [kv with_kv committed commits namespace]. rewrite <- app_assoc.
  f_equal. cbn [app]. f_equal.
  apply list_fmap_ext. intros _ x _. apply view_batch_frame.
  rewrite store_values_committed.
  destruct mu as [k v|k]; cbn [apply_value mutation_key] in *; subst k.
  - apply lookup_insert_ne, docKey_ne_refKey.
  - apply lookup_delete_ne, docKey_ne_refKey.
Qed.

(** X8: On a well-formed store a successful document operation whose batches
    the store accepts makes one commit for the document and then exactly
    one commit per registered view, in the order of the registry.  The
    commit of a view deletes the rows that the back-reference of the view
    and the id named before the operation and, in the same commit, sets
    the new rows and the back-reference (or deletes the back-reference,
    for [remove]). *)
Theorem one_commit_per_view (db : Cushion) :
  Wf db → NoDup (views db).*1 →
  (∀ uuid d res,
     (insert uuid d db).1 = Ok res →
     within_limits (kv (insert uuid d db).2) = true →
     commits (kv (insert uuid d db).2)
     = commits (kv db)
       ++ [MSet (getDocumentKey (namespace db) (id res))
             (VDoc (<["_id" := JStr (id res)]> d))]
          :: (view_batch (namespace db) (id res)
                (Some (<["_rev" := JStr (rev res)]>
                         (<["_id" := JStr (id res)]> d)))
                (store_values (kv db))
              <$> views db))
  ∧ (∀ i rev0 d res,
       (replace i rev0 d db).1 = Ok res →
       within_limits (kv (replace i rev0 d db).2) = true →
       commits (kv (replace i rev0 d db).2)
       = commits (kv db)
         ++ [MSet (getDocumentKey (namespace db) i)
               (VDoc (<["_id" := JStr i]> (delete "_rev" d)))]
            :: (view_batch (namespace db) i
                  (Some (<["_rev" := JStr (rev res)]>
                           (<["_id" := JStr i]> (delete "_rev" d))))
                  (store_values (kv db))
                <$> views db))
  ∧ (∀ i rev0,
       (remove i rev0 db).1 = Ok true →
       within_limits (kv (remove i rev0 db).2) = true →
       commits (kv (remove i rev0 db).2)
       = commits (kv db)
         ++ [MDelete (getDocumentKey (namespace db) i)]
            :: (view_batch (namespace db) i None (store_values (kv db))
                <$> views db)).
Proof.
  intros Hwf Hnd. split_and!.
  - intros uuid d res. rewrite insert_cases. cbn zeta.
    destruct (decide (is_Some (d !! "_rev"))) as [|Hrev]; [done|].
    case_decide; [|done]. cbn [fst snd]. intros [= <-] _. cbn [id rev].
    apply eq_None_not_Some in Hrev.
    destruct (stored_insert_fields (insert_id d uuid) d Hrev) as [Hi Hr].
    apply committed_doc_batches; [done| |done]. by apply Wf_set_doc.
  - intros i rev0 d res. rewrite replace_cases. cbn zeta.
    case_decide; [|done]. cbn [fst snd]. intros [= <-] _. cbn [id rev].
    destruct (stored_replace_fields i d) as [Hi Hr].
    apply committed_doc_batches; [done| |done]. by apply Wf_set_doc.
  - intros i rev0. rewrite remove_cases. cbn zeta.
    case_decide; [|done]. cbn [fst snd]. intros _ _.
    apply committed_doc_batches; [done| |done]. by apply Wf_delete_doc.
Qed.

Lemma step_frame (op : Op) (k : Key) (db : Cushion) :
  Wf db → k ≠ getDocumentKey (namespace db) (target op) →
  (∀ W, W ∈ (views db).*1 → ¬ in_view (namespace db) W k) →
  entries (kv (step db op)) !! k = entries (kv db) !! k.
Proof.
  intros Hwf Hk Hviews.
  destruct op as [uuid d|i rev0 d|i rev0]; cbn [step target] in *.
  - rewrite insert_cases. cbn zeta.
    destruct (decide (is_Some (d !! "_rev"))) as [|Hrev]; [done|].
    case_decide; [|done]. cbn [snd].
    apply eq_None_not_Some in Hrev.
    destruct (stored_insert_fields (insert_id d uuid) d Hrev) as [Hi Hr].
    unfold updateViewsForDoc. cbn [views with_kv].
    rewrite updateViews_frame; [|by apply Wf_set_doc|done].
    cbn [kv with_kv committed entries apply_mutation].
    by rewrite lookup_insert_ne.
  - rewrite replace_cases. cbn zeta. case_decide; [|done]. cbn [snd].
    destruct (stored_replace_fields i d) as [Hi Hr].
    unfold updateViewsForDoc. cbn [views with_kv].
    rewrite updateViews_frame; [|by apply Wf_set_doc|done].
    cbn [kv with_kv committed entries apply_mutation].
    by rewrite lookup_insert_ne.
  - rewrite remove_cases. cbn zeta. case_decide; [|done]. cbn [snd].
    unfold updateViewsForDoc. cbn [views with_kv].
    rewrite updateViews_frame; [|by apply Wf_delete_doc|done].
    cbn [kv with_kv committed entries apply_mutation].
    by rewrite lookup_delete_ne.
Qed.

(** X9: On a well-formed store a document operation writes nothing but the
    key of the document it addresses and rows and back-references of the
    registered views: every other entry (other documents, design records,
    the keys of views that are not registered, other namespaces) keeps
    its value and its versionstamp. *)
Theorem step_writes_only (op : Op) (k : Key) (db : Cushion) :
  Wf db → k ≠ getDocumentKey (namespace db) (target op) →
  (∀ W, W ∈ (views db).*1 → ¬ in_view (namespace db) W k) →
  entries (kv (step db op)) !! k = entries (kv db) !! k.
Proof. apply step_frame. Qed.

(** *** Invariants of the loops of [rebuildView] *)

Section Invariant.

Variable P : Key → Prop.
Variable I : AtomicOperation KvValue → Store KvValue → Prop.
Hypothesis HI : batch_invariant P I.

Lemma delete_entry_inv
    (acc : AtomicOperation KvValue * nat * Store KvValue) k :
  P k → I acc.1.1 acc.2 →
  I (delete_entry acc k).1.1 (delete_entry acc k).2
  ∧ ((delete_entry acc k).1.2 = 0%nat → (delete_entry acc k).1.1 = atomic).
Proof using HI.
  intros Hk Hacc. unfold delete_entry.
  pose proof (proj2 HI _ _ [MDelete k]
                ltac:(by apply Forall_singleton) Hacc) as Hadd.
  case_decide; cbn [fst snd]; [|done].
  split; [|done]. by apply (proj1 HI).
Qed.

Lemma delete_entries_inv (ks : list Key)
    (acc : AtomicOperation KvValue * nat * Store KvValue) :
  Forall P ks → I acc.1.1 acc.2 → (acc.1.2 = 0%nat → acc.1.1 = atomic) →
  I (foldl delete_entry acc ks).1.1 (foldl delete_entry acc ks).2
  ∧ ((foldl delete_entry acc ks).1.2 = 0%nat →
     (foldl delete_entry acc ks).1.1 = atomic).
Proof using HI.
  revert acc. induction ks as [|k ks IH]; intros acc Hks Hacc Hz; [done|].
  apply Forall_cons in Hks as [Hk Hks].
  change (foldl delete_entry acc (k :: ks))
    with (foldl delete_entry (delete_entry acc k) ks).
  destruct (delete_entry_inv acc k Hk Hacc). by apply IH.
Qed.

End Invariant.

Section ViewInvariant.

Variables (N V : string).
Variable I : AtomicOperation KvValue → Store KvValue → Prop.
Hypothesis HI : batch_invariant (in_view N V) I.

Lemma delete_prefix_inv
    (acc : AtomicOperation KvValue * nat * Store KvValue) (p : Key) :
  p = getViewKey N V ∨ p = getViewRefPrefix N V →
  I acc.1.1 acc.2 → (acc.1.2 = 0%nat → acc.1.1 = atomic) →
  I (delete_prefix acc p).1.1 (delete_prefix acc p).2
  ∧ ((delete_prefix acc p).1.2 = 0%nat → (delete_prefix acc p).1.1 = atomic).
Proof using HI.
  intros Hp Hacc Hz. unfold delete_prefix.
  apply (delete_entries_inv _ _ HI); [|exact Hacc|exact Hz].
  apply Forall_forall. intros k ([k' x] & Hk & Hin)%list_elem_of_fmap.
  simpl in Hk. subst k'. apply elem_of_kv_list in Hin as [_ Hsel].
  apply bool_decide_eq_true in Hsel as [Hpre _].
  destruct Hp as [->| ->]; [by left|by right].
Qed.

Lemma after_delete_inv db :
  namespace db = N → I atomic (kv db) → I atomic (after_delete V db).
Proof using HI.
  intros HN Hdb. unfold after_delete. rewrite HN.
  change (foldl delete_prefix (atomic, 0%nat, kv db)
            [getViewKey N V; getViewRefPrefix N V])
    with (delete_prefix
            (delete_prefix (atomic, 0%nat, kv db) (getViewKey N V))
            (getViewRefPrefix N V)).
  destruct (delete_prefix_inv (atomic, 0%nat, kv db) _
              (or_introl eq_refl) Hdb (λ _, eq_refl)) as [H1 Hz1].
  destruct (delete_prefix_inv _ _ (or_intror eq_refl) H1 Hz1) as [H2 Hz2].
  case_decide as Hc.
  - by apply (proj1 HI).
  - rewrite Hz2 in H2; [done|lia].
Qed.

Lemma rebuild_doc_inv f (acc : AtomicOperation KvValue * nat * Cushion) d :
  namespace acc.2 = N →
  I acc.1.1 (kv acc.2) →
  I (rebuild_doc V f acc d).1.1 (kv (rebuild_doc V f acc d).2)
  ∧ ((rebuild_doc V f acc d).1.2 = 0%nat →
     (rebuild_doc V f acc d).1.1 = atomic).
Proof using HI.
  intros HN Hacc. unfold rebuild_doc. rewrite emit_all_eq.
  pose proof (proj2 HI _ _
                (doc_mutations (namespace acc.2) V f (_id d) d)
                ltac:(apply Forall_forall; intros mu; rewrite HN;
                      apply doc_mutations_keys) Hacc) as Hadd.
  unfold doc_mutations in Hadd. rewrite app_assoc in Hadd.
  case_decide; cbn [fst snd kv with_kv called namespace]; [|done].
  split; [|done]. by apply (proj1 HI).
Qed.

Lemma rebuild_docs_inv f (ds : list Doc)
    (acc : AtomicOperation KvValue * nat * Cushion) :
  namespace acc.2 = N →
  I acc.1.1 (kv acc.2) → (acc.1.2 = 0%nat → acc.1.1 = atomic) →
  I (foldl (rebuild_doc V f) acc ds).1.1
    (kv (foldl (rebuild_doc V f) acc ds).2)
  ∧ ((foldl (rebuild_doc V f) acc ds).1.2 = 0%nat →
     (foldl (rebuild_doc V f) acc ds).1.1 = atomic).
Proof using HI.
  revert acc. induction ds as [|d ds IH]; intros acc HN Hacc Hz; [done|].
  change (foldl (rebuild_doc V f) acc (d :: ds))
    with (foldl (rebuild_doc V f) (rebuild_doc V f acc d) ds).
  destruct (rebuild_doc_inv f acc d HN Hacc).
  apply IH; [by rewrite rebuild_doc_namespace|done..].
Qed.

(** [rebuildView] ends with the write of the design record on a store
    where the invariant holds. *)
Lemma rebuildView_inv f sig db :
  namespace db = N → I atomic (kv db) →
  ∃ kv2,
    I atomic kv2
    ∧ kv (rebuildView V f sig db)
      = kv_set (getDesignKey N V)
          (VState {| signature := sig; state := ready |}) kv2.
Proof using HI.
  intros HN Hdb. unfold rebuildView. fold (after_delete V db).
  fold (listed_docs (namespace db) (after_delete V db)).
  pose proof (after_delete_inv db HN Hdb) as H1.
  set (kv1 := after_delete V db) in *.
  destruct (rebuild_docs_inv f (listed_docs (namespace db) kv1)
              (atomic, 0%nat, with_kv kv1 db) HN H1 (λ _, eq_refl))
    as [H2 Hz2].
  set (built := foldl (rebuild_doc V f) (atomic, 0%nat, with_kv kv1 db) _)
    in *.
  rewrite HN. cbn [kv with_kv]. eexists. split; [|done].
  case_decide; cbn [kv with_kv].
  - by apply (proj1 HI).
  - rewrite Hz2 in H2; [done|lia].
Qed.

End ViewInvariant.

(** *** What a rebuild leaves alone *)

Lemma frame_invariant N V k kv0 :
  ¬ in_view N V k →
  batch_invariant (in_view N V)
    (λ b kv, keys_in (in_view N V) (mutations b)
             ∧ entries kv !! k = entries kv0 !! k).
Proof.
  intros Hk. split.
  - intros b kv [Hb Hkv]. split; [by apply Forall_nil|].
    unfold commit. destruct (forallb _ _); [|done]. cbn [snd entries].
    rewrite apply_mutations_frame; [done|].
    intros (mu & -> & Hin)%list_elem_of_fmap. apply Hk.
    unfold keys_in in Hb. rewrite Forall_forall in Hb. by apply Hb.
  - intros b kv mus Hmus [Hb Hkv]. split; [|done].
    simpl. by apply Forall_app.
Qed.

Lemma rebuildView_entries_frame V f sig db k :
  ¬ in_view (namespace db) V k → k ≠ getDesignKey (namespace db) V →
  entries (kv (rebuildView V f sig db)) !! k = entries (kv db) !! k.
Proof.
  intros Hk Hd.
  destruct (rebuildView_inv (namespace db) V _
              (frame_invariant (namespace db) V k (kv db) Hk) f sig db
              eq_refl) as (kv2 & [_ H2] & ->).
  { split; [by apply Forall_nil|done]. }
  unfold kv_set. rewrite commit_unchecked by done.
  cbn [snd entries mutations atomic_set atomic app apply_mutations foldl
       apply_mutation].
  by rewrite lookup_insert_ne.
Qed.

Section WithDigest.

Variable sha256_hex : string → string.

Lemma defineView_frame (V : string) (f : MapFunction)
    (r : option ReduceFunction) (k : Key) (db : Cushion) :
  ¬ in_view (namespace db) V k → k ≠ getDesignKey (namespace db) V →
  entries (kv (defineView sha256_hex V f r db)) !! k = entries (kv db) !! k.
Proof.
  intros Hk Hd. unfold defineView.
  repeat case_decide; try done.
  by rewrite rebuildView_entries_frame.
Qed.

(** X10: [defineView(V, ...)] writes nothing but rows and back-references of
    [V] and the design record of [V]: every other entry (documents, the
    rows of other views, other design records, other namespaces) keeps
    its value and its versionstamp, whether the view is rebuilt or not. *)
Theorem defineView_writes_only (V : string) (f : MapFunction)
    (r : option ReduceFunction) (k : Key) (db : Cushion) :
  ¬ in_view (namespace db) V k → k ≠ getDesignKey (namespace db) V →
  entries (kv (defineView sha256_hex V f r db)) !! k = entries (kv db) !! k.
Proof. apply defineView_frame. Qed.

(** X11: Namespaces are isolated: on a well-formed store no document
    operation and no view definition changes an entry whose key does not
    begin with the namespace of the database. *)
Theorem writes_stay_in_namespace (k : Key) (db : Cushion) :
  Wf db → head k ≠ Some (KStr (namespace db)) →
  (∀ op, entries (kv (step db op)) !! k = entries (kv db) !! k)
  ∧ (∀ V f r,
       entries (kv (defineView sha256_hex V f r db)) !! k
       = entries (kv db) !! k).
Proof.
  intros Hwf Hk.
  assert (∀ W, ¬ in_view (namespace db) W k) as Hv.
  { intros W [[k' ->]|[k' ->]]; by apply Hk. }
  split.
  - intros op. apply step_frame; [done| |by intros W _].
    intros ->. by apply Hk.
  - intros V f r. apply defineView_frame; [done|].
    intros ->. by apply Hk.
Qed.

End WithDigest.

End MaintainMore.

(** * Rebuilding a view on a store that holds documents *)

Module RebuildMore.

Import Cushion Spec MoreSpec KvProps CushionProps DocProps RebuildProps
  RebuildSync DefineProps DocClaims RebuildLog ViewClaims QueryClaims DocMore
  MaintainMore.

Implicit Types (N V W i j : string) (k : Key) (VP : Key) (d sd : Doc)
  (od : option Doc) (f : MapFunction) (vals : gmap Key KvValue)
  (g h : string → option Doc) (db : Cushion) (e : Emit) (lw : ViewLogic)
  (kv : Store KvValue) (ds : list Doc) (r : option ReduceFunction)
  (l : list (string * ViewLogic)) (b : AtomicOperation KvValue).

(** The stored form of the documents [get] returns. *)
Lemma stored_doc_get i sd db :
  Wf db →
  stored_doc (namespace db) (store_values (kv db)) i = Some sd
  ↔ ∃ d, get i db = Some d ∧ sd = delete "_rev" d.
Proof.
  intros Hwf. split.
  - unfold stored_doc. intros Hs.
    destruct (store_values (kv db) !! getDocumentKey (namespace db) i)
      as [v|] eqn:Hv; [|done].
    injection Hs as <-.
    destruct (proj1 Hwf _ v (docPrefix_docKey _ _) Hv)
      as (i' & sd & _ & -> & _ & Hrev).
    apply entries_values in Hv as [vs Hvs].
    exists (<["_rev" := JStr vs]> sd). split.
    + rewrite get_lookup. apply fmap_Some. by exists (VDoc sd, vs).
    + cbn [as_doc]. by rewrite delete_insert_eq, delete_id.
  - intros (d & Hget & ->).
    destruct (get_stored _ _ _ Hwf Hget) as (sd & rev0 & Hkv & -> & _ & Hrev).
    unfold stored_doc. apply fmap_Some. exists (VDoc sd). split.
    + apply entries_values. by exists rev0.
    + cbn [as_doc]. by rewrite delete_insert_eq, delete_id.
Qed.

Lemma stored_doc_None i db :
  stored_doc (namespace db) (store_values (kv db)) i = None
  ↔ get i db = None.
Proof.
  unfold stored_doc. rewrite fmap_None, get_None.
  symmetry. apply entries_values_None.
Qed.

Lemma refPrefix_disjoint N V W k :
  V ≠ W → getViewRefPrefix N V `prefix_of` k → ¬ in_view N W k.
Proof. intros Hne Hp Hin. key_solve. Qed.

Lemma rebuild_doc_map_calls V f
    (acc : AtomicOperation KvValue * nat * Cushion) d :
  map_calls (rebuild_doc V f acc d).2 = map_calls acc.2 ++ [(V, d)].
Proof. unfold rebuild_doc. by case_decide. Qed.

Lemma rebuild_docs_map_calls V f ds
    (acc : AtomicOperation KvValue * nat * Cushion) :
  map_calls (foldl (rebuild_doc V f) acc ds).2
  = map_calls acc.2 ++ ((λ d, (V, d)) <$> ds).
Proof.
  revert acc. induction ds as [|d ds IH]; intros acc.
  - simpl. by rewrite app_nil_r.
  - change (foldl (rebuild_doc V f) acc (d :: ds))
      with (foldl (rebuild_doc V f) (rebuild_doc V f acc d) ds).
    rewrite IH, rebuild_doc_map_calls. by rewrite <- app_assoc.
Qed.

Lemma rebuildView_map_calls V f sig db :
  map_calls (rebuildView V f sig db)
  = map_calls db
    ++ ((λ d, (V, d)) <$> listed_docs (namespace db) (after_delete V db)).
Proof.
  unfold rebuildView. fold (after_delete V db).
  fold (listed_docs (namespace db) (after_delete V db)).
  set (kv1 := after_delete V db).
  pose proof (rebuild_docs_map_calls V f (listed_docs (namespace db) kv1)
                (atomic, 0%nat, with_kv kv1 db)) as Hm.
  set (built := foldl (rebuild_doc V f) (atomic, 0%nat, with_kv kv1 db) _)
    in *.
  cbn [map_calls with_kv]. cbn [snd map_calls with_kv] in Hm.
  by case_decide.
Qed.

Section WithDigest.

Variable sha256_hex : string → string.

Lemma defineView_rebuild_eq V f r db :
  signature <$> design_record V db ≠ Some (hashFunction sha256_hex f) →
  state <$> design_record V db ≠ Some building →
  defineView sha256_hex V f r db
  = rebuildView V f (hashFunction sha256_hex f)
      (with_views (views_set V {| map_fn := f; reduce_fn := r |} (views db))
         db).
Proof.
  intros Hsig Hst. unfold defineView. rewrite design_record_with_views.
  by rewrite !decide_False.
Qed.

(** X12: A rebuild brings the view in step with the stored documents.  When
    [defineView] rebuilds (the persisted signature differs and the record
    is not "building") a view whose keys are exact, on a well-formed
    store that accepts every batch of the rebuild: the design record becomes
    [{signature, "ready"}]; every document is read back as before; the
    rows under the row prefix are exactly the rows of the last emission
    per key of every live document, mapped without its [_rev]; the
    back-reference of a live document lists the keys it emits, and an
    absent document has none.  Rows and back-references left by earlier
    versions of the view are gone. *)
Theorem defineView_rebuilds (V : string) (f : MapFunction)
    (r : option ReduceFunction) (db : Cushion) :
  Wf db →
  signature <$> design_record V db ≠ Some (hashFunction sha256_hex f) →
  state <$> design_record V db ≠ Some building →
  exact_keys f →
  within_limits (kv (defineView sha256_hex V f r db)) = true →
  design_record V (defineView sha256_hex V f r db)
    = Some {| signature := hashFunction sha256_hex f; state := ready |}
  ∧ (∀ j, get j (defineView sha256_hex V f r db) = get j db)
  ∧ (∀ k v,
       (getViewKey (namespace db) V `prefix_of` k
        ∧ ∃ vs, entries (kv (defineView sha256_hex V f r db)) !! k
                = Some (v, vs))
       ↔ ∃ i d e,
           get i db = Some d
           ∧ last_emit (getViewKey (namespace db) V) i
               (run f (delete "_rev" d)) k = Some e
           ∧ v = row_of (delete "_rev" d) e)
  ∧ (∀ i d, get i db = Some d →
       ∃ vs,
         entries (kv (defineView sha256_hex V f r db))
           !! getViewRefKey (namespace db) V i
         = Some (VKeys (viewKey (getViewKey (namespace db) V) i
                          <$> run f (delete "_rev" d)), vs))
  ∧ (∀ i, get i db = None →
       entries (kv (defineView sha256_hex V f r db))
         !! getViewRefKey (namespace db) V i = None).
Proof.
  intros Hwf Hsig Hst _ _. rewrite defineView_rebuild_eq by done.
  set (db0 := with_views _ db).
  assert (Wf db0) as Hwf0 by by apply Wf_with_views.
  assert (∀ j, get j (rebuildView V f (hashFunction sha256_hex f) db0)
               = get j db) as Hget.
  { intros j. rewrite !get_lookup, rebuildView_namespace.
    rewrite rebuildView_entries_frame; [done|apply docKey_no_view|].
    apply not_eq_sym, designKey_ne_docKey. }
  pose proof (rebuildView_sync V f (hashFunction sha256_hex f) db0 Hwf0)
    as [Hr Hf].
  pose proof (Wf_rebuildView V f (hashFunction sha256_hex f) db0 Hwf0)
    as Hwf1.
  assert (∀ i sd,
            stored_doc (namespace db)
              (store_values
                 (kv (rebuildView V f (hashFunction sha256_hex f) db0))) i
            = Some sd
            ↔ ∃ d, get i db = Some d ∧ sd = delete "_rev" d) as Hstored.
  { intros i sd.
    pose proof (stored_doc_get i sd _ Hwf1) as Hs.
    rewrite rebuildView_namespace in Hs. cbn [namespace db0 with_views] in Hs.
    rewrite Hs. by setoid_rewrite Hget. }
  cbn [namespace db0 with_views] in Hr, Hf.
  split; [apply design_record_rebuildView|]. split; [done|].
  split; [|split].
  - intros k v. rewrite entries_values. split.
    + intros [Hk Hv]. rewrite Hr in Hv by done.
      apply expected_row_Some in Hv as (i & sd & e & Hsd & He & ->).
      apply Hstored in Hsd as (d & Hd & ->). eauto 10.
    + intros (i & d & e & Hd & He & ->).
      destruct (last_emit_Some _ _ _ _ _ He) as [_ Hk].
      assert (getViewKey (namespace db) V `prefix_of` k) as Hp.
      { rewrite <- Hk. apply viewKey_prefix. }
      split; [done|]. rewrite Hr by done.
      apply expected_row_Some. exists i, (delete "_rev" d), e.
      split; [|done]. apply Hstored. eauto.
  - intros i d Hd. apply entries_values. rewrite Hf. unfold expected_ref.
    assert (stored_doc (namespace db)
              (store_values
                 (kv (rebuildView V f (hashFunction sha256_hex f) db0))) i
            = Some (delete "_rev" d)) as -> by (apply Hstored; eauto).
    done.
  - intros i Hd. apply entries_values_None. rewrite Hf. unfold expected_ref.
    assert (stored_doc (namespace db)
              (store_values
                 (kv (rebuildView V f (hashFunction sha256_hex f) db0))) i
            = None) as ->; [|done].
    pose proof (stored_doc_None i
                  (rebuildView V f (hashFunction sha256_hex f) db0)) as Hs.
    rewrite rebuildView_namespace in Hs. cbn [namespace db0 with_views] in Hs.
    apply Hs. by rewrite Hget.
Qed.


(** X14: A view that is persisted but not registered in the running process
    is not maintained: on a well-formed store a document operation
    leaves all its rows and back-references as they are, and a later
    [defineView] with a function of the persisted signature does not
    rebuild it, so they still are as they were before the operation. *)
Theorem unregistered_view_goes_stale (V : string) (f : MapFunction)
    (r : option ReduceFunction) (op : Op) (k : Key) (db : Cushion) :
  Wf db → V ∉ (views db).*1 →
  signature <$> design_record V db = Some (hashFunction sha256_hex f) →
  in_view (namespace db) V k →
  entries (kv (step db op)) !! k = entries (kv db) !! k
  ∧ entries (kv (defineView sha256_hex V f r (step db op))) !! k
    = entries (kv db) !! k.
Proof.
  intros Hwf HV Hsig Hk.
  assert (∀ k', in_view (namespace db) V k' ∨ k' = getDesignKey (namespace db) V →
            entries (kv (step db op)) !! k' = entries (kv db) !! k') as Hstep.
  { intros k' Hk'. apply step_frame; [done|..].
    - destruct Hk' as [Hk'| ->].
      + intros ->. by apply docKey_no_view in Hk'.
      + apply designKey_ne_docKey.
    - intros W HW. assert (V ≠ W) as Hne by (by intros ->).
      destruct Hk' as [[Hk'|Hk']| ->].
      + by apply (view_disjoint _ V W).
      + by apply (refPrefix_disjoint _ V W).
      + apply designKey_no_view. }
  split; [by apply Hstep; left|].
  assert (namespace (step db op) = namespace db) as HN.
  { destruct op as [uuid d|i rev0 d|i rev0]; cbn [step].
    - rewrite insert_cases. cbn zeta.
      destruct (decide (is_Some (d !! "_rev"))) as [|Hrev]; [done|].
      case_decide; [|done]. cbn [snd]. apply eq_None_not_Some in Hrev.
      destruct (stored_insert_fields (insert_id d uuid) d Hrev) as [Hi Hr].
      by rewrite updateViewsForDoc_namespace by by apply Wf_set_doc.
    - rewrite replace_cases. cbn zeta. case_decide; [|done]. cbn [snd].
      destruct (stored_replace_fields i d) as [Hi Hr].
      by rewrite updateViewsForDoc_namespace by by apply Wf_set_doc.
    - rewrite remove_cases. cbn zeta. case_decide; [|done]. cbn [snd].
      by rewrite updateViewsForDoc_namespace by by apply Wf_delete_doc. }
  assert (design_record V (step db op) = design_record V db) as Hrec.
  { unfold design_record, kv_get. rewrite HN.
    by rewrite Hstep by by right. }
  unfold defineView. rewrite design_record_with_views, Hrec.
  rewrite decide_True by done. cbn [kv with_views]. by apply Hstep; left.
Qed.

End WithDigest.

End RebuildMore.

(** * Revisions *)

Module StampMore.

Import Cushion Spec MoreSpec KvProps CushionProps DocProps RebuildProps
  RebuildSync DefineProps DocClaims RebuildLog ViewClaims QueryClaims DocMore
  MaintainMore RebuildMore.

Implicit Types (N V W i j : string) (k : Key) (VP : Key) (d sd : Doc)
  (od : option Doc) (f : MapFunction) (vals : gmap Key KvValue)
  (g h : string → option Doc) (db : Cushion) (e : Emit) (lw : ViewLogic)
  (kv : Store KvValue) (ds : list Doc) (r : option ReduceFunction)
  (l : list (string * ViewLogic)) (b : AtomicOperation KvValue).

(** *** Versionstamps *)

Lemma hex_digit_inj (a c : N) :
  (a < 16)%N → (c < 16)%N → hex_digit a = hex_digit c → a = c.
Proof.
  intros Ha Hc.
  assert (∀ x, (x < 16)%N →
            x = 0 ∨ x = 1 ∨ x = 2 ∨ x = 3 ∨ x = 4 ∨ x = 5 ∨ x = 6 ∨ x = 7
            ∨ x = 8 ∨ x = 9 ∨ x = 10 ∨ x = 11 ∨ x = 12 ∨ x = 13 ∨ x = 14
            ∨ x = 15)%N as Hcases by (intros; lia).
  destruct (Hcases a Ha) as [->|[->|[->|[->|[->|[->|[->|[->|[->|[->|[->|[->|[->|
    [->|[->| ->]]]]]]]]]]]]]]];
  destruct (Hcases c Hc) as [->|[->|[->|[->|[->|[->|[->|[->|[->|[->|[->|[->|[->|
    [->|[->| ->]]]]]]]]]]]]]]]; done.
Qed.

Lemma hex_fixed_inj (digits : nat) (n m : N) (acc acc' : string) :
  hex_fixed digits n acc = hex_fixed digits m acc' →
  (n mod 16 ^ N.of_nat digits = m mod 16 ^ N.of_nat digits)%N ∧ acc = acc'.
Proof.
  revert n m acc acc'. induction digits as [|dg IH]; intros n m acc acc' H.
  - simpl in *. by rewrite !N.mod_1_r.
  - cbn [hex_fixed] in H. apply IH in H as [Hq [= Hd ->]].
    split; [|done].
    apply hex_digit_inj in Hd; [|by apply N.mod_lt..].
    rewrite Nat2N.inj_succ, N.pow_succ_r'.
    rewrite !N.Div0.mod_mul_r. by rewrite Hq, Hd.
Qed.

Lemma versionstamp_of_inj (n m : N) :
  (n < 16 ^ 20)%N → (m < 16 ^ 20)%N →
  versionstamp_of n = versionstamp_of m → n = m.
Proof.
  intros Hn Hm [H _]%hex_fixed_inj.
  change (N.of_nat 20) with 20%N in H.
  by rewrite !N.mod_small in H.
Qed.

Lemma apply_mutations_stamps (Q : Versionstamp → Prop) (vs : Versionstamp)
    (ms : list (Mutation KvValue)) (E : gmap Key (KvValue * Versionstamp)) :
  Q vs → (∀ k x, E !! k = Some x → Q x.2) →
  ∀ k x, apply_mutations vs ms E !! k = Some x → Q x.2.
Proof.
  intros Hvs. revert E. induction ms as [|mu ms IH]; intros E HE; [done|].
  change (apply_mutations vs (mu :: ms) E)
    with (apply_mutations vs ms (apply_mutation vs E mu)).
  apply IH. intros k x. destruct mu as [k' v|k']; simpl.
  - destruct (decide (k' = k)) as [->|Hne].
    + rewrite lookup_insert_eq. by intros [= <-].
    + rewrite lookup_insert_ne by done. apply HE.
  - destruct (decide (k' = k)) as [->|Hne].
    + by rewrite lookup_delete_eq.
    + rewrite lookup_delete_ne by done. apply HE.
Qed.

Lemma commit_stamps (a : AtomicOperation KvValue) kv :
  StampsOk kv → StampsOk (commit a kv).2.
Proof.
  intros Hkv. unfold commit. destruct (forallb _ _); [|done].
  cbn [snd]. intros k x. cbn [entries clock].
  apply (apply_mutations_stamps
           (λ vs, ∃ n, (n ≤ clock kv + 1)%N ∧ vs = versionstamp_of n)).
  - exists (clock kv + 1)%N. split; [lia|done].
  - intros k' x' Hx'. destruct (Hkv _ _ Hx') as (n & Hn & ->).
    exists n. split; [lia|done].
Qed.

Lemma stamps_invariant (P : Key → Prop) :
  batch_invariant P (λ _ kv, StampsOk kv).
Proof. split; [|done]. intros b kv. apply commit_stamps. Qed.

Lemma updateViews_stamps l i od db :
  StampsOk (kv db) → StampsOk (kv (foldl (updateView i od) db l)).
Proof.
  revert db. induction l as [|[W lw] l IH]; intros db Hdb; [done|].
  change (foldl (updateView i od) db ((W, lw) :: l))
    with (foldl (updateView i od) (updateView i od db (W, lw)) l).
  apply IH. rewrite updateView_kv. by apply commit_stamps.
Qed.

Lemma committed_stamps (mu : Mutation KvValue) kv :
  StampsOk kv → StampsOk (committed mu kv).
Proof.
  intros Hkv.
  by apply (commit_stamps {| checks := []; mutations := [mu] |}).
Qed.

Lemma step_stamps (op : Op) db : StampsOk (kv db) → StampsOk (kv (step db op)).
Proof.
  intros Hdb. destruct op as [uuid d|i rev0 d|i rev0]; cbn [step].
  - rewrite insert_cases. cbn zeta. repeat case_decide; try done.
    cbn [snd]. by apply updateViews_stamps, committed_stamps.
  - rewrite replace_cases. cbn zeta. case_decide; [|done].
    cbn [snd]. by apply updateViews_stamps, committed_stamps.
  - rewrite remove_cases. cbn zeta. case_decide; [|done].
    cbn [snd]. by apply updateViews_stamps, committed_stamps.
Qed.

Section WithDigest.

Variable sha256_hex : string → string.

Lemma defineView_stamps V f r db :
  StampsOk (kv db) → StampsOk (kv (defineView sha256_hex V f r db)).
Proof.
  intros Hdb. unfold defineView. repeat case_decide; try done.
  destruct (rebuildView_inv (namespace db) V _
              (stamps_invariant _) f (hashFunction sha256_hex f)
              (with_views
                 (views_set V {| map_fn := f; reduce_fn := r |} (views db))
                 db) eq_refl Hdb) as (kv2 & H2 & ->).
  by apply commit_stamps.
Qed.

Lemma Reachable_stamps db : Reachable sha256_hex db → StampsOk (kv db).
Proof.
  induction 1 as [N|db _ IH|V f r db _ IH|uuid d db _ IH|i rev0 d db _ IH
                  |i rev0 db _ IH].
  - by intros k x.
  - done.
  - by apply defineView_stamps.
  - by apply (step_stamps (OpInsert uuid d)).
  - by apply (step_stamps (OpReplace i rev0 d)).
  - by apply (step_stamps (OpRemove i rev0)).
Qed.

(** X6: Every database the program produces from an empty store, by any
    history of view definitions, document operations and reopening, is
    well-formed: what is stored below the document prefix is a document
    without [_rev] whose [_id] is the last part of its key, every
    back-reference names keys below the row prefix of its view only, and
    nothing is stored under a bare row prefix. *)
Theorem reachable_well_formed (db : Cushion) :
  Reachable sha256_hex db → Wf db.
Proof. apply Reachable_Wf. Qed.

(** X16: [defineView] is idempotent on the store: a second call for the same
    view with a function of the same text, right after a first one and
    from any state, replaces the registry entry and nothing else; the
    store, the commit log and the record of map calls stay as the first
    call left them. *)
Theorem defineView_idempotent (V : string) (f : MapFunction)
    (r r' : option ReduceFunction) (db : Cushion) :
  defineView sha256_hex V f r' (defineView sha256_hex V f r db)
  = with_views
      (views_set V {| map_fn := f; reduce_fn := r' |}
         (views (defineView sha256_hex V f r db)))
      (defineView sha256_hex V f r db).
Proof. apply defineView_twice. Qed.

(** X5: Optimistic concurrency: in a database reached from an empty store
    (with fewer than 16^20 commits, the range of a versionstamp), a
    successful [replace(id, rev, doc)] returns a revision different from
    [rev], [get(id)] then carries the new revision, and [rev] is stale: a
    second [replace] or a [remove] with it fails with RevisionConflict
    and changes nothing. *)
Theorem replace_makes_rev_stale (i rev0 : string) (d d' : Doc)
    (res : InsertResult) (db : Cushion) :
  Reachable sha256_hex db → (clock (kv db) + 1 < 16 ^ 20)%N →
  (replace i rev0 d db).1 = Ok res →
  rev res ≠ rev0
  ∧ (∃ dnew, get i (replace i rev0 d db).2 = Some dnew
             ∧ dnew !! "_rev" = Some (JStr (rev res)))
  ∧ replace i rev0 d' (replace i rev0 d db).2
    = (Err RevisionConflict, (replace i rev0 d db).2)
  ∧ remove i rev0 (replace i rev0 d db).2
    = (Err RevisionConflict, (replace i rev0 d db).2).
Proof.
  intros Hreach Hclock Hres.
  pose proof (Reachable_Wf sha256_hex db Hreach) as Hwf.
  pose proof (Reachable_stamps db Hreach) as Hst.
  destruct (replace_ok _ _ _ _ _ Hwf Hres) as (Hcur & -> & HN & _ & Hget).
  cbn [rev].
  assert (next_versionstamp (kv db) ≠ rev0) as Hne.
  { unfold versionstamp_at in Hcur.
    destruct (entries (kv db) !! _) as [x|] eqn:Hx; [|done].
    injection Hcur as <-.
    destruct (Hst _ _ Hx) as (n & Hn & ->).
    unfold next_versionstamp. cbn [snd]. intros Heq.
    apply versionstamp_of_inj in Heq; lia. }
  split; [done|].
  specialize (Hget i). unfold upd in Hget. rewrite decide_True in Hget by done.
  split.
  { eexists. split; [exact Hget|]. by rewrite lookup_insert_eq. }
  destruct (get_rev _ _ _ Hget) as (rev1 & Hrev1 & Hat).
  rewrite lookup_insert_eq in Hrev1. injection Hrev1 as <-.
  split.
  - rewrite replace_cases. cbn zeta. rewrite decide_False; [done|].
    rewrite Hat. by intros [= ?].
  - rewrite remove_cases. cbn zeta. rewrite decide_False; [done|].
    rewrite Hat. by intros [= ?].
Qed.

End WithDigest.

End StampMore.

(** * The query executor: errors and pagination *)

Module QueryMore.

Import Cushion Spec MoreSpec ViewQueryProps KvProps CushionProps DocProps
  RebuildProps RebuildSync DefineProps DocClaims RebuildLog ViewClaims
  QueryClaims DocMore MaintainMore RebuildMore.

Implicit Types (N V W i j : string) (k : Key) (VP : Key) (d sd : Doc)
  (od : option Doc) (f : MapFunction) (vals : gmap Key KvValue)
  (g h : string → option Doc) (db : Cushion) (e : Emit) (lw : ViewLogic)
  (kv : Store KvValue) (ds : list Doc) (r : option ReduceFunction)
  (l : list (string * ViewLogic)) (m : MapRow) (q : ViewQuery.ViewQuery)
  (sel : KvListSelector) (es : list (Key * (KvValue * Versionstamp))).

(** *** The two paths of [query] *)

Lemma getParams_fields q :
  ViewQuery.viewName (ViewQuery.getParams q) = ViewQuery._viewName q
  ∧ ViewQuery.p_reduce (ViewQuery.getParams q) = ViewQuery._reduce q
  ∧ ViewQuery.p_includeDocs (ViewQuery.getParams q) = ViewQuery._includeDocs q
  ∧ ViewQuery.descending (ViewQuery.getParams q) = ViewQuery._descending q
  ∧ ViewQuery.p_limit (ViewQuery.getParams q) = ViewQuery._limit q
  ∧ ViewQuery.p_skip (ViewQuery.getParams q) = ViewQuery._skip q.
Proof. unfold ViewQuery.getParams. by repeat case_match. Qed.

Lemma shape_getParams q :
  ViewQuery.shape (ViewQuery.getParams q)
  = match ViewQuery._key q with
    | Some k => ViewQuery.SKey k
    | None =>
      match ViewQuery._keys q with
      | Some ks => ViewQuery.SKeys ks
      | None =>
        match ViewQuery._prefix q with
        | Some p => ViewQuery.SPrefix p
        | None =>
          match ViewQuery._startKey q, ViewQuery._endKey q with
          | Some s, Some e =>
              ViewQuery.SRange s e (ViewQuery._startKeyDocId q)
                (ViewQuery._endKeyDocId q) (ViewQuery._groupLevel q)
          | _, _ => ViewQuery.Scan (ViewQuery._groupLevel q)
          end
        end
      end
    end.
Proof. unfold ViewQuery.getParams. by repeat case_match. Qed.

Lemma query_cases q db :
  query q db
  = match views_get (ViewQuery._viewName q) (views db) with
    | None => Err UndefinedView
    | Some lw =>
        match selector_of (getViewKey (namespace db) (ViewQuery._viewName q))
                (ViewQuery.shape (ViewQuery.getParams q)) with
        | Err err => Err err
        | Ok sel =>
            let es :=
              kv_list sel
                {| reverse := ViewQuery._descending q;
                   limit := Some (kv_limit q) |} (kv db) in
            match ViewQuery._reduce q, reduce_fn lw with
            | true, Some rf => Ok (queryReduce es rf 3 (ViewQuery.getParams q))
            | _, _ =>
                Ok (RMap ∘ entry_row 3 (ViewQuery._includeDocs q)
                      <$> drop_skipped (ViewQuery._skip q) 0 es)
            end
        end
    end.
Proof.
  unfold query, kv_limit.
  destruct (getParams_fields q) as (-> & -> & -> & -> & -> & ->).
  reflexivity.
Qed.

Lemma kv_list_limited sel q (lim : number) kv :
  kv_list sel {| reverse := ViewQuery._descending q; limit := Some lim |} kv
  = take_limit lim 0 (selected sel q kv).
Proof. unfold kv_list, selected, no_options. cbn [reverse limit]. done. Qed.

Lemma map_rows_Ok (F : Key * (KvValue * Versionstamp) → MapRow) es :
  map_rows (Ok (RMap ∘ F <$> es)) = F <$> es.
Proof.
  unfold map_rows. induction es as [|x es IH]; [done|].
  cbn. by rewrite IH.
Qed.

(** *** Numbers that are integers *)

Lemma ge_of_Z (c z : Z) (ql : Q) :
  (ql == inject_Z z)%Q → ge (of_Z c) (Fin ql) = (z <=? c).
Proof.
  intros Hq. unfold ge, gt, strict_eq, of_Z.
  destruct (Z.leb_spec z c) as [Hle|Hlt].
  - destruct (Qle_bool (inject_Z c) ql) eqn:Hb; [|done]. simpl.
    apply Qle_bool_iff in Hb. rewrite Hq in Hb. rewrite <- Zle_Qle in Hb.
    apply Qeq_bool_iff. rewrite Hq. apply inject_Z_injective. lia.
  - apply orb_false_iff. split.
    + apply negb_false_iff, Qle_bool_iff. rewrite Hq, <- Zle_Qle. lia.
    + destruct (Qeq_bool (inject_Z c) ql) eqn:Hb; [|done].
      apply Qeq_bool_iff in Hb. rewrite Hq in Hb.
      apply (proj1 (inject_Z_injective c z)) in Hb. lia.
Qed.

Lemma lt_of_Z (c n : Z) : lt (of_Z c) (of_Z n) = (c <? n).
Proof.
  unfold lt, gt, of_Z. destruct (Z.ltb_spec c n) as [Hlt|Hle].
  - apply negb_true_iff. destruct (Qle_bool _ _) eqn:Hb; [|done].
    apply Qle_bool_iff in Hb. rewrite <- Zle_Qle in Hb. lia.
  - apply negb_false_iff, Qle_bool_iff. by rewrite <- Zle_Qle.
Qed.

Lemma take_limit_Fin {A} (ql : Q) (z c : Z) (xs : list A) :
  (ql == inject_Z z)%Q → take_limit (Fin ql) c xs = take (Z.to_nat (z - c)) xs.
Proof.
  intros Hq. revert c. induction xs as [|x xs IH]; intros c.
  - by rewrite take_nil.
  - cbn [take_limit]. rewrite (ge_of_Z c z ql Hq).
    destruct (Z.leb_spec z c) as [Hle|Hlt].
    + by replace (Z.to_nat (z - c)) with 0%nat by lia.
    + rewrite IH. replace (Z.to_nat (z - c)) with (S (Z.to_nat (z - (c + 1))))
        by lia. done.
Qed.

Lemma drop_skipped_of_Z {A} (n c : Z) (xs : list A) :
  drop_skipped (of_Z n) c xs = drop (Z.to_nat (n - c)) xs.
Proof.
  revert c. induction xs as [|x xs IH]; intros c.
  - by rewrite drop_nil.
  - cbn [drop_skipped]. rewrite lt_of_Z.
    destruct (Z.ltb_spec c n) as [Hlt|Hle].
    + rewrite IH. replace (Z.to_nat (n - c)) with (S (Z.to_nat (n - (c + 1))))
        by lia. done.
    + by replace (Z.to_nat (n - c)) with 0%nat by lia.
Qed.

Lemma stored_of_Z (z : Z) :
  0 <= z < 2 ^ 31 → double_tilde (Math_max (of_Z 0) (of_Z z)) = of_Z z.
Proof.
  intros Hz. unfold of_Z at 2. rewrite clamp_in_range.
  - unfold clamp_trunc. rewrite trunc_inject_Z. f_equal. lia.
  - rewrite trunc_inject_Z. lia.
Qed.

(** *** Errors *)

(** X17: [query] fails with UndefinedView when the view is not registered in
    this process, whatever the query; on a registered view, a query built
    with [keys(...)] and without [key(...)] fails with NotImplemented,
    whatever the other calls of the builder. *)
Theorem query_errors q db :
  (views_get (ViewQuery._viewName q) (views db) = None →
   query q db = Err UndefinedView)
  ∧ (is_Some (views_get (ViewQuery._viewName q) (views db)) →
     ViewQuery._key q = None → is_Some (ViewQuery._keys q) →
     query q db = Err NotImplemented).
Proof.
  rewrite query_cases. split.
  - by intros ->.
  - intros [lw ->] Hkey [ks Hks]. unfold ViewQuery.getParams.
    by rewrite Hkey, Hks.
Qed.

(** *** Pagination *)

(** X18: [skip(n).limit(m)] on a map-only query (scan, key, prefix or range;
    ascending or descending) that had neither: for integers
    [0 <= n < 2^31] and [1 <= m < 2^31] the rows are the rows of the
    unpaginated query from position [n] on, at most [m] of them. *)
Theorem skip_limit_window q lw sel (n m : Z) db :
  views_get (ViewQuery._viewName q) (views db) = Some lw →
  selector_of (getViewKey (namespace db) (ViewQuery._viewName q))
    (ViewQuery.shape (ViewQuery.getParams q)) = Ok sel →
  ViewQuery._reduce q = false ∨ reduce_fn lw = None →
  ViewQuery._skip q = of_Z 0 → ViewQuery._limit q = PosInf →
  0 <= n < 2 ^ 31 → 1 <= m < 2 ^ 31 →
  map_rows (query (ViewQuery.skip (of_Z n) (ViewQuery.limit (of_Z m) q)) db)
  = take (Z.to_nat m) (drop (Z.to_nat n) (map_rows (query q db))).
Proof.
  intros Hview Hsel Hmap Hskip Hlimit Hn Hm.
  assert (∀ q', ViewQuery._viewName q' = ViewQuery._viewName q →
            ViewQuery.shape (ViewQuery.getParams q')
              = ViewQuery.shape (ViewQuery.getParams q) →
            ViewQuery._reduce q' = ViewQuery._reduce q →
            ViewQuery._includeDocs q' = ViewQuery._includeDocs q →
            ViewQuery._descending q' = ViewQuery._descending q →
            map_rows (query q' db)
            = entry_row 3 (ViewQuery._includeDocs q)
                <$> drop_skipped (ViewQuery._skip q') 0
                      (take_limit (kv_limit q') 0 (selected sel q (kv db))))
    as Hq.
  { intros q' HV Hs Hr Hi Hd. rewrite query_cases, HV, Hview, Hs, Hsel.
    cbn zeta. rewrite Hr, Hi, kv_list_limited.
    assert (selected sel q' (kv db) = selected sel q (kv db)) as ->
      by (unfold selected; by rewrite Hd).
    destruct Hmap as [-> | ->]; [|destruct (ViewQuery._reduce q)];
      apply map_rows_Ok. }
  rewrite (Hq q) by done.
  rewrite (Hq (ViewQuery.skip (of_Z n) (ViewQuery.limit (of_Z m) q)))
    by (try reflexivity; by rewrite !shape_getParams).
  unfold kv_limit.
  cbn [ViewQuery._skip ViewQuery._limit ViewQuery.skip ViewQuery.limit].
  rewrite Hskip, Hlimit, !stored_of_Z by lia.
  change (truthy (JNum (of_Z 0))) with false. cbn iota.
  rewrite take_limit_PosInf, drop_skipped_zero.
  rewrite <- fmap_drop, <- fmap_take. f_equal.
  rewrite drop_skipped_of_Z, Z.sub_0_r.
  assert (take_limit
            (if truthy (JNum (of_Z n)) then add (of_Z m) (of_Z n)
             else of_Z m) 0 (selected sel q (kv db))
          = take (Z.to_nat n + Z.to_nat m) (selected sel q (kv db))) as ->.
  { destruct (decide (n = 0)) as [->|Hn0].
    - change (truthy (JNum (of_Z 0))) with false. cbn iota.
      unfold of_Z. rewrite (take_limit_Fin _ m) by reflexivity.
      by rewrite Z.sub_0_r.
    - assert (truthy (JNum (of_Z n)) = true) as ->.
      { unfold truthy, of_Z. apply negb_true_iff.
        destruct (Qeq_bool (inject_Z n) 0) eqn:Hb; [|done].
        apply Qeq_bool_iff in Hb. change 0%Q with (inject_Z 0) in Hb.
        apply (proj1 (inject_Z_injective n 0)) in Hb. lia. }
      unfold add, of_Z. rewrite (take_limit_Fin _ (m + n)).
      + f_equal. lia.
      + by rewrite inject_Z_plus. }
  by rewrite take_drop_commute.
Qed.

End QueryMore.

(** * The rows of a map-only query *)

Module RowsMore.

Import Cushion Spec MoreSpec ViewQueryProps KvProps CushionProps DocProps
  RebuildProps RebuildSync DefineProps DocClaims RebuildLog ViewClaims
  QueryClaims DocMore MaintainMore RebuildMore QueryMore.

Implicit Types (N V W i j : string) (k : Key) (VP : Key) (d sd : Doc)
  (od : option Doc) (f : MapFunction) (vals : gmap Key KvValue)
  (g h : string → option Doc) (db : Cushion) (e : Emit) (lw : ViewLogic)
  (kv : Store KvValue) (ds : list Doc) (r : option ReduceFunction)
  (l : list (string * ViewLogic)) (m : MapRow) (q : ViewQuery.ViewQuery)
  (sel : KvListSelector) (es : list (Key * (KvValue * Versionstamp)))
  (p : list KeyPart).

(** *** The composite key, taken apart *)

Lemma slice_inner_viewKey VP i e :
  slice_inner (length VP) (viewKey VP i e) = keyParts (emit_key e).
Proof.
  unfold slice_inner, viewKey. rewrite !length_app. simpl.
  replace (length VP + (length (keyParts (emit_key e)) + 1) - 1)%nat
    with (length (VP ++ keyParts (emit_key e)))
    by (rewrite length_app; lia).
  rewrite app_assoc, take_app_length. by rewrite drop_app_length.
Qed.

Lemma selects_prefix_viewKey VP p i e :
  selects (SelPrefix (VP ++ p)) (viewKey VP i e) = true
  ↔ p `prefix_of` keyParts (emit_key e).
Proof.
  unfold selects, viewKey. rewrite bool_decide_eq_true. split.
  - intros [Hp Hne]. apply prefix_app_inv in Hp.
    destruct Hp as [t Ht].
    destruct (decide (t = [])) as [->|Hnil].
    { exfalso. apply Hne. rewrite app_nil_r in Ht. by rewrite Ht. }
    destruct (exists_last Hnil) as (t' & x & ->).
    rewrite app_assoc in Ht. apply app_inj_tail in Ht as [-> _].
    by exists t'.
  - intros [t Ht]. rewrite Ht. split.
    + apply prefix_app, prefix_app_r. by apply prefix_app_r.
    + intros Heq%(f_equal length). rewrite !length_app in Heq.
      simpl in Heq. lia.
Qed.

Lemma elem_of_selected sel q kv (entry : Key * (KvValue * Versionstamp)) :
  entry ∈ selected sel q kv
  ↔ entries kv !! entry.1 = Some entry.2 ∧ selects sel entry.1 = true.
Proof.
  destruct entry as [k x]. rewrite <- elem_of_kv_list. unfold selected.
  destruct (ViewQuery._descending q); [|done].
  rewrite !list_elem_of_In. symmetry. apply in_rev.
Qed.


End RowsMore.

(** * Reduce queries *)

Module ReduceMore.

Import Cushion Spec MoreSpec ViewQueryProps KvProps CushionProps DocProps
  RebuildProps RebuildSync DefineProps DocClaims RebuildLog ViewClaims
  QueryClaims DocMore MaintainMore RebuildMore QueryMore RowsMore.

Implicit Types (N V W i j : string) (k : Key) (VP : Key) (d sd : Doc)
  (od : option Doc) (f : MapFunction) (vals : gmap Key KvValue)
  (db : Cushion) (e : Emit) (lw : ViewLogic)
  (kv : Store KvValue) (ds : list Doc) (r : option ReduceFunction)
  (l : list (string * ViewLogic)) (m : MapRow) (q : ViewQuery.ViewQuery)
  (sel : KvListSelector) (es : list (Key * (KvValue * Versionstamp)))
  (p : list KeyPart) (g : option (list KeyPart))
  (gl : option number) (rf : ReduceFunction).

(** *** Groups *)

Lemma add_to_group_fmap
    (FK : option (list KeyPart) → list (list KeyPart * KeyPart))
    (FV : option (list KeyPart) → list ViewRow)
    (gsk : list (option (list KeyPart))) g
    (x : list KeyPart * KeyPart) (v : ViewRow) :
  NoDup gsk →
  add_to_group g x v ((λ g', (g', (FK g', FV g'))) <$> gsk)
  = if decide (g ∈ gsk)
    then (λ g', (g', (if decide (g' = g) then FK g' ++ [x] else FK g',
                      if decide (g' = g) then FV g' ++ [v] else FV g')))
           <$> gsk
    else ((λ g', (g', (FK g', FV g'))) <$> gsk) ++ [(g, ([x], [v]))].
Proof.
  induction gsk as [|g' gsk IH]; intros Hnd.
  - by rewrite decide_False by apply not_elem_of_nil.
  - apply NoDup_cons in Hnd as [Hg' Hnd]. cbn [fmap list_fmap add_to_group].
    destruct (decide (g' = g)) as [->|Hne].
    + rewrite decide_True by left. f_equal.
      apply list_fmap_ext. intros _ g1 Hg1%list_elem_of_lookup_2.
      rewrite !decide_False; [done|by intros ->..].
    + rewrite IH by done.
      destruct (decide (g ∈ gsk)) as [Hin|Hnin].
      * rewrite decide_True by by right. done.
      * rewrite decide_False; [done|].
        by intros [->|?]%elem_of_cons.
Qed.

Lemma group_keys_snoc gl es (x : Key * (KvValue * Versionstamp)) :
  group_keys gl 3 (es ++ [x])
  = if decide (entry_group gl 3 x ∈ group_keys gl 3 es)
    then group_keys gl 3 es
    else group_keys gl 3 es ++ [entry_group gl 3 x].
Proof.
  unfold group_keys. rewrite fmap_app. cbn [fmap list_fmap].
  rewrite reverse_snoc. cbn [remove_dups].
  destruct (decide_rel elem_of _ _) as [Hin|Hnin].
  - rewrite decide_True; [done|].
    by rewrite elem_of_reverse, elem_of_remove_dups.
  - rewrite decide_False; [by rewrite reverse_cons|].
    by rewrite elem_of_reverse, elem_of_remove_dups.
Qed.

Lemma group_keys_NoDup gl es : NoDup (group_keys gl 3 es).
Proof.
  unfold group_keys. rewrite reverse_Permutation. apply NoDup_remove_dups.
Qed.

Lemma group_keys_elem gl es g :
  g ∈ group_keys gl 3 es ↔ ∃ entry, entry ∈ es ∧ entry_group gl 3 entry = g.
Proof.
  unfold group_keys.
  rewrite elem_of_reverse, elem_of_remove_dups, elem_of_reverse.
  rewrite list_elem_of_fmap. split.
  - intros (entry & -> & Hin). eauto.
  - intros (entry & Hin & <-). eauto.
Qed.

(** The groups [#queryReduce] collects. *)
Lemma groups_spec gl es :
  foldl (λ gs entry,
           add_to_group (entry_group gl 3 entry)
             (slice_inner 3 entry.1, at_last entry.1) (as_row entry.2.1) gs)
        [] es
  = (λ g, (g, (reduce_keys 3 (group_entries gl 3 es g),
               reduce_values (group_entries gl 3 es g))))
      <$> group_keys gl 3 es.
Proof.
  induction es as [|x es IH] using rev_ind; [done|].
  rewrite foldl_snoc, IH.
  rewrite (add_to_group_fmap
             (λ g, reduce_keys 3 (group_entries gl 3 es g))
             (λ g, reduce_values (group_entries gl 3 es g)))
    by apply group_keys_NoDup.
  rewrite group_keys_snoc.
  assert (∀ g, group_entries gl 3 (es ++ [x]) g
               = group_entries gl 3 es g
                 ++ if decide (g = entry_group gl 3 x) then [x] else [])
    as Hsnoc.
  { intros g. unfold group_entries. rewrite filter_app. f_equal.
    rewrite filter_cons, filter_nil.
    destruct (decide (g = _)) as [->|Hne].
    - by rewrite decide_True.
    - by rewrite decide_False. }
  destruct (decide (entry_group gl 3 x ∈ group_keys gl 3 es)) as [Hin|Hnin].
  - apply list_fmap_ext. intros _ g _. rewrite Hsnoc.
    unfold reduce_keys, reduce_values. rewrite !fmap_app.
    destruct (decide (g = _)); simpl; by rewrite ?app_nil_r.
  - rewrite fmap_app. f_equal.
    + apply list_fmap_ext. intros _ g Hg%list_elem_of_lookup_2.
      rewrite Hsnoc. rewrite decide_False by (by intros ->).
      by rewrite app_nil_r.
    + cbn [fmap list_fmap]. rewrite Hsnoc, decide_True by done.
      assert (group_entries gl 3 es (entry_group gl 3 x) = []) as ->; [|done].
      unfold group_entries.
      destruct (filter _ es) as [|y ys] eqn:Hf; [done|].
      exfalso. apply Hnin, group_keys_elem.
      assert (y ∈ filter (λ entry, entry_group gl 3 entry = entry_group gl 3 x)
                    es) as Hy by (rewrite Hf; left).
      apply list_elem_of_filter in Hy as [Hy1 Hy2]. eauto.
Qed.

Lemma yield_groups_all rf (y : Z) (gs : Groups) :
  yield_groups rf (of_Z 0) PosInf 0 y gs
  = (λ x, RReduce {| group_key := x.1; reduced := rf x.2.1 x.2.2 |}) <$> gs.
Proof.
  revert y. induction gs as [|[g [ks vs]] gs IH]; intros y; [done|].
  cbn [yield_groups]. rewrite lt_of_Z. cbn [Z.ltb Z.compare].
  change (ge (of_Z y) PosInf) with false. cbn iota. by rewrite IH.
Qed.

Lemma yield_groups_limit rf (lim y : Z) (gs : Groups) :
  yield_groups rf (of_Z 0) (of_Z lim) 0 y gs
  = take (Z.to_nat (lim - y))
      ((λ x, RReduce {| group_key := x.1; reduced := rf x.2.1 x.2.2 |})
         <$> gs).
Proof.
  revert y. induction gs as [|[g [ks vs]] gs IH]; intros y.
  - cbn [fmap list_fmap yield_groups]. by rewrite take_nil.
  - cbn [yield_groups]. rewrite lt_of_Z. cbn [Z.ltb Z.compare].
    unfold of_Z at 2. rewrite (ge_of_Z y lim) by reflexivity.
    destruct (Z.leb_spec lim y) as [Hle|Hlt].
    + by replace (Z.to_nat (lim - y)) with 0%nat by lia.
    + rewrite IH.
      replace (Z.to_nat (lim - y)) with (S (Z.to_nat (lim - (y + 1))))
        by lia. done.
Qed.

Lemma queryReduce_groups es rf (params : ViewQuery.ViewQueryParameters) :
  queryReduce es rf 3 params
  = yield_groups rf (ViewQuery.p_skip params) (ViewQuery.p_limit params) 0 0
      ((λ g, (g, (reduce_keys 3
                    (group_entries (groupLevel_of (ViewQuery.shape params))
                       3 es g),
                  reduce_values
                    (group_entries (groupLevel_of (ViewQuery.shape params))
                       3 es g))))
         <$> group_keys (groupLevel_of (ViewQuery.shape params)) 3 es).
Proof. unfold queryReduce. by rewrite <- groups_spec. Qed.

Lemma reduce_rows_unlimited q lw rf sel db :
  views_get (ViewQuery._viewName q) (views db) = Some lw →
  selector_of (getViewKey (namespace db) (ViewQuery._viewName q))
    (ViewQuery.shape (ViewQuery.getParams q)) = Ok sel →
  ViewQuery._reduce q = true → reduce_fn lw = Some rf →
  ViewQuery._skip q = of_Z 0 → ViewQuery._limit q = PosInf →
  query q db
  = Ok (reduce_rows rf
          (groupLevel_of (ViewQuery.shape (ViewQuery.getParams q))) 3
          (selected sel q (kv db))).
Proof.
  intros Hview Hsel Hred Hrf Hskip Hlimit.
  rewrite query_cases, Hview, Hsel. cbn zeta. rewrite Hred, Hrf.
  rewrite kv_list_limited. unfold kv_limit. rewrite Hskip, Hlimit.
  change (truthy (JNum (of_Z 0))) with false. cbn iota.
  rewrite take_limit_PosInf, queryReduce_groups.
  destruct (getParams_fields q) as (_ & _ & _ & _ & -> & ->).
  rewrite Hskip, Hlimit, yield_groups_all.
  unfold reduce_rows. by rewrite <- list_fmap_compose.
Qed.

Lemma reduce_rows_limited q lw rf sel db (n : Z) :
  views_get (ViewQuery._viewName q) (views db) = Some lw →
  selector_of (getViewKey (namespace db) (ViewQuery._viewName q))
    (ViewQuery.shape (ViewQuery.getParams q)) = Ok sel →
  ViewQuery._reduce q = true → reduce_fn lw = Some rf →
  ViewQuery._skip q = of_Z 0 → 1 <= n < 2 ^ 31 →
  query (ViewQuery.limit (of_Z n) q) db
  = Ok (take (Z.to_nat n)
          (reduce_rows rf
             (groupLevel_of (ViewQuery.shape (ViewQuery.getParams q))) 3
             (take (Z.to_nat n) (selected sel q (kv db))))).
Proof.
  intros Hview Hsel Hred Hrf Hskip Hn. rewrite query_cases.
  cbn [ViewQuery._viewName ViewQuery.limit]. rewrite Hview.
  rewrite (shape_getParams (ViewQuery.limit (of_Z n) q)).
  cbn [ViewQuery._key ViewQuery._keys ViewQuery._prefix ViewQuery._startKey
       ViewQuery._endKey ViewQuery._startKeyDocId ViewQuery._endKeyDocId
       ViewQuery._groupLevel ViewQuery.limit].
  rewrite <- (shape_getParams q), Hsel. cbn zeta.
  cbn [ViewQuery._reduce ViewQuery.limit]. rewrite Hred, Hrf.
  rewrite kv_list_limited. unfold kv_limit.
  cbn [ViewQuery._skip ViewQuery._limit ViewQuery.limit].
  rewrite Hskip. change (truthy (JNum (of_Z 0))) with false. cbn iota.
  rewrite stored_of_Z by lia.
  assert (selected sel (ViewQuery.limit (of_Z n) q) (kv db)
          = selected sel q (kv db)) as -> by done.
  unfold of_Z at 1. rewrite (take_limit_Fin _ n) by reflexivity.
  rewrite Z.sub_0_r, queryReduce_groups.
  destruct (getParams_fields (ViewQuery.limit (of_Z n) q))
    as (_ & _ & _ & _ & -> & ->).
  cbn [ViewQuery._skip ViewQuery._limit ViewQuery.limit].
  rewrite Hskip, stored_of_Z by lia.
  rewrite yield_groups_limit, Z.sub_0_r.
  rewrite (shape_getParams (ViewQuery.limit (of_Z n) q)).
  cbn [ViewQuery._key ViewQuery._keys ViewQuery._prefix ViewQuery._startKey
       ViewQuery._endKey ViewQuery._startKeyDocId ViewQuery._endKeyDocId
       ViewQuery._groupLevel ViewQuery.limit].
  rewrite <- (shape_getParams q).
  unfold reduce_rows. by rewrite <- list_fmap_compose.
Qed.

Lemma reduce_rows_None rf es :
  reduce_rows rf None 3 es = reduce_all_rows rf 3 es.
Proof.
  assert (∀ xs, group_entries None 3 xs None = xs) as Hall.
  { intros xs. unfold group_entries. induction xs as [|x xs IH]; [done|].
    rewrite filter_cons, decide_True by done. by rewrite IH. }
  assert (∀ xs, group_keys None 3 xs = match xs with [] => [] | _ => [None] end)
    as Hkeys.
  { intros xs. induction xs as [|x xs IH] using rev_ind; [done|].
    rewrite group_keys_snoc, IH.
    destruct xs as [|y ys]; [done|]. cbn [app].
    rewrite decide_True; [done|]. cbn [entry_group group_key_of]. left. }
  unfold reduce_rows, reduce_all_rows. rewrite Hkeys.
  destruct es as [|x es]; [done|]. cbn [fmap list_fmap]. by rewrite Hall.
Qed.



End ReduceMore.

(** * The order of rows *)

Module OrderMore.

Import Cushion Spec MoreSpec ViewQueryProps KvProps CushionProps DocProps
  RebuildProps RebuildSync DefineProps DocClaims RebuildLog ViewClaims
  QueryClaims DocMore MaintainMore RebuildMore QueryMore RowsMore.

Implicit Types (N V W i j : string) (k : Key) (VP : Key) (d sd : Doc)
  (od : option Doc) (f : MapFunction) (vals : gmap Key KvValue)
  (db : Cushion) (e : Emit) (lw : ViewLogic)
  (kv : Store KvValue) (ds : list Doc) (r : option ReduceFunction)
  (l : list (string * ViewLogic)) (m : MapRow) (q : ViewQuery.ViewQuery)
  (sel : KvListSelector) (es : list (Key * (KvValue * Versionstamp)))
  (p : list KeyPart).

(** *** The order of keys is total *)

Lemma bytes_compare_antisym (a c : list N) :
  bytes_compare c a = CompOpp (bytes_compare a c).
Proof.
  revert c. induction a as [|x a IH]; intros [|y c]; try done.
  cbn [bytes_compare]. rewrite (N.compare_antisym x y).
  destruct (x ?= y)%N; cbn [CompOpp]; [apply IH|done..].
Qed.

Lemma number_compare_antisym (a c : number) :
  number_compare c a = CompOpp (number_compare a c).
Proof.
  destruct a as [| | |x], c as [| | |y]; try done.
  cbn [number_compare]. by rewrite Qcompare_antisym.
Qed.

Lemma part_compare_antisym (a c : KeyPart) :
  part_compare c a = CompOpp (part_compare a c).
Proof.
  destruct a as [x|x|x|x|x], c as [y|y|y|y|y]; try done;
    cbn [part_compare].
  - apply bytes_compare_antisym.
  - apply String.compare_antisym.
  - apply number_compare_antisym.
  - apply Z.compare_antisym.
  - by destruct x, y.
Qed.

Lemma key_compare_antisym (a c : Key) :
  key_compare c a = CompOpp (key_compare a c).
Proof.
  revert c. induction a as [|x a IH]; intros [|y c]; try done.
  cbn [key_compare]. rewrite (part_compare_antisym x y).
  destruct (part_compare x y); cbn [CompOpp]; [apply IH|done..].
Qed.

Lemma entry_le_total {A} : Total (@entry_le A).
Proof.
  intros a c. unfold entry_le, key_leb.
  rewrite (key_compare_antisym a.1 c.1).
  destruct (key_compare a.1 c.1); cbn [CompOpp]; auto.
Qed.

Lemma string_compare_refl (s : string) : String.compare s s = Eq.
Proof.
  pose proof (String.compare_antisym s s) as H.
  destruct (String.compare s s); [done|discriminate H..].
Qed.

Lemma key_compare_strings (ss : list string) (a c : Key) :
  key_compare ((KStr <$> ss) ++ a) ((KStr <$> ss) ++ c) = key_compare a c.
Proof.
  induction ss as [|s ss IH]; [done|].
  cbn [fmap list_fmap app key_compare part_compare].
  by rewrite string_compare_refl.
Qed.

Lemma slice_last (k rest : Key) :
  rest ≠ [] → length k = 3%nat →
  slice_inner 3 (k ++ rest) ++ [at_last (k ++ rest)] = rest.
Proof.
  intros Hne Hlen. destruct (exists_last Hne) as (t & x & ->).
  unfold slice_inner, at_last.
  rewrite app_assoc, last_snoc, length_app. simpl.
  replace (length (k ++ t) + 1 - 1)%nat with (length (k ++ t)) by lia.
  rewrite take_app_length, <- Hlen. by rewrite drop_app_length.
Qed.

Lemma Sorted_fmap_Forall {A B} (F : A → B) (R1 : relation A)
    (R2 : relation B) (P : A → Prop) (xs : list A) :
  (∀ x y, P x → P y → R1 x y → R2 (F x) (F y)) →
  Forall P xs → Sorted R1 xs → Sorted R2 (F <$> xs).
Proof.
  intros HR HP Hs. induction Hs as [|x xs Hs IH Hhd]; [constructor|].
  apply Forall_cons in HP as [Hx HP]. cbn [fmap list_fmap].
  constructor; [by apply IH|].
  destruct Hhd as [|y ys Hxy]; [constructor|].
  apply Forall_cons in HP as [Hy _]. constructor. by apply HR.
Qed.

(** X20: The rows of a map-only query by scan, key or prefix that neither
    skips nor limits come in the order of the store: ascending by
    emitted key parts and then by document id; with
    [order(DESCENDING)] they are the rows of the ascending query in
    reverse. *)
Theorem rows_in_key_order q lw p db :
  views_get (ViewQuery._viewName q) (views db) = Some lw →
  shape_prefix (ViewQuery.shape (ViewQuery.getParams q)) = Some p →
  ViewQuery._reduce q = false ∨ reduce_fn lw = None →
  ViewQuery._skip q = of_Z 0 → ViewQuery._limit q = PosInf →
  Sorted row_le
    (map_rows (query (ViewQuery.order ViewQuery.ASCENDING q) db))
  ∧ map_rows (query (ViewQuery.order ViewQuery.DESCENDING q) db)
    = List.rev (map_rows (query (ViewQuery.order ViewQuery.ASCENDING q) db)).
Proof.
  intros Hview Hshape Hmap Hskip Hlimit.
  set (V := ViewQuery._viewName q) in *.
  set (VP := getViewKey (namespace db) V).
  assert (selector_of VP (ViewQuery.shape (ViewQuery.getParams q))
          = Ok (SelPrefix (VP ++ p))) as Hsel.
  { destruct (ViewQuery.shape (ViewQuery.getParams q)); by simplify_eq/=. }
  assert (∀ o, map_rows (query (ViewQuery.order o q) db)
               = entry_row 3 (ViewQuery._includeDocs q)
                   <$> selected (SelPrefix (VP ++ p)) (ViewQuery.order o q)
                         (kv db)) as Hrows.
  { intros o. rewrite query_cases.
    cbn [ViewQuery._viewName ViewQuery.order]. fold V. rewrite Hview.
    fold VP. rewrite (shape_getParams (ViewQuery.order o q)).
    cbn [ViewQuery._key ViewQuery._keys ViewQuery._prefix ViewQuery._startKey
         ViewQuery._endKey ViewQuery._startKeyDocId ViewQuery._endKeyDocId
         ViewQuery._groupLevel ViewQuery.order].
    rewrite <- (shape_getParams q), Hsel. cbn zeta.
    rewrite kv_list_limited. unfold kv_limit.
    cbn [ViewQuery._skip ViewQuery._limit ViewQuery._reduce
         ViewQuery._includeDocs ViewQuery.order].
    rewrite Hskip, Hlimit. change (truthy (JNum (of_Z 0))) with false.
    cbn iota. rewrite take_limit_PosInf, drop_skipped_zero.
    destruct Hmap as [-> | ->]; [|destruct (ViewQuery._reduce q)];
      apply map_rows_Ok. }
  rewrite !Hrows. unfold selected.
  cbn [ViewQuery._descending ViewQuery.order ViewQuery.SortOrder_eqb].
  split; [|by rewrite map_rev].
  apply (Sorted_fmap_Forall _ entry_le _
           (λ entry, selects (SelPrefix (VP ++ p)) entry.1 = true)).
  - intros [k1 x1] [k2 x2] Hs1 Hs2 Hle. cbn [fst snd] in *.
    assert (∀ k, selects (SelPrefix (VP ++ p)) k = true →
              ∃ rest, k = VP ++ rest ∧ rest ≠ []) as Hrest.
    { intros k [[t ->] Hne]%bool_decide_eq_true.
      exists (p ++ t). split; [by rewrite app_assoc|].
      intros [-> ->]%app_eq_nil. by rewrite !app_nil_r in Hne. }
    destruct (Hrest _ Hs1) as (r1 & -> & Hr1).
    destruct (Hrest _ Hs2) as (r2 & -> & Hr2).
    unfold row_le, entry_row. cbn [row_key row_id fst snd].
    rewrite !slice_last by done.
    unfold entry_le, key_leb in *. cbn [fst] in Hle.
    change VP with (KStr <$> [namespace db; "view"; V]) in Hle.
    by rewrite key_compare_strings in Hle.
  - apply Forall_forall. intros [k x] Hin.
    by apply elem_of_kv_list in Hin as [_ ?].
  - unfold kv_list, no_options. cbn [reverse limit].
    exact (@Sorted_merge_sort _ entry_le _ entry_le_total _).
Qed.

End OrderMore.

(** * The builder: independent settings *)

Module BuilderMore.

Import ViewQuery Spec MoreSpec.

Lemma chain_settings (cs : list Call) (q0 q : ViewQuery) :
  chain cs q0 = Ok q →
  _viewName q = _viewName q0
  ∧ _descending q = last_set sets_order cs (_descending q0)
  ∧ _includeDocs q = last_set sets_includeDocs cs (_includeDocs q0)
  ∧ _skip q = last_set sets_skip cs (_skip q0)
  ∧ _limit q = last_set sets_limit cs (_limit q0).
Proof.
  revert q0. induction cs as [|c cs IH]; intros q0 Hch.
  - by injection Hch as <-.
  - cbn [chain] in Hch. destruct (call c q0) as [q1|err] eqn:Hc; [|done].
    destruct (IH _ Hch) as (-> & -> & -> & -> & ->).
    unfold last_set. cbn [foldl].
    destruct c; cbn [call] in Hc; try (by injection Hc as <-).
    unfold group in Hc.
    destruct l as [[|]|n]; cbn in Hc;
      repeat match type of Hc with
             | context [if ?b then _ else _] => destruct b
             end;
      try done; by injection Hc as <-.
Qed.

(** X23: The builder is fluent and its settings are independent: after any
    chain of calls on [ViewQuery.for(name)] that does not throw,
    [getParams()] carries [name], and the order, the includeDocs flag,
    the skip and the limit are those of the last call that set each
    (stored as [~~Math.max(0, n)] for skip and limit), or the defaults
    ascending, false, 0 and Infinity when no call set them, whatever
    other calls the chain makes and in whatever order. *)
Theorem chain_last_call_wins (name : string) (cs : list Call)
    (q : ViewQuery) :
  chain cs (for_ name) = Ok q →
  viewName (getParams q) = name
  ∧ descending (getParams q) = last_set sets_order cs false
  ∧ p_includeDocs (getParams q) = last_set sets_includeDocs cs false
  ∧ p_skip (getParams q) = last_set sets_skip cs (of_Z 0)
  ∧ p_limit (getParams q) = last_set sets_limit cs PosInf.
Proof.
  intros Hch.
  destruct (chain_settings _ _ _ Hch) as (HV & Hd & Hi & Hs & Hl).
  unfold getParams. repeat case_match; cbn [viewName descending
    p_includeDocs p_skip p_limit params_with]; by rewrite HV, Hd, Hi, Hs, Hl.
Qed.

End BuilderMore.

(** * Views stay in step through a whole history *)

Module MaintainedMore.

Import Cushion Spec MoreSpec KvProps CushionProps DocProps RebuildProps
  RebuildSync DefineProps DocClaims RebuildLog ViewClaims QueryClaims DocMore
  MaintainMore RebuildMore.

Implicit Types (N V W i j : string) (k : Key) (VP : Key) (d sd : Doc)
  (od : option Doc) (f : MapFunction) (vals : gmap Key KvValue)
  (g h : string → option Doc) (db : Cushion) (e : Emit) (lw : ViewLogic)
  (kv : Store KvValue) (ds : list Doc) (r : option ReduceFunction)
  (l : list (string * ViewLogic)) (b : AtomicOperation KvValue).

(** *** The log only grows

    so a log within the limits at the end of a history was within the
    limits at every earlier point of it. *)

Lemma within_limits_prefix (kv kv' : Store KvValue)
    (bs : list (list (Mutation KvValue))) :
  commits kv' = commits kv ++ bs →
  within_limits kv' = true → within_limits kv = true.
Proof.
  unfold within_limits. intros ->. rewrite forallb_app.
  by intros [? _]%andb_prop.
Qed.

Lemma updateViews_log_grows l i od db :
  ∃ bs, commits (kv (foldl (updateView i od) db l)) = commits (kv db) ++ bs.
Proof.
  revert db. induction l as [|[W lw] l IH]; intros db.
  - exists []. by rewrite app_nil_r.
  - change (foldl (updateView i od) db ((W, lw) :: l))
      with (foldl (updateView i od) (updateView i od db (W, lw)) l).
    destruct (IH (updateView i od db (W, lw))) as [bs ->].
    rewrite updateView_kv, commit_unchecked by done. cbn [snd commits].
    rewrite <- app_assoc. eauto.
Qed.

Lemma step_log_grows (op : Op) db :
  ∃ bs, commits (kv (step db op)) = commits (kv db) ++ bs.
Proof.
  assert (∀ i od (mu : Mutation KvValue),
            ∃ bs, commits (kv (updateViewsForDoc i od
                                 (with_kv (committed mu (kv db)) db)))
                  = commits (kv db) ++ bs) as Hdone.
  { intros i od mu. unfold updateViewsForDoc.
    destruct (updateViews_log_grows
                (views (with_kv (committed mu (kv db)) db)) i od
                (with_kv (committed mu (kv db)) db)) as [bs ->].
    cbn [kv with_kv committed commits]. rewrite <- app_assoc. eauto. }
  assert (∃ bs, commits (kv db) = commits (kv db) ++ bs) as Hsame
    by (exists []; by rewrite app_nil_r).
  destruct op as [uuid d|i rev0 d|i rev0]; cbn [step].
  - rewrite insert_cases. cbn zeta. repeat case_decide; try done.
    cbn [snd]. apply Hdone.
  - rewrite replace_cases. cbn zeta. case_decide; [|done].
    cbn [snd]. apply Hdone.
  - rewrite remove_cases. cbn zeta. case_decide; [|done].
    cbn [snd]. apply Hdone.
Qed.

Lemma within_limits_step (op : Op) db :
  within_limits (kv (step db op)) = true → within_limits (kv db) = true.
Proof.
  destruct (step_log_grows op db) as [bs Hbs].
  by apply within_limits_prefix with bs.
Qed.

Lemma sync_after_doc_commit i od db (mu : Mutation KvValue) V lw h :
  mutation_key mu = getDocumentKey (namespace db) i →
  Wf (with_kv (committed mu (kv db)) db) →
  NoDup (views db).*1 → (V, lw) ∈ views db →
  ValSync (namespace db) (store_values (kv db)) V (map_fn lw) h →
  ValSync (namespace db)
    (store_values
       (kv (updateViewsForDoc i od (with_kv (committed mu (kv db)) db))))
    V (map_fn lw) (upd i od h).
Proof.
  intros Hkey Hwf Hnd Hin Hs.
  destruct (updateViews_fold_sync (views db) i od
              (with_kv (committed mu (kv db)) db) Hwf Hnd) as [_ H2].
  apply (H2 V lw); [done|].
  cbn [namespace kv with_kv]. rewrite store_values_committed.
  apply ValSync_apply_value; [| |done].
  - rewrite Hkey. apply docKey_not_row.
  - intros j. rewrite Hkey. apply docKey_ne_refKey.
Qed.

Lemma AllInStep_after_doc_commit i od db (mu : Mutation KvValue) :
  mutation_key mu = getDocumentKey (namespace db) i →
  Wf (with_kv (committed mu (kv db)) db) →
  (∀ j, get j (updateViewsForDoc i od (with_kv (committed mu (kv db)) db))
        = upd i od (λ j, get j db) j) →
  AllInStep db →
  AllInStep (updateViewsForDoc i od (with_kv (committed mu (kv db)) db)).
Proof.
  intros Hkey Hwf Hget (_ & Hnd & Hstep).
  split; [by apply updateViewsForDoc_Wf|].
  rewrite updateViewsForDoc_views by done. cbn [views with_kv].
  split; [done|]. intros V lw Hin.
  destruct (Hstep V lw Hin) as (g & Hagree & Hs).
  exists (upd i od g). split.
  - intros j. rewrite Hget. unfold upd.
    destruct (decide (j = i)); [by left|apply Hagree].
  - rewrite updateViewsForDoc_namespace by done. cbn [namespace with_kv].
    by apply sync_after_doc_commit.
Qed.

Lemma AllInStep_step (op : Op) db : AllInStep db → AllInStep (step db op).
Proof.
  intros Hinv. pose proof Hinv as (Hwf & _ & _).
  destruct op as [uuid d|i rev0 d|i rev0]; cbn [step].
  - rewrite insert_cases. cbn zeta.
    destruct (decide (is_Some _)) as [|Hrev]; [done|].
    destruct (decide (_ = None)); [|done]. cbn [snd].
    apply eq_None_not_Some in Hrev.
    destruct (stored_insert_fields (insert_id d uuid) d Hrev) as [Hid Hnr].
    apply AllInStep_after_doc_commit; try done.
    + by apply Wf_set_doc.
    + intros j. by apply get_after_write.
  - rewrite replace_cases. cbn zeta. case_decide; [|done]. cbn [snd].
    destruct (stored_replace_fields i d) as [Hid Hnr].
    apply AllInStep_after_doc_commit; try done.
    + by apply Wf_set_doc.
    + intros j. by apply get_after_write.
  - rewrite remove_cases. cbn zeta. case_decide; [|done]. cbn [snd].
    apply AllInStep_after_doc_commit; try done.
    + by apply Wf_delete_doc.
    + intros j. by apply get_after_delete.
Qed.

Lemma stored_doc_agrees db i :
  Wf db →
  stored_doc (namespace db) (store_values (kv db)) i
  = delete "_rev" <$> get i db.
Proof.
  intros Hwf.
  destruct (stored_doc (namespace db) (store_values (kv db)) i) as [sd|]
    eqn:Hs.
  - by apply stored_doc_get in Hs as (d & -> & ->).
  - apply stored_doc_None in Hs. by rewrite Hs.
Qed.

Lemma views_set_elem V W (x lw : ViewLogic) l :
  NoDup l.*1 → (W, lw) ∈ views_set V x l →
  (W = V ∧ lw = x) ∨ (W ≠ V ∧ (W, lw) ∈ l).
Proof.
  induction l as [|[n y] l IH]; intros Hnd Hin.
  - apply list_elem_of_singleton in Hin as [= -> ->]. by left.
  - cbn [fmap list_fmap fst] in Hnd. apply NoDup_cons in Hnd as [Hn Hnd].
    cbn [views_set] in Hin. destruct (decide (n = V)) as [->|Hne].
    + apply elem_of_cons in Hin as [[= -> ->]|Hin]; [by left|].
      right. split; [|by right]. intros ->. apply Hn.
      apply list_elem_of_fmap. by exists (V, lw).
    + apply elem_of_cons in Hin as [[= -> ->]|Hin].
      * right. split; [done|left].
      * destruct (IH Hnd Hin) as [?|[? ?]]; [by left|].
        right. split; [done|by right].
Qed.

Lemma AllInStep_rebuildView V f sig db :
  Wf db → NoDup (views db).*1 →
  (∀ W lw, (W, lw) ∈ views db → W ≠ V → InStep db W (map_fn lw)) →
  (∀ lw, (V, lw) ∈ views db → map_fn lw = f) →
  AllInStep (rebuildView V f sig db).
Proof.
  intros Hwf Hnd Hothers HV.
  pose proof (Wf_rebuildView V f sig db Hwf) as Hwf1.
  assert (∀ j, get j (rebuildView V f sig db) = get j db) as Hget.
  { intros j. rewrite !get_lookup, rebuildView_namespace.
    rewrite rebuildView_entries_frame; [done|apply docKey_no_view|].
    apply not_eq_sym, designKey_ne_docKey. }
  split; [done|]. rewrite rebuildView_views. split; [done|].
  intros W lw Hin. destruct (decide (W = V)) as [->|Hne].
  - rewrite (HV lw Hin).
    exists (stored_doc (namespace db)
              (store_values (kv (rebuildView V f sig db)))).
    split.
    + intros i. right.
      pose proof (stored_doc_agrees (rebuildView V f sig db) i Hwf1) as Ha.
      by rewrite rebuildView_namespace in Ha.
    + rewrite rebuildView_namespace. by apply rebuildView_sync.
  - destruct (Hothers W lw Hin Hne) as (g & Hagree & [Hr Hf]).
    exists g. split.
    + intros i. by rewrite Hget.
    + rewrite rebuildView_namespace. split.
      * intros k Hk. rewrite rebuildView_frame; [by apply Hr|..].
        -- by apply (view_disjoint _ W V).
        -- intros ->. by apply designKey_not_row in Hk.
      * intros i. rewrite rebuildView_frame; [apply Hf|..].
        -- by apply ref_disjoint.
        -- apply not_eq_sym, designKey_ne_refKey.
Qed.

Lemma InStep_consistent db V f g :
  up_to_rev db g →
  ValSync (namespace db) (store_values (kv db)) V f g →
  rows_of db V f g ∧ backrefs_exact db V ∧ absent_clean db V.
Proof.
  intros Hagree [Hr Hf].
  assert (∀ i d, get i db = Some d → ∃ d', g i = Some d') as Hlive.
  { intros i d Hd. destruct (Hagree i) as [Hg|Hg]; rewrite Hd in Hg; eauto. }
  assert (∀ i, get i db = None → g i = None) as Hdead.
  { intros i Hd. by destruct (Hagree i) as [Hg|Hg]; rewrite Hd in Hg. }
  split; [|split].
  - intros k v. rewrite entries_values. split.
    + intros [Hk Hv]. rewrite Hr in Hv by done.
      by apply expected_row_Some in Hv.
    + intros (i & d & e & Hd & He & ->).
      destruct (last_emit_Some _ _ _ _ _ He) as [_ Hk].
      assert (getViewKey (namespace db) V `prefix_of` k) as Hp.
      { rewrite <- Hk. apply viewKey_prefix. }
      split; [done|]. rewrite Hr by done.
      apply expected_row_Some. eauto 10.
  - intros i d0 Hd0. destruct (Hlive i d0 Hd0) as [d Hd].
    specialize (Hf i). unfold expected_ref in Hf.
    rewrite Hd in Hf. simpl in Hf. apply entries_values in Hf as [vs Hvs].
    eexists _, vs. split; [done|]. intros k. split.
    + intros (e & -> & He)%list_elem_of_fmap.
      split; [apply viewKey_prefix|]. split; [apply trailing_id_viewKey|].
      destruct (last_emit (getViewKey (namespace db) V) i (run f d)
                  (viewKey (getViewKey (namespace db) V) i e))
        as [e'|] eqn:He'.
      * assert (store_values (kv db)
                  !! viewKey (getViewKey (namespace db) V) i e
                = Some (row_of d e')) as Hv.
        { rewrite Hr by apply viewKey_prefix.
          apply expected_row_Some. eauto 10. }
        apply entries_values in Hv as [vs' Hv]. by eexists.
      * apply last_emit_None in He'. exfalso. apply He'.
        apply list_elem_of_fmap. eauto.
    + intros (Hp & Hi & [[v vs'] Hv]).
      assert (store_values (kv db) !! k = Some v) as Hv'
        by (apply entries_values; eauto).
      rewrite Hr in Hv' by done.
      apply expected_row_Some in Hv' as (i' & d' & e & Hd' & He & _).
      destruct (last_emit_Some _ _ _ _ _ He) as [Hin' Hk].
      rewrite <- Hk, trailing_id_viewKey in Hi. injection Hi as ->.
      rewrite Hd in Hd'. injection Hd' as <-.
      rewrite <- Hk. apply list_elem_of_fmap. eauto.
  - intros i Hd. apply Hdead in Hd. split.
    + apply entries_values_None. rewrite Hf. unfold expected_ref.
      by rewrite Hd.
    + intros k Hp Hi. apply entries_values_None. rewrite Hr by done.
      unfold expected_row. rewrite Hi. simpl. by rewrite Hd.
Qed.

Section WithDigest.

Variable sha256_hex : string → string.

Lemma AllInStep_defineView V f r db :
  AllInStep db →
  (signature <$> design_record V db ≠ Some (hashFunction sha256_hex f)
   ∧ state <$> design_record V db ≠ Some building)
  ∨ (∃ lw, (V, lw) ∈ views db ∧ map_fn lw = f) →
  AllInStep (defineView sha256_hex V f r db).
Proof.
  intros (Hwf & Hnd & Hstep) Hcase.
  set (db0 := with_views
                (views_set V {| map_fn := f; reduce_fn := r |} (views db)) db).
  assert (Wf db0) as Hwf0 by by apply Wf_with_views.
  assert (NoDup (views db0).*1) as Hnd0 by by apply views_set_NoDup.
  assert (∀ W lw, (W, lw) ∈ views db0 → W ≠ V → InStep db0 W (map_fn lw))
    as Hothers.
  { intros W lw Hin Hne.
    apply views_set_elem in Hin as [[? _]|[_ Hin]]; [done| |done].
    by apply Hstep. }
  assert (∀ lw, (V, lw) ∈ views db0 → map_fn lw = f) as HV.
  { intros lw Hin.
    apply views_set_elem in Hin as [[_ ->]|[? _]]; done. }
  assert (AllInStep (rebuildView V f (hashFunction sha256_hex f) db0))
    as Hrebuilt by by apply AllInStep_rebuildView.
  destruct Hcase as [[Hsig Hst]|(lw & Hin & Hf)].
  - by rewrite defineView_rebuild_eq.
  - assert (AllInStep db0) as H0.
    { split; [done|]. split; [done|]. intros W lw' Hin'.
      destruct (decide (W = V)) as [->|Hne]; [|by apply Hothers].
      rewrite (HV lw' Hin'), <- Hf. by apply Hstep. }
    unfold defineView. fold db0. cbn zeta. by repeat case_decide.
Qed.

Lemma within_limits_defineView V f r db :
  within_limits (kv (defineView sha256_hex V f r db)) = true →
  within_limits (kv db) = true.
Proof.
  unfold defineView. cbn zeta. repeat case_decide; try done.
  destruct (rebuildView_log V f (hashFunction sha256_hex f)
              (with_views
                 (views_set V {| map_fn := f; reduce_fn := r |} (views db))
                 db)) as (bs & Hbs & _).
  cbn [kv with_views] in Hbs. intros Hlim.
  exact (within_limits_prefix _ _ _ Hbs Hlim).
Qed.

Lemma Maintained_AllInStep db : Maintained sha256_hex db → AllInStep db.
Proof.
  induction 1 as [N kv0 Hwf|V f r db _ IH Hsig Hst|V lw r db _ IH Hget
                  |op db _ IH].
  - split; [done|]. split; [constructor|]. by intros V lw ?%elem_of_nil.
  - apply AllInStep_defineView; [done|]. by left.
  - apply AllInStep_defineView; [done|]. right. exists lw.
    split; [by apply views_get_elem|done].
  - by apply AllInStep_step.
Qed.


End WithDigest.

End MaintainedMore.

(** * The documents in the rows, by provenance *)

Module ProvenanceClaims.

Import Cushion Spec MoreSpec KvProps CushionProps DocProps RebuildProps
  RebuildSync DefineProps DocClaims RebuildLog ViewClaims QueryClaims DocMore
  MaintainMore RebuildMore RowsMore.

Implicit Types (N V W i j : string) (k : Key) (VP : Key) (d sd : Doc)
  (od : option Doc) (f : MapFunction) (vals : gmap Key KvValue)
  (g h : string → option Doc) (db : Cushion) (e : Emit) (lw : ViewLogic)
  (kv : Store KvValue) (ds : list Doc) (r : option ReduceFunction)
  (l : list (string * ViewLogic)) (m : MapRow).

Lemma viewKey_proper VP i e : VP ≠ viewKey VP i e.
Proof.
  unfold viewKey. intros Heq%(f_equal length).
  rewrite !length_app in Heq. cbn [length] in Heq. lia.
Qed.

Lemma row_with_doc_viewKey N V i d e :
  row_with_doc (viewKey (getViewKey N V) i e) (row_of d e)
  = emitted_row i d e true.
Proof.
  unfold row_with_doc, emitted_row.
  rewrite at_last_viewKey.
  change 3%nat with (length (getViewKey N V)).
  by rewrite (slice_inner_viewKey (getViewKey N V) i e).
Qed.

(** The full scan with documents of a view that is in step with an
    assignment of documents: one row per document and last emission. *)
Lemma scan_rows V lw db g m :
  views_get V (views db) = Some lw →
  ValSync (namespace db) (store_values (kv db)) V (map_fn lw) g →
  m ∈ map_rows (query (docs_query V) db)
  ↔ ∃ i d k e,
      g i = Some d
      ∧ last_emit (getViewKey (namespace db) V) i (run (map_fn lw) d) k
        = Some e
      ∧ m = emitted_row i d e true.
Proof.
  intros Hget [Hr _]. rewrite (map_rows_docs V lw db m Hget). split.
  - intros (k & v & Hp & _ & Hv & ->). rewrite Hr in Hv by done.
    apply expected_row_Some in Hv as (i & d & e & Hd & He & ->).
    exists i, d, k, e. split; [done|]. split; [done|].
    apply last_emit_Some in He as [_ <-]. apply row_with_doc_viewKey.
  - intros (i & d & k & e & Hd & He & ->).
    pose proof (last_emit_Some _ _ _ _ _ He) as [_ Hk].
    exists k, (row_of d e).
    assert (getViewKey (namespace db) V `prefix_of` k) as Hp
      by (rewrite <- Hk; apply viewKey_prefix).
    split; [done|]. split; [rewrite <- Hk; apply viewKey_proper|].
    split.
    + rewrite Hr by done. apply expected_row_Some. eauto 10.
    + rewrite <- Hk. symmetry. apply row_with_doc_viewKey.
Qed.

Lemma scan_rows_after_write V lw i (stored dnew : Doc) db m :
  Wf db → NoDup (views db).*1 → Tracked db →
  views_get V (views db) = Some lw →
  stored !! "_id" = Some (JStr i) → stored !! "_rev" = None →
  m ∈ map_rows
        (query (docs_query V)
           (updateViewsForDoc i (Some dnew)
              (with_kv (committed (MSet (getDocumentKey (namespace db) i)
                                     (VDoc stored)) (kv db)) db)))
  ↔ (∃ k e,
       last_emit (getViewKey (namespace db) V) i (run (map_fn lw) dnew) k
       = Some e
       ∧ m = emitted_row i dnew e true)
    ∨ (row_id m ≠ KStr i ∧ m ∈ map_rows (query (docs_query V) db)).
Proof.
  intros Hwf Hnd Htr Hget Hid Hrev.
  pose proof (views_get_elem _ _ _ Hget) as Hin.
  destruct (Htr V lw Hin) as [h Hs].
  pose proof (Wf_set_doc _ _ db Hid Hrev Hwf) as Hwf'.
  pose proof (Tracked_after_write V lw i stored dnew db h Hwf Hnd Hin Hid
                Hrev Hs) as Hs'.
  set (db' := updateViewsForDoc i (Some dnew) _) in *.
  assert (namespace db' = namespace db) as Hns
    by (unfold db'; by rewrite updateViewsForDoc_namespace).
  assert (views_get V (views db') = Some lw) as Hget'
    by (unfold db'; by rewrite updateViewsForDoc_views).
  rewrite <- Hns in Hs'.
  rewrite (scan_rows V lw db' _ m Hget' Hs'), Hns.
  rewrite (scan_rows V lw db h m Hget Hs). unfold upd. split.
  - intros (j & d & k & e & Hd & He & ->).
    destruct (decide (j = i)) as [->|Hne].
    + injection Hd as <-. left. eauto.
    + right. split; [cbn [emitted_row row_id]; congruence|eauto 10].
  - intros [(k & e & He & ->)|(Hne & j & d & k & e & Hd & He & ->)].
    + exists i, dnew, k, e. by rewrite decide_True.
    + exists j, d, k, e. rewrite decide_False; [done|].
      intros ->. by apply Hne.
Qed.

Section WithDigest.

Variable sha256_hex : string → string.


End WithDigest.

End ProvenanceClaims.

(** * Closed statements for the further properties *)

Module ClosedMore.

Import Cushion Spec MoreSpec KvProps CushionProps DocProps RebuildProps
  RebuildSync DefineProps DocClaims ViewClaims QueryClaims Sample Closed
  MoreSample DocMore MaintainMore RebuildMore StampMore QueryMore RowsMore
  ReduceMore OrderMore BuilderMore MaintainedMore ProvenanceClaims.

Lemma Wf_db2 : Wf db2.
Proof. exact Wf_db1. Qed.

Lemma Reachable_db1 : Reachable digest db1.
Proof. apply reach_insert, reach_define, reach_open. Qed.

(** [alice] as [get] returns it from [db1]. *)
Lemma get_alice :
  get "alice" db1 = Some (<["_rev" := JStr "00000000000000000002"]> alice).
Proof. reflexivity. Qed.

Lemma insert_rejects_witness :
  is_Some (alice2 !! "_rev")
  ∧ insert "uuid-2" alice2 db1 = (Err UnexpectedRev, db1)
  ∧ alice !! "_rev" = None
  ∧ get (insert_id alice "uuid-2") db1 ≠ None
  ∧ insert "uuid-2" alice db1 = (Err DuplicateDocument, db1)
  ∧ Wf db0
  ∧ (∀ res, (insert "uuid-1" alice db0).1 = Ok res →
       x !! "_rev" = None → insert_id x "alice" = id res →
       insert "alice" x (insert "uuid-1" alice db0).2
       = (Err DuplicateDocument, (insert "uuid-1" alice db0).2)).
Proof.
  destruct (insert_rejects "uuid-2" "uuid-3" alice2 x db1) as (H1 & _ & _).
  destruct (insert_rejects "uuid-2" "uuid-3" alice x db1) as (_ & H2 & _).
  destruct (insert_rejects "uuid-1" "alice" alice x db0) as (_ & _ & H3).
  assert (get (insert_id alice "uuid-2") db1 ≠ None) as Hget.
  { change (insert_id alice "uuid-2") with "alice". by rewrite get_alice. }
  split; [by eexists|]. split; [apply H1; by eexists|].
  split; [reflexivity|]. split; [exact Hget|].
  split; [exact (H2 eq_refl Hget)|].
  split; [exact Wf_db0|]. exact (H3 Wf_db0).
Defined.



Lemma step_leaves_others_witness :
  Wf db3
  ∧ "bob" ≠ target (OpRemove "alice" "00000000000000000002")
  ∧ get "bob" (step db3 (OpRemove "alice" "00000000000000000002"))
    = get "bob" db3.
Proof.
  assert (Wf db3) as Hwf by (apply Wf_insert, Wf_insert, Wf_defineView, Wf_open).
  split; [exact Hwf|]. split; [by vm_compute|].
  apply (step_leaves_others (OpRemove "alice" "00000000000000000002")
           "bob" db3 Hwf).
  by vm_compute.
Defined.

Lemma defineView_registers_witness :
  views_get "by-id" (views (defineView digest "by-id" twice None db1))
    = Some {| map_fn := twice; reduce_fn := None |}
  ∧ ("by-name" ≠ "by-id" →
     views_get "by-name" (views (defineView digest "by-id" twice None db1))
     = views_get "by-name" (views db1))
  ∧ (views (defineView digest "by-id" twice None db1)).*1
    = (if decide ("by-id" ∈ (views db1).*1) then (views db1).*1
       else (views db1).*1 ++ ["by-id"])
  ∧ namespace (defineView digest "by-id" twice None db1) = namespace db1.
Proof.
  destruct (defineView_registers digest "by-id" twice None db1)
    as (H1 & H2 & H3 & H4).
  split; [exact H1|]. split; [exact (H2 "by-name")|]. split; [exact H3|].
  exact H4.
Defined.

Lemma maps_run_once_per_view_witness :
  (insert "uuid-1" alice db0).1
    = Ok {| ok := true; id := "alice"; rev := "00000000000000000002" |}
  ∧ map_calls (insert "uuid-1" alice db0).2
    = map_calls db0
      ++ ((λ x, (x.1, <["_rev" := JStr "00000000000000000002"]>
                         (<["_id" := JStr "alice"]> alice)))
            <$> views db0)
  ∧ map_calls (remove "alice" "00000000000000000002" db1).2 = map_calls db1
  ∧ (insert "uuid-2" alice db1).1 = Err DuplicateDocument
  ∧ (insert "uuid-2" alice db1).2 = db1.
Proof.
  destruct (maps_run_once_per_view db0) as (H1 & _).
  destruct (maps_run_once_per_view db1) as (_ & _ & H3 & H4 & _).
  split; [reflexivity|].
  split; [exact (H1 "uuid-1" alice _ eq_refl)|].
  split; [apply H3|].
  split; [reflexivity|]. exact (H4 "uuid-2" alice _ eq_refl).
Defined.

Lemma one_commit_per_view_witness :
  Wf db1 ∧ NoDup (views db1).*1
  ∧ (replace "alice" "00000000000000000002" alice2 db1).1
    = Ok {| ok := true; id := "alice"; rev := "00000000000000000004" |}
  ∧ within_limits (kv (replace "alice" "00000000000000000002" alice2 db1).2)
    = true
  ∧ commits (kv (replace "alice" "00000000000000000002" alice2 db1).2)
    = commits (kv db1)
      ++ [MSet (getDocumentKey (namespace db1) "alice")
            (VDoc (<["_id" := JStr "alice"]> (delete "_rev" alice2)))]
         :: (view_batch (namespace db1) "alice"
               (Some (<["_rev" := JStr "00000000000000000004"]>
                        (<["_id" := JStr "alice"]> (delete "_rev" alice2))))
               (store_values (kv db1))
             <$> views db1).
Proof.
  assert (NoDup (views db1).*1) as Hnd by apply NoDup_singleton.
  split; [exact Wf_db1|]. split; [exact Hnd|]. split; [reflexivity|].
  split; [reflexivity|].
  destruct (one_commit_per_view db1 Wf_db1 Hnd) as (_ & H2 & _).
  exact (H2 "alice" "00000000000000000002" alice2 _ eq_refl eq_refl).
Defined.

Lemma step_writes_only_witness :
  Wf db1
  ∧ getDesignKey "test" "by-name"
    ≠ getDocumentKey (namespace db1) (target (OpInsert "uuid-2" bob))
  ∧ (∀ W, W ∈ (views db1).*1 →
       ¬ in_view (namespace db1) W (getDesignKey "test" "by-name"))
  ∧ entries (kv (step db1 (OpInsert "uuid-2" bob)))
      !! getDesignKey "test" "by-name"
    = entries (kv db1) !! getDesignKey "test" "by-name".
Proof.
  assert (∀ W, W ∈ (views db1).*1 →
            ¬ in_view (namespace db1) W (getDesignKey "test" "by-name"))
    as Hv by (intros W _; apply designKey_no_view).
  split; [exact Wf_db1|]. split; [by vm_compute|]. split; [exact Hv|].
  apply (step_writes_only (OpInsert "uuid-2" bob) _ db1 Wf_db1);
    [by vm_compute|exact Hv].
Defined.

Lemma defineView_writes_only_witness :
  ¬ in_view (namespace db2) "by-name" (getDocumentKey "test" "alice")
  ∧ getDocumentKey "test" "alice" ≠ getDesignKey (namespace db2) "by-name"
  ∧ entries (kv (defineView digest "by-name" byName2 None db2))
      !! getDocumentKey "test" "alice"
    = entries (kv db2) !! getDocumentKey "test" "alice".
Proof.
  split; [apply docKey_no_view|]. split; [by vm_compute|].
  apply (defineView_writes_only digest "by-name" byName2 None _ db2);
    [apply docKey_no_view|by vm_compute].
Defined.

Lemma writes_stay_in_namespace_witness :
  Wf db1
  ∧ head (getDocumentKey "other" "alice") ≠ Some (KStr (namespace db1))
  ∧ (∀ op,
       entries (kv (step db1 op)) !! getDocumentKey "other" "alice"
       = entries (kv db1) !! getDocumentKey "other" "alice")
  ∧ (∀ V f r,
       entries (kv (defineView digest V f r db1))
         !! getDocumentKey "other" "alice"
       = entries (kv db1) !! getDocumentKey "other" "alice").
Proof.
  split; [exact Wf_db1|]. split; [by vm_compute|].
  apply (writes_stay_in_namespace digest _ db1 Wf_db1). by vm_compute.
Defined.

Lemma exact_keys_byName' : exact_keys byName2.
Proof. exact exact_keys_byName. Qed.

Lemma defineView_rebuilds_witness :
  Wf db2
  ∧ signature <$> design_record "by-name" db2
    ≠ Some (hashFunction digest byName2)
  ∧ state <$> design_record "by-name" db2 ≠ Some building
  ∧ exact_keys byName2
  ∧ within_limits (kv (defineView digest "by-name" byName2 None db2)) = true
  ∧ design_record "by-name" (defineView digest "by-name" byName2 None db2)
    = Some {| signature := hashFunction digest byName2; state := ready |}
  ∧ (∀ j, get j (defineView digest "by-name" byName2 None db2) = get j db2)
  ∧ (∀ k v,
       (getViewKey (namespace db2) "by-name" `prefix_of` k
        ∧ ∃ vs, entries (kv (defineView digest "by-name" byName2 None db2))
                  !! k = Some (v, vs))
       ↔ ∃ i d e,
           get i db2 = Some d
           ∧ last_emit (getViewKey (namespace db2) "by-name") i
               (run byName2 (delete "_rev" d)) k = Some e
           ∧ v = row_of (delete "_rev" d) e)
  ∧ (∀ i d, get i db2 = Some d →
       ∃ vs,
         entries (kv (defineView digest "by-name" byName2 None db2))
           !! getViewRefKey (namespace db2) "by-name" i
         = Some (VKeys (viewKey (getViewKey (namespace db2) "by-name") i
                          <$> run byName2 (delete "_rev" d)), vs))
  ∧ (∀ i, get i db2 = None →
       entries (kv (defineView digest "by-name" byName2 None db2))
         !! getViewRefKey (namespace db2) "by-name" i = None).
Proof.
  split; [exact Wf_db2|]. split; [by vm_compute|]. split; [by vm_compute|].
  split; [exact exact_keys_byName'|]. split; [reflexivity|].
  apply (defineView_rebuilds digest "by-name" byName2 None db2 Wf_db2);
    [by vm_compute|by vm_compute|exact exact_keys_byName'|reflexivity].
Defined.


Lemma unregistered_view_goes_stale_witness :
  Wf db2 ∧ ("by-name" ∉ (views db2).*1)
  ∧ signature <$> design_record "by-name" db2
    = Some (hashFunction digest byName)
  ∧ in_view (namespace db2) "by-name"
      (viewKey (getViewKey "test" "by-name") "bob" (emit "Bob" JUndefined))
  ∧ entries (kv (step db2 (OpInsert "uuid-2" bob)))
      !! viewKey (getViewKey "test" "by-name") "bob" (emit "Bob" JUndefined)
    = entries (kv db2)
        !! viewKey (getViewKey "test" "by-name") "bob" (emit "Bob" JUndefined)
  ∧ entries (kv (defineView digest "by-name" byName None
                   (step db2 (OpInsert "uuid-2" bob))))
      !! viewKey (getViewKey "test" "by-name") "bob" (emit "Bob" JUndefined)
    = entries (kv db2)
        !! viewKey (getViewKey "test" "by-name") "bob" (emit "Bob" JUndefined).
Proof.
  assert ("by-name" ∉ (views db2).*1) as Hv by apply not_elem_of_nil.
  assert (in_view (namespace db2) "by-name"
            (viewKey (getViewKey "test" "by-name") "bob"
               (emit "Bob" JUndefined))) as Hk
    by (left; apply viewKey_prefix).
  split; [exact Wf_db2|]. split; [exact Hv|]. split; [reflexivity|].
  split; [exact Hk|].
  apply (unregistered_view_goes_stale digest "by-name" byName None
           (OpInsert "uuid-2" bob) _ db2 Wf_db2 Hv eq_refl Hk).
Defined.

Lemma reachable_well_formed_witness : Reachable digest db1 ∧ Wf db1.
Proof.
  split; [exact Reachable_db1|].
  apply (reachable_well_formed digest db1 Reachable_db1).
Defined.

Lemma replace_makes_rev_stale_witness :
  Reachable digest db1 ∧ (clock (kv db1) + 1 < 16 ^ 20)%N
  ∧ (replace "alice" "00000000000000000002" alice2 db1).1
    = Ok {| ok := true; id := "alice"; rev := "00000000000000000004" |}
  ∧ rev {| ok := true; id := "alice"; rev := "00000000000000000004" |}
    ≠ "00000000000000000002"
  ∧ (∃ dnew,
       get "alice" (replace "alice" "00000000000000000002" alice2 db1).2
       = Some dnew
       ∧ dnew !! "_rev"
         = Some (JStr (rev {| ok := true; id := "alice";
                              rev := "00000000000000000004" |})))
  ∧ replace "alice" "00000000000000000002" alice
      (replace "alice" "00000000000000000002" alice2 db1).2
    = (Err RevisionConflict,
       (replace "alice" "00000000000000000002" alice2 db1).2)
  ∧ remove "alice" "00000000000000000002"
      (replace "alice" "00000000000000000002" alice2 db1).2
    = (Err RevisionConflict,
       (replace "alice" "00000000000000000002" alice2 db1).2).
Proof.
  split; [exact Reachable_db1|]. split; [by vm_compute|].
  split; [reflexivity|].
  apply (replace_makes_rev_stale digest "alice" "00000000000000000002"
           alice2 alice _ db1 Reachable_db1); [by vm_compute|reflexivity].
Defined.

Lemma query_errors_witness :
  views_get (ViewQuery._viewName (ViewQuery.for_ "by-age")) (views db1) = None
  ∧ query (ViewQuery.for_ "by-age") db1 = Err UndefinedView
  ∧ is_Some (views_get
               (ViewQuery._viewName
                  (ViewQuery.keys ["Alice"; "Bob"] (ViewQuery.for_ "by-name")))
               (views db1))
  ∧ ViewQuery._key
      (ViewQuery.keys ["Alice"; "Bob"] (ViewQuery.for_ "by-name")) = None
  ∧ is_Some (ViewQuery._keys
               (ViewQuery.keys ["Alice"; "Bob"] (ViewQuery.for_ "by-name")))
  ∧ query (ViewQuery.keys ["Alice"; "Bob"] (ViewQuery.for_ "by-name")) db1
    = Err NotImplemented.
Proof.
  destruct (query_errors (ViewQuery.for_ "by-age") db1) as [H1 _].
  destruct (query_errors
              (ViewQuery.keys ["Alice"; "Bob"] (ViewQuery.for_ "by-name"))
              db1) as [_ H2].
  split; [reflexivity|]. split; [exact (H1 eq_refl)|].
  split; [by eexists|]. split; [reflexivity|]. split; [by eexists|].
  apply H2; [by eexists|reflexivity|by eexists].
Defined.

Lemma skip_limit_window_witness :
  views_get (ViewQuery._viewName (ViewQuery.for_ "by-name")) (views db3)
    = Some {| map_fn := byName; reduce_fn := Some count |}
  ∧ selector_of
      (getViewKey (namespace db3)
         (ViewQuery._viewName (ViewQuery.for_ "by-name")))
      (ViewQuery.shape (ViewQuery.getParams (ViewQuery.for_ "by-name")))
    = Ok (SelPrefix (getViewKey "test" "by-name"))
  ∧ (ViewQuery._reduce (ViewQuery.for_ "by-name") = false
     ∨ reduce_fn {| map_fn := byName; reduce_fn := Some count |} = None)
  ∧ ViewQuery._skip (ViewQuery.for_ "by-name") = of_Z 0
  ∧ ViewQuery._limit (ViewQuery.for_ "by-name") = PosInf
  ∧ 0 <= 1 < 2 ^ 31 ∧ 1 <= 1 < 2 ^ 31
  ∧ map_rows
      (query (ViewQuery.skip (of_Z 1)
                (ViewQuery.limit (of_Z 1) (ViewQuery.for_ "by-name"))) db3)
    = take (Z.to_nat 1)
        (drop (Z.to_nat 1)
           (map_rows (query (ViewQuery.for_ "by-name") db3))).
Proof.
  split; [reflexivity|]. split; [reflexivity|]. split; [by left|].
  split; [reflexivity|]. split; [reflexivity|]. split; [lia|].
  split; [lia|].
  apply (skip_limit_window (ViewQuery.for_ "by-name")
           {| map_fn := byName; reduce_fn := Some count |}
           (SelPrefix (getViewKey "test" "by-name")) 1 1 db3);
    try reflexivity; try lia. by left.
Defined.




Lemma rows_in_key_order_witness :
  views_get (ViewQuery._viewName (ViewQuery.for_ "by-name")) (views db3)
    = Some {| map_fn := byName; reduce_fn := Some count |}
  ∧ shape_prefix
      (ViewQuery.shape (ViewQuery.getParams (ViewQuery.for_ "by-name")))
    = Some []
  ∧ (ViewQuery._reduce (ViewQuery.for_ "by-name") = false
     ∨ reduce_fn {| map_fn := byName; reduce_fn := Some count |} = None)
  ∧ ViewQuery._skip (ViewQuery.for_ "by-name") = of_Z 0
  ∧ ViewQuery._limit (ViewQuery.for_ "by-name") = PosInf
  ∧ Sorted row_le
      (map_rows
         (query (ViewQuery.order ViewQuery.ASCENDING
                   (ViewQuery.for_ "by-name")) db3))
  ∧ map_rows
      (query (ViewQuery.order ViewQuery.DESCENDING (ViewQuery.for_ "by-name"))
         db3)
    = List.rev
        (map_rows
           (query (ViewQuery.order ViewQuery.ASCENDING
                     (ViewQuery.for_ "by-name")) db3)).
Proof.
  split; [reflexivity|]. split; [reflexivity|]. split; [by left|].
  split; [reflexivity|]. split; [reflexivity|].
  apply (rows_in_key_order (ViewQuery.for_ "by-name")
           {| map_fn := byName; reduce_fn := Some count |} [] db3);
    try reflexivity. by left.
Defined.

Lemma chain_last_call_wins_witness :
  ViewQuery.chain
    [ViewQuery.COrder ViewQuery.DESCENDING; ViewQuery.CSkip (of_Z 3);
     ViewQuery.CKey "a"; ViewQuery.COrder ViewQuery.ASCENDING;
     ViewQuery.CSkip (of_Z 10); ViewQuery.CGroup (ViewQuery.LBool true)]
    (ViewQuery.for_ "test-view")
    = Ok (ViewQuery.set_group true (Some (of_Z 0))
            (ViewQuery.skip (of_Z 10)
               (ViewQuery.order ViewQuery.ASCENDING
                  (ViewQuery.key "a"
                     (ViewQuery.skip (of_Z 3)
                        (ViewQuery.order ViewQuery.DESCENDING
                           (ViewQuery.for_ "test-view")))))))
  ∧ ViewQuery.viewName
      (ViewQuery.getParams
         (ViewQuery.set_group true (Some (of_Z 0))
            (ViewQuery.skip (of_Z 10)
               (ViewQuery.order ViewQuery.ASCENDING
                  (ViewQuery.key "a"
                     (ViewQuery.skip (of_Z 3)
                        (ViewQuery.order ViewQuery.DESCENDING
                           (ViewQuery.for_ "test-view"))))))))
    = "test-view"
  ∧ ViewQuery.descending
      (ViewQuery.getParams
         (ViewQuery.set_group true (Some (of_Z 0))
            (ViewQuery.skip (of_Z 10)
               (ViewQuery.order ViewQuery.ASCENDING
                  (ViewQuery.key "a"
                     (ViewQuery.skip (of_Z 3)
                        (ViewQuery.order ViewQuery.DESCENDING
                           (ViewQuery.for_ "test-view"))))))))
    = last_set sets_order
        [ViewQuery.COrder ViewQuery.DESCENDING; ViewQuery.CSkip (of_Z 3);
         ViewQuery.CKey "a"; ViewQuery.COrder ViewQuery.ASCENDING;
         ViewQuery.CSkip (of_Z 10); ViewQuery.CGroup (ViewQuery.LBool true)]
        false
  ∧ ViewQuery.p_includeDocs
      (ViewQuery.getParams
         (ViewQuery.set_group true (Some (of_Z 0))
            (ViewQuery.skip (of_Z 10)
               (ViewQuery.order ViewQuery.ASCENDING
                  (ViewQuery.key "a"
                     (ViewQuery.skip (of_Z 3)
                        (ViewQuery.order ViewQuery.DESCENDING
                           (ViewQuery.for_ "test-view"))))))))
    = last_set sets_includeDocs
        [ViewQuery.COrder ViewQuery.DESCENDING; ViewQuery.CSkip (of_Z 3);
         ViewQuery.CKey "a"; ViewQuery.COrder ViewQuery.ASCENDING;
         ViewQuery.CSkip (of_Z 10); ViewQuery.CGroup (ViewQuery.LBool true)]
        false
  ∧ ViewQuery.p_skip
      (ViewQuery.getParams
         (ViewQuery.set_group true (Some (of_Z 0))
            (ViewQuery.skip (of_Z 10)
               (ViewQuery.order ViewQuery.ASCENDING
                  (ViewQuery.key "a"
                     (ViewQuery.skip (of_Z 3)
                        (ViewQuery.order ViewQuery.DESCENDING
                           (ViewQuery.for_ "test-view"))))))))
    = last_set sets_skip
        [ViewQuery.COrder ViewQuery.DESCENDING; ViewQuery.CSkip (of_Z 3);
         ViewQuery.CKey "a"; ViewQuery.COrder ViewQuery.ASCENDING;
         ViewQuery.CSkip (of_Z 10); ViewQuery.CGroup (ViewQuery.LBool true)]
        (of_Z 0)
  ∧ ViewQuery.p_limit
      (ViewQuery.getParams
         (ViewQuery.set_group true (Some (of_Z 0))
            (ViewQuery.skip (of_Z 10)
               (ViewQuery.order ViewQuery.ASCENDING
                  (ViewQuery.key "a"
                     (ViewQuery.skip (of_Z 3)
                        (ViewQuery.order ViewQuery.DESCENDING
                           (ViewQuery.for_ "test-view"))))))))
    = last_set sets_limit
        [ViewQuery.COrder ViewQuery.DESCENDING; ViewQuery.CSkip (of_Z 3);
         ViewQuery.CKey "a"; ViewQuery.COrder ViewQuery.ASCENDING;
         ViewQuery.CSkip (of_Z 10); ViewQuery.CGroup (ViewQuery.LBool true)]
        PosInf.
Proof.
  split; [reflexivity|].
  apply (chain_last_call_wins "test-view"
           [ViewQuery.COrder ViewQuery.DESCENDING; ViewQuery.CSkip (of_Z 3);
            ViewQuery.CKey "a"; ViewQuery.COrder ViewQuery.ASCENDING;
            ViewQuery.CSkip (of_Z 10);
            ViewQuery.CGroup (ViewQuery.LBool true)]).
  reflexivity.
Defined.

Lemma Maintained_db4 : Maintained digest db4.
Proof.
  apply (maintained_step digest (OpInsert "uuid-2" bob)).
  apply maintained_rebuild.
  - apply maintained_open. exact Wf_db2.
  - by vm_compute.
  - by vm_compute.
Qed.

(** *** Batches over the limit of the store

    [updateViewsForDoc] puts the deletions, the rows and the
    back-reference of a document in one batch, whatever their number: for
    a view that emits 1000 rows the batch has 1001 mutations, one more
    than the store accepts.  [rebuildView] tests the size of its batch
    once a whole document is added: two documents of 500 rows make a
    batch of 1002 mutations.  On such runs the store throws; they are the
    runs that [within_limits] leaves out. *)
Example update_batch_over_limit :
  within_limits (kv db5) = false
  ∧ length <$> commits (kv db5) = [1; 1; 1001]%nat.
Proof. by vm_compute. Qed.

Example rebuild_batch_over_limit :
  within_limits (kv db6) = false
  ∧ length <$> commits (kv db6) = [1; 1; 1002; 1]%nat.
Proof. by vm_compute. Qed.

Lemma Maintained_twice :
  Maintained digest
    (run_ops [OpInsert "uuid-1" x]
       (define_views digest [("v", twice, None)] (open "test" empty_store))).
Proof.
  apply (maintained_step digest (OpInsert "uuid-1" x)).
  apply maintained_rebuild.
  - apply maintained_open, Wf_open.
  - by vm_compute.
  - by vm_compute.
Qed.



End ClosedMore.
